(** * Credential and token security: a shallow embedding of
      [apps/api/app/core/security.py]

    The module under verification wraps four third-party packages (passlib,
    cryptography's Fernet, python-jose and pyotp) and adds the password
    policy and the backup-code generator.  The embedding follows the Python
    text function by function.  Python objects that the code mutates (the
    claim dictionaries) live in an explicit heap; the wall clock and the
    operating system's entropy source are oracles read through a state and
    exception monad.

    Of the packages, what the module's behaviour depends on is written out:
    the compact serialisation of a JWT, its parsing and the claim checks of
    [jwt.decode], the token layout, padding and lenient base64 of Fernet,
    the scheme identification of passlib, and pyotp's codes down to SHA-1.
    The same holds for what the standard library does for the module:
    SHA-256, [secrets.token_urlsafe], the character choice of
    [SystemRandom] and the quoting of [urllib.parse].  The primitives that
    stay parameters are the JSON codec, the construction and use of the
    JWT signing key, AES in CBC mode with HMAC-SHA256, the Argon2 digest
    and its salt, the conversion of local time by [time.mktime], and the
    Unicode tables behind [str.isupper], [str.upper] and NFKC
    normalisation.

    The first part holds the definitions, the second the properties. *)

From Stdlib Require Import ZArith NArith List String Ascii Bool Lia.
From Stdlib Require Strings.Byte.
From stdpp Require Import base gmap.
Import ListNotations.

Local Open Scope Z_scope.

(** ** Python strings

    A Python [str] is a sequence of code points; [len] counts code points.
    Literals of the source are written [py "..."]. *)

Definition codepoint := N.
Definition str := list codepoint.

Definition py (s : string) : str :=
  List.map N_of_ascii (list_ascii_of_string s).

Definition len {A} (l : list A) : Z := Z.of_nat (List.length l).

Definition str_eqb (a b : str) : bool := bool_decide (a = b).

(** [x in s] for a one-character string [x]. *)
Definition char_in (c : codepoint) (s : str) : bool :=
  existsb (N.eqb c) s.

(** [prefix in s]: substring test, used to read the messages. *)
Fixpoint startswith (s prefix : str) : bool :=
  match prefix, s with
  | [], _ => true
  | p :: prefix', c :: s' => N.eqb p c && startswith s' prefix'
  | _ :: _, [] => false
  end.

Fixpoint contains (s sub : str) : bool :=
  startswith s sub ||
  match s with
  | [] => false
  | _ :: s' => contains s' sub
  end.

(** ** Character classes

    [str.isupper], [str.islower] and [str.isdigit] on a single character
    consult the Unicode character database.  On ASCII the classes are the
    familiar ranges; beyond ASCII the database is a parameter. *)

Section Unicode.

Variables ucd_isupper ucd_islower ucd_isdigit : codepoint -> bool.

Definition is_ascii (c : codepoint) : bool := (c <? 128)%N.

Definition isupper (c : codepoint) : bool :=
  if is_ascii c then (65 <=? c)%N && (c <=? 90)%N else ucd_isupper c.

Definition islower (c : codepoint) : bool :=
  if is_ascii c then (97 <=? c)%N && (c <=? 122)%N else ucd_islower c.

Definition isdigit (c : codepoint) : bool :=
  if is_ascii c then (48 <=? c)%N && (c <=? 57)%N else ucd_isdigit c.

(** ** Password validation *)

Definition special_chars : str := py "!@#$%^&*()_+-=[]{}|;:,.<>?".

Definition msg_length : str :=
  py "Password must be at least 8 characters long".
Definition msg_uppercase : str :=
  py "Password must contain at least one uppercase letter".
Definition msg_lowercase : str :=
  py "Password must contain at least one lowercase letter".
Definition msg_digit : str :=
  py "Password must contain at least one digit".
Definition msg_special : str :=
  py "Password must contain at least one special character".

Definition validate_password_strength (password : str) : bool * option str :=
  if len password <? 8 then (false, Some msg_length)
  else if negb (existsb isupper password) then (false, Some msg_uppercase)
  else if negb (existsb islower password) then (false, Some msg_lowercase)
  else if negb (existsb isdigit password) then (false, Some msg_digit)
  else if negb (existsb (fun c => char_in c special_chars) password)
       then (false, Some msg_special)
  else (true, None).

(** The policy as the specification words it: an ordered list of named
    checks, of which the first failing one is reported. *)

Inductive check_name := Length | Uppercase | Lowercase | Digit | Special.

#[global] Instance check_name_eq_dec : EqDecision check_name.
Proof. solve_decision. Defined.

Definition passes (n : check_name) (password : str) : bool :=
  match n with
  | Length => 8 <=? len password
  | Uppercase => existsb isupper password
  | Lowercase => existsb islower password
  | Digit => existsb isdigit password
  | Special => existsb (fun c => char_in c special_chars) password
  end.

Definition policy_order : list check_name :=
  [Length; Uppercase; Lowercase; Digit; Special].

Fixpoint first_failing (checks : list check_name) (password : str)
  : option check_name :=
  match checks with
  | [] => None
  | n :: rest =>
      if passes n password then first_failing rest password else Some n
  end.

(** The word by which a reason names its check. *)
Definition keyword (n : check_name) : str :=
  match n with
  | Length => py "at least 8 characters"
  | Uppercase => py "uppercase"
  | Lowercase => py "lowercase"
  | Digit => py "digit"
  | Special => py "special character"
  end.

(** The reason reported for a failing check. *)
Definition reason (n : check_name) : str :=
  match n with
  | Length => msg_length
  | Uppercase => msg_uppercase
  | Lowercase => msg_lowercase
  | Digit => msg_digit
  | Special => msg_special
  end.

Definition names_only (n : check_name) (text : str) : bool :=
  forallb (fun m => Bool.eqb (contains text (keyword m))
                             (bool_decide (m = n)))
          policy_order.

End Unicode.

(** ** Python values, dictionaries and exceptions *)

Inductive exn :=
| AttributeError
| TypeError
| ValueError
| OverflowError
| RecursionError
| MemoryError
| UnicodeEncodeError        (* a ValueError *)
| UnicodeDecodeError        (* a ValueError *)
| BinasciiError             (* binascii.Error, a ValueError *)
| UnknownHashError          (* passlib.exc, a ValueError *)
| MalformedHashError        (* passlib.exc, a ValueError *)
| PasswordSizeError         (* passlib.exc, a ValueError *)
| JWSError                  (* jose.exceptions *)
| JWKError
| JWTError
| ExpiredSignatureError     (* a JWTError *)
| JWTClaimsError            (* a JWTError *)
| InvalidToken.             (* cryptography.fernet *)

#[global] Instance exn_eq_dec : EqDecision exn.
Proof. solve_decision. Defined.

(** [isinstance(e, ValueError)] *)
Definition is_value_error (e : exn) : bool :=
  match e with
  | ValueError | UnicodeEncodeError | UnicodeDecodeError | BinasciiError
  | UnknownHashError | MalformedHashError | PasswordSizeError => true
  | _ => false
  end.

(** A [float]: a finite one has the value [m * 2^e]. *)
Inductive pyfloat :=
| Finite (m e : Z)
| Infinity (negative : bool)
| NaN.

(** The values a claim can hold.  A [datetime] is its offset from the epoch
    in microseconds, the resolution of the type. *)
#[local] Unset Elimination Schemes.
Inductive value :=
| VNone
| VBool (b : bool)
| VInt (z : Z)
| VFloat (f : pyfloat)
| VStr (s : str)
| VDatetime (us : Z)
| VList (items : list value)
| VDict (items : list (str * value)).
#[local] Set Elimination Schemes.

(** A [dict] keeps its keys in insertion order; assigning to a key that is
    present keeps its position. *)
Definition dict := list (str * value).

Fixpoint dict_get (d : dict) (k : str) : option value :=
  match d with
  | [] => None
  | (k', v) :: rest => if str_eqb k' k then Some v else dict_get rest k
  end.

Definition dict_has (d : dict) (k : str) : bool :=
  match dict_get d k with Some _ => true | None => false end.

Fixpoint dict_set (d : dict) (k : str) (v : value) : dict :=
  match d with
  | [] => [(k, v)]
  | (k', v') :: rest =>
      if str_eqb k' k then (k, v) :: rest else (k', v') :: dict_set rest k v
  end.

Definition dict_update (d other : dict) : dict :=
  fold_left (fun acc kv => dict_set acc (fst kv) (snd kv)) other d.

Definition keys (d : dict) : list str := List.map fst d.

(** ** The world: heap, clock and entropy *)

Definition loc := positive.

Record World := mkWorld {
  heap : gmap loc dict;         (* the dictionaries alive, by identity *)
  clock : nat -> Z;             (* the n-th reading of the UTC clock, in microseconds *)
  reads : nat;                  (* readings taken so far *)
  entropy : nat -> Byte.byte;   (* the n-th byte the system generator yields *)
  drawn : nat                   (* bytes drawn so far *)
}.

Definition M (A : Type) : Type := World -> (exn + A) * World.

Definition ret {A} (a : A) : M A := fun w => (inr a, w).
Definition raise {A} (e : exn) : M A := fun w => (inl e, w).
Definition bind {A B} (c : M A) (k : A -> M B) : M B :=
  fun w => match c w with
           | (inr a, w') => k a w'
           | (inl e, w') => (inl e, w')
           end.

Notation "x <- c ;; k" := (bind c (fun x => k))
  (at level 100, c at next level, right associativity).
Notation "c ;;; k" := (bind c (fun _ => k))
  (at level 100, right associativity).

(** [try: c except <class>: raise e] *)
Definition reraise {A} (caught : exn -> bool) (e : exn) (c : M A) : M A :=
  fun w => match c w with
           | (inl e', w') => (inl (if caught e' then e else e'), w')
           | r => r
           end.

Definition set_heap (h : gmap loc dict) (w : World) : World :=
  mkWorld h (clock w) (reads w) (entropy w) (drawn w).

Definition alloc (d : dict) : M loc :=
  fun w => let l := fresh (dom (heap w)) in
           (inr l, set_heap (<[l := d]> (heap w)) w).

Definition deref (l : loc) : M dict :=
  fun w => match heap w !! l with
           | Some d => (inr d, w)
           | None => (inl AttributeError, w)
           end.

Definition assign (l : loc) (d : dict) : M unit :=
  fun w => (inr tt, set_heap (<[l := d]> (heap w)) w).

(** [d.copy()]: a new dictionary with the same items. *)
Definition dict_copy (l : loc) : M loc :=
  d <- deref l ;; alloc d.

(** [d.update(other)], in place. *)
Definition dict_update_at (l : loc) (other : dict) : M unit :=
  d <- deref l ;; assign l (dict_update d other).

(** [datetime.utcnow()] *)
Definition utcnow : M Z :=
  fun w => (inr (clock w (reads w)),
            mkWorld (heap w) (clock w) (S (reads w)) (entropy w) (drawn w)).

(** [os.urandom(1)] *)
Definition next_byte : M Byte.byte :=
  fun w => (inr (entropy w (drawn w)),
            mkWorld (heap w) (clock w) (reads w) (entropy w) (S (drawn w))).

(** *** Dates

    [datetime] covers the years 1 to 9999; arithmetic that leaves the range
    raises [OverflowError].  [timegm(d.utctimetuple())] drops the
    microseconds. *)
Definition datetime_min : Z := -62135596800000000.
Definition datetime_max : Z := 253402300799999999.

Definition datetime_add (d delta : Z) : M Z :=
  let r := d + delta in
  if (datetime_min <=? r) && (r <=? datetime_max) then ret r
  else raise OverflowError.

Definition timegm (d : Z) : Z := d / 1000000.

Definition timedelta_minutes (m : Z) : Z := m * 60000000.
Definition timedelta_days (d : Z) : Z := d * 86400000000.

(** The truth value of an optional [timedelta]: [None] and the zero
    duration are false. *)
Definition truthy (delta : option Z) : bool :=
  match delta with
  | None => false
  | Some d => negb (d =? 0)
  end.

(** ** Byte strings *)

Definition bytes := list Byte.byte.

#[global] Instance byte_eq_dec : EqDecision Byte.byte := Byte.byte_eq_dec.
#[global] Instance bytes_eq_dec : EqDecision bytes := list_eq_dec.

(** ** Configuration

    [app.core.config.settings] is read, never written. *)

Record Settings := mkSettings {
  JWT_SECRET_KEY : str;
  JWT_ALGORITHM : str;
  ACCESS_TOKEN_EXPIRE_MINUTES : Z;
  REFRESH_TOKEN_EXPIRE_DAYS : Z
}.

(** ** UTF-8: [str.encode()] and [bytes.decode()]

    Both are strict: a surrogate code point cannot be encoded, and a byte
    sequence that is not the shortest encoding of a scalar value cannot be
    decoded. *)

Definition byte_of_N (n : N) : Byte.byte :=
  match Byte.of_N n with Some b => b | None => Byte.x00 end.

Definition is_surrogate (c : codepoint) : bool :=
  ((55296 <=? c) && (c <=? 57343))%N.

Definition utf8_encode_char (c : codepoint) : option bytes :=
  (if c <? 128 then Some [byte_of_N c]
   else if c <? 2048 then
     Some [byte_of_N (192 + c / 64); byte_of_N (128 + c mod 64)]
   else if c <? 65536 then
     if is_surrogate c then None
     else Some [byte_of_N (224 + c / 4096);
                byte_of_N (128 + (c / 64) mod 64);
                byte_of_N (128 + c mod 64)]
   else if c <? 1114112 then
     Some [byte_of_N (240 + c / 262144);
           byte_of_N (128 + (c / 4096) mod 64);
           byte_of_N (128 + (c / 64) mod 64);
           byte_of_N (128 + c mod 64)]
   else None)%N.

Fixpoint utf8_encode (s : str) : option bytes :=
  match s with
  | [] => Some []
  | c :: rest =>
      match utf8_encode_char c, utf8_encode rest with
      | Some bs, Some more => Some (bs ++ more)
      | _, _ => None
      end
  end.

(** The payload of a continuation byte [10xxxxxx]. *)
Definition continuation (b : Byte.byte) : option N :=
  let n := Byte.to_N b in
  (if (128 <=? n) && (n <? 192) then Some (n - 128) else None)%N.

Definition scalar_in (lo hi : N) (c : N) : option codepoint :=
  (if (lo <=? c) && (c <=? hi) && negb (is_surrogate c) then Some c else None)%N.

Fixpoint utf8_decode (bs : bytes) : option str :=
  match bs with
  | [] => Some []
  | b0 :: rest =>
      let n0 := Byte.to_N b0 in
      if (n0 <? 128)%N then
        option_map (cons n0) (utf8_decode rest)
      else if (n0 <? 192)%N then None
      else if (n0 <? 224)%N then
        match rest with
        | b1 :: rest' =>
            match continuation b1 with
            | Some x1 =>
                match scalar_in 128 2047 ((n0 - 192) * 64 + x1) with
                | Some c => option_map (cons c) (utf8_decode rest')
                | None => None
                end
            | None => None
            end
        | _ => None
        end
      else if (n0 <? 240)%N then
        match rest with
        | b1 :: b2 :: rest' =>
            match continuation b1, continuation b2 with
            | Some x1, Some x2 =>
                match scalar_in 2048 65535 ((n0 - 224) * 4096 + x1 * 64 + x2) with
                | Some c => option_map (cons c) (utf8_decode rest')
                | None => None
                end
            | _, _ => None
            end
        | _ => None
        end
      else if (n0 <? 248)%N then
        match rest with
        | b1 :: b2 :: b3 :: rest' =>
            match continuation b1, continuation b2, continuation b3 with
            | Some x1, Some x2, Some x3 =>
                match scalar_in 65536 1114111
                        ((n0 - 240) * 262144 + x1 * 4096 + x2 * 64 + x3) with
                | Some c => option_map (cons c) (utf8_decode rest')
                | None => None
                end
            | _, _, _ => None
            end
        | _ => None
        end
      else None
  end.

Definition str_encode (s : str) : M bytes :=
  match utf8_encode s with
  | Some bs => ret bs
  | None => raise UnicodeEncodeError
  end.

Definition bytes_decode (bs : bytes) : M str :=
  match utf8_decode bs with
  | Some s => ret s
  | None => raise UnicodeDecodeError
  end.

(** ** Backup codes *)

(** [secrets.token_bytes(n)] *)
Fixpoint token_bytes (n : nat) : M bytes :=
  match n with
  | O => ret []
  | S n' => b <- next_byte ;; rest <- token_bytes n' ;; ret (b :: rest)
  end.

Definition hex_digit (n : N) : codepoint :=
  (if n <? 10 then 48 + n else 87 + n)%N.

(** [binascii.hexlify(bs).decode('ascii')]: two lowercase digits per byte. *)
Definition hexlify (bs : bytes) : str :=
  flat_map (fun b => [hex_digit (Byte.to_N b / 16); hex_digit (Byte.to_N b mod 16)]) bs.

(** [secrets.token_hex(n)] *)
Definition token_hex (n : nat) : M str :=
  bs <- token_bytes n ;; ret (hexlify bs).

Section Upper.

(** The uppercase mapping of a character beyond ASCII (it may expand to
    several characters). *)
Variable ucd_upper : codepoint -> str.

Definition upper_char (c : codepoint) : str :=
  if is_ascii c
  then [if (97 <=? c)%N && (c <=? 122)%N then (c - 32)%N else c]
  else ucd_upper c.

(** [s.upper()] *)
Definition upper (s : str) : str := flat_map upper_char s.

(** The loop [for _ in range(n): codes.append(...)]. *)
Fixpoint backup_codes_loop (n : nat) (codes : list str) : M (list str) :=
  match n with
  | O => ret codes
  | S n' =>
      h <- token_hex 4 ;;
      backup_codes_loop n' (codes ++ [upper h])
  end.

(** [count] defaults to 10; [range(count)] is empty for a negative count. *)
Definition generate_backup_codes (count : option Z) : M (list str) :=
  backup_codes_loop (Z.to_nat (default 10 count)) [].

End Upper.

(** The alphabet of an uppercase hexadecimal code: [0-9A-F]. *)
Definition is_upper_hex (c : codepoint) : bool :=
  ((48 <=? c) && (c <=? 57) || (65 <=? c) && (c <=? 70))%N.

(** ** Vocabulary of the statements *)

(** What [jwt.encode] leaves of a time claim. *)
Definition time_claim_converted (d : dict) (name : str) : dict :=
  match dict_get d name with
  | Some (VDatetime t) => dict_set d name (VInt (timegm t))
  | _ => d
  end.

Definition encoded_claims (d : dict) : dict :=
  time_claim_converted
    (time_claim_converted (time_claim_converted d (py "exp")) (py "iat"))
    (py "nbf").

(** The payload of a token issued for the claims [c]. *)
Definition issued_payload (c : dict) (expire iat : Z) (type : str) : dict :=
  encoded_claims
    (dict_update c [(py "exp", VDatetime expire);
                    (py "iat", VDatetime iat);
                    (py "type", VStr type)]).

Definition reserved (k : str) : bool :=
  str_eqb k (py "exp") || str_eqb k (py "iat") || str_eqb k (py "type").

(** A list of items is a dictionary when no key occurs twice. *)
Definition is_dict (d : dict) : Prop := NoDup (keys d).

Definition is_datetime (v : value) : bool :=
  match v with VDatetime _ => true | _ => false end.

Definition absent_or_str (d : dict) (k : str) : bool :=
  match dict_get d k with
  | None | Some (VStr _) => true
  | Some _ => false
  end.

(** Claims that pass the registered-claim checks of [jwt.decode]: no
    [nbf], [aud] or [at_hash], and strings for [sub] and [jti]. *)
Definition plain_claims (c : dict) : bool :=
  negb (dict_has c (py "nbf"))
  && negb (dict_has c (py "aud"))
  && negb (dict_has c (py "at_hash"))
  && absent_or_str c (py "sub")
  && absent_or_str c (py "jti").

Definition in_datetime_range (d : Z) : Prop :=
  datetime_min <= d <= datetime_max.

(** The duration [create_access_token] adds to the clock. *)
Definition access_lifetime (settings : Settings) (expires_delta : option Z) : Z :=
  if truthy expires_delta then default 0 expires_delta
  else timedelta_minutes (ACCESS_TOKEN_EXPIRE_MINUTES settings).

(** The world after one more reading of the clock. *)
Definition tick (w : World) : World :=
  mkWorld (heap w) (clock w) (S (reads w)) (entropy w) (drawn w).

(** The current time in whole seconds, as the next reading gives it. *)
Definition now_seconds (w : World) : Z := timegm (clock w (reads w)).

(** The exception, if any, a result carries. *)
Definition verdict {A} (r : exn + A) : option exn :=
  match r with inl e => Some e | inr _ => None end.

(** ** Sample data for the worked examples *)

Definition sample_settings : Settings :=
  mkSettings (py "secret") (py "HS256") 30 7.

(** A world whose only dictionary is [c], at address 1, with the clock at
    1700000000.25 s and advancing a microsecond per reading. *)
Definition sample_world (c : dict) : World :=
  mkWorld {[ 1%positive := c ]}
          (fun n => 1700000000250000 + Z.of_nat n) 0
          (fun n => byte_of_N (N.of_nat (37 * n + 171) mod 256)) 0.

(** A world whose clock stands at [t] microseconds. *)
Definition world_at (t : Z) : World :=
  mkWorld ∅ (fun _ => t) 0 (fun _ => Byte.x00) 0.

Definition sample_claims : dict :=
  [(py "sub", VStr (py "user-17")); (py "role", VStr (py "admin"))].


(** ** Password hashing: passlib's [CryptContext(schemes=["argon2"])]

    [verify] first identifies the scheme of the hash and raises
    [UnknownHashError] when no scheme of the context claims it; the Argon2
    handler then checks the secret, decodes the hash string and recomputes
    the digest.  Decoding and digest are parameters. *)

Definition is_ascii_lower (c : codepoint) : bool :=
  ((97 <=? c) && (c <=? 122))%N.

(** [s[len(prefix):]] when [s] starts with [prefix] *)
Fixpoint strip_prefix (prefix s : str) : option str :=
  match prefix, s with
  | [], _ => Some s
  | p :: prefix', c :: s' => if N.eqb p c then strip_prefix prefix' s' else None
  | _ :: _, [] => None
  end.

Fixpoint skip_ascii_lower (s : str) : str :=
  match s with
  | c :: rest => if is_ascii_lower c then skip_ascii_lower rest else s
  | [] => []
  end.

(** The handler claims the hashes that match [^\$argon2[a-z]+\$]: the text
    [$argon2], one or more lowercase ASCII letters, and a [$]. *)
Definition identify (hash : str) : bool :=
  match strip_prefix (py "$argon2") hash with
  | Some (c :: rest) =>
      is_ascii_lower c
      && match skip_ascii_lower rest with
         | d :: _ => (d =? 36)%N
         | [] => false
         end
  | _ => false
  end.

Section Passlib.

(** A decoded hash: variant, cost parameters, salt and digest. *)
Context {phc : Type}.
(** The hash as the handler reads it, or the exception it raises for a
    string it cannot use. *)
Variable argon2_decode : str -> exn + phc.
(** The digest of the secret under the hash's own parameters and salt
    equals the stored digest. *)
Variable argon2_matches : phc -> bytes -> bool.

Definition MAX_PASSWORD_SIZE : Z := 4096.

Definition pwd_context_verify (secret hash : str) : M bool :=
  if negb (identify hash) then raise UnknownHashError
  else
    (if MAX_PASSWORD_SIZE <? len secret then raise PasswordSizeError else ret tt) ;;;
    secret_bytes <- str_encode secret ;;
    match argon2_decode hash with
    | inl e => raise e
    | inr h => ret (argon2_matches h secret_bytes)
    end.

Definition verify_password (plain_password hashed_password : str) : M bool :=
  pwd_context_verify plain_password hashed_password.

(** A hash the context can identify and decode. *)
Definition well_formed_hash (hash : str) : bool :=
  identify hash && match argon2_decode hash with inr _ => true | inl _ => false end.

End Passlib.

(** ** SHA-1 and HMAC (hashlib, hmac)

    Words are 32-bit; bytes are big-endian. *)

Definition w32 (n : N) : N := (n mod 4294967296)%N.

Definition rotl (k n : N) : N :=
  w32 (N.lor (N.shiftl n k) (N.shiftr n (32 - k))).

Definition be_bytes (width : nat) (n : N) : bytes :=
  List.map (fun i => byte_of_N (N.shiftr n (8 * N.of_nat i) mod 256)%N)
           (rev (seq 0 width)).

Fixpoint be_value (bs : bytes) (acc : N) : N :=
  match bs with
  | [] => acc
  | b :: rest => be_value rest (acc * 256 + Byte.to_N b)%N
  end.

(** Cut into consecutive chunks of [size] elements; a chunk never exceeds
    the list, so [fuel = length l] suffices. *)
Fixpoint chunks {A} (fuel size : nat) (l : list A) : list (list A) :=
  match fuel, l with
  | _, [] => []
  | O, _ => []
  | S fuel', _ => firstn size l :: chunks fuel' size (skipn size l)
  end.

Definition sha1_pad (msg : bytes) : bytes :=
  let n := List.length msg in
  let zeros := ((55 + 64 - n mod 64) mod 64)%nat in
  msg ++ [byte_of_N 128] ++ repeat Byte.x00 zeros
      ++ be_bytes 8 (8 * N.of_nat n).

(** The message schedule: 80 words from the 16 of a block, newest first. *)
Fixpoint sha1_schedule (n : nat) (rev_ws : list N) : list N :=
  match n with
  | O => rev_ws
  | S n' =>
      let w := rotl 1 (N.lxor (N.lxor (nth 2 rev_ws 0%N) (nth 7 rev_ws 0%N))
                              (N.lxor (nth 13 rev_ws 0%N) (nth 15 rev_ws 0%N))) in
      sha1_schedule n' (w :: rev_ws)
  end.

Definition sha1_state : Type := N * N * N * N * N.

Definition sha1_round (i : nat) (s : sha1_state) (w : N) : sha1_state :=
  let '(a, b, c, d, e) := s in
  let not_b := N.lxor b 4294967295 in
  let '(f, k) :=
    if (i <? 20)%nat then
      (N.lor (N.land b c) (N.land not_b d), 1518500249%N)
    else if (i <? 40)%nat then
      (N.lxor (N.lxor b c) d, 1859775393%N)
    else if (i <? 60)%nat then
      (N.lor (N.lor (N.land b c) (N.land b d)) (N.land c d), 2400959708%N)
    else
      (N.lxor (N.lxor b c) d, 3395469782%N) in
  (w32 (rotl 5 a + f + e + k + w), a, rotl 30 b, c, d)%N.

Fixpoint sha1_rounds (i : nat) (ws : list N) (s : sha1_state) : sha1_state :=
  match ws with
  | [] => s
  | w :: rest => sha1_rounds (S i) rest (sha1_round i s w)
  end.

Definition sha1_block (h : sha1_state) (block : bytes) : sha1_state :=
  let ws := List.map (fun word => be_value word 0%N) (chunks 16 4 block) in
  let schedule := rev (sha1_schedule 64 (rev ws)) in
  let '(h0, h1, h2, h3, h4) := h in
  let '(a, b, c, d, e) := sha1_rounds 0 schedule h in
  (w32 (h0 + a), w32 (h1 + b), w32 (h2 + c), w32 (h3 + d), w32 (h4 + e))%N.

Definition sha1_init : sha1_state :=
  (1732584193, 4023233417, 2562383102, 271733878, 3285377520)%N.

Definition sha1 (msg : bytes) : bytes :=
  let padded := sha1_pad msg in
  let '(h0, h1, h2, h3, h4) :=
    fold_left sha1_block (chunks (List.length padded) 64 padded) sha1_init in
  be_bytes 4 h0 ++ be_bytes 4 h1 ++ be_bytes 4 h2 ++ be_bytes 4 h3 ++ be_bytes 4 h4.

Definition xor_byte (pad : N) (b : Byte.byte) : Byte.byte :=
  byte_of_N (N.lxor (Byte.to_N b) pad).

(** [hmac.new(key, msg, hashlib.sha1).digest()] *)
Definition hmac_sha1 (key msg : bytes) : bytes :=
  let key' := if (64 <? List.length key)%nat then sha1 key else key in
  let block := key' ++ repeat Byte.x00 (64 - List.length key') in
  sha1 (List.map (xor_byte 92) block ++ sha1 (List.map (xor_byte 54) block ++ msg)).

(** ** Base32 ([base64.b32decode] with [casefold=True]) *)

Definition ascii_upper (c : codepoint) : codepoint :=
  if (97 <=? c)%N && (c <=? 122)%N then (c - 32)%N else c.

Definition b32_digit (c : codepoint) : option N :=
  if (65 <=? c)%N && (c <=? 90)%N then Some (c - 65)%N
  else if (50 <=? c)%N && (c <=? 55)%N then Some (c - 24)%N
  else None.

Fixpoint b32_acc (quantum : str) (acc : N) : option N :=
  match quantum with
  | [] => Some acc
  | c :: rest =>
      match b32_digit c with
      | Some v => b32_acc rest (acc * 32 + v)%N
      | None => None
      end
  end.

Fixpoint b32_quanta (quanta : list str) : option (bytes * N) :=
  match quanta with
  | [] => Some ([], 0%N)
  | q :: rest =>
      match b32_acc q 0%N, b32_quanta rest with
      | Some acc, Some (more, last_acc) =>
          Some (be_bytes 5 acc ++ more,
                match rest with [] => acc | _ => last_acc end)
      | _, _ => None
      end
  end.

Fixpoint lstrip_pad (s : str) : str :=
  match s with
  | c :: rest => if (c =? 61)%N then lstrip_pad rest else s
  | [] => []
  end.

(** [s.rstrip(b'=')] *)
Definition rstrip_pad (s : str) : str := rev (lstrip_pad (rev s)).

Definition b32decode_casefold (s : str) : exn + bytes :=
  if negb (forallb is_ascii s) then inl ValueError
  else if negb (List.length s mod 8 =? 0)%nat then inl BinasciiError
  else
    let s := List.map ascii_upper s in
    let l := List.length s in
    let s := rstrip_pad s in
    let padchars := (l - List.length s)%nat in
    match b32_quanta (chunks (List.length s) 8 s) with
    | None => inl BinasciiError
    | Some (decoded, acc) =>
        if negb (existsb (Nat.eqb padchars) [0; 1; 3; 4; 6])%nat
        then inl BinasciiError
        else if negb (padchars =? 0)%nat && negb (List.length decoded =? 0)%nat then
          let last := be_bytes 5 (N.shiftl acc (5 * N.of_nat padchars)) in
          let leftover := ((43 - 5 * padchars) / 8)%nat in
          inr (firstn (List.length decoded - 5) decoded ++ firstn leftover last)
        else inr decoded
    end.

(** ** pyotp: [TOTP(secret).verify(code, valid_window=1)]

    Six digits, thirty-second steps, HMAC-SHA1. *)

(** [OTP.byte_secret]: pad the secret to a multiple of eight and decode. *)
Definition byte_secret (secret : str) : exn + bytes :=
  let missing := (List.length secret mod 8)%nat in
  b32decode_casefold
    (if (missing =? 0)%nat then secret else secret ++ repeat 61%N (8 - missing)).

(** [utils.int_to_bytestring]: big-endian, at least eight bytes. *)
Definition int_to_bytestring (i : Z) : bytes :=
  let n := Z.to_N i in
  be_bytes (Nat.max 8 (N.to_nat ((N.size n + 7) / 8))) n.

(** The six decimal digits [str(10_000_000_000 + n)[-6:]] of [n < 10**6]. *)
Definition six_digits (n : N) : str :=
  List.map (fun p => (48 + (n / p) mod 10)%N) [100000; 10000; 1000; 100; 10; 1]%N.

(** The dynamic truncation of [OTP.generate_otp].  The digest has twenty
    bytes and the offset is at most fifteen, so no index is out of range. *)
Definition hotp (key : bytes) (counter : Z) : str :=
  let h := List.map Byte.to_N (hmac_sha1 key (int_to_bytestring counter)) in
  let at_ (i : N) := nth (N.to_nat i) h 0%N in
  let offset := N.land (List.last h 0%N) 15 in
  let code :=
    N.lor (N.lor (N.shiftl (N.land (at_ offset) 127) 24)
                 (N.shiftl (N.land (at_ (offset + 1)%N) 255) 16))
          (N.lor (N.shiftl (N.land (at_ (offset + 2)%N) 255) 8)
                 (N.land (at_ (offset + 3)%N) 255)) in
  six_digits (code mod 1000000).

Definition generate_otp (secret : str) (input : Z) : M str :=
  if input <? 0 then raise ValueError
  else match byte_secret secret with
       | inl e => raise e
       | inr key => ret (hotp key input)
       end.

Section Pyotp.

(** [unicodedata.normalize("NFKC", s)] *)
Variable nfkc : str -> str.

(** [verify] is called without [for_time] and takes [datetime.datetime.now()],
    the naive local time, which [timecode] turns into seconds by
    [time.mktime(for_time.timetuple())].  A naive local time is kept as the
    clock reading it was made of; [mktime] stands for the two conversions
    together, from the reading (in microseconds) to the seconds the C
    library gives for its local time.  Outside an hour that the local zone
    repeats these are the whole seconds of the reading. *)
Variable mktime : Z -> Z.

(** [datetime.datetime.now()] *)
Definition datetime_now : M Z := utcnow.

(** [TOTP.timecode] of a naive time: [int(time.mktime(...) / 30)]. *)
Definition timecode (for_time : Z) : Z := Z.quot (mktime for_time) 30.

(** [utils.strings_equal] *)
Definition strings_equal (s1 s2 : str) : M bool :=
  b1 <- str_encode (nfkc s1) ;;
  b2 <- str_encode (nfkc s2) ;;
  ret (bool_decide (b1 = b2)).

Definition totp_at (secret : str) (for_time : Z) (counter_offset : Z) : M str :=
  generate_otp secret (timecode for_time + counter_offset).

Fixpoint totp_verify_window (secret otp : str) (for_time : Z) (offsets : list Z)
  : M bool :=
  match offsets with
  | [] => ret false
  | i :: rest =>
      code <- totp_at secret for_time i ;;
      same <- strings_equal otp code ;;
      if same then ret true else totp_verify_window secret otp for_time rest
  end.

(** [range(a, b)] *)
Definition range (a b : Z) : list Z :=
  List.map (fun i => a + Z.of_nat i) (seq 0 (Z.to_nat (b - a))).

Definition totp_verify (secret otp : str) (valid_window : Z) : M bool :=
  for_time <- datetime_now ;;
  if negb (valid_window =? 0)
  then totp_verify_window secret otp for_time (range (- valid_window) (valid_window + 1))
  else code <- totp_at secret for_time 0 ;; strings_equal otp code.

Definition verify_totp (secret code : str) : M bool :=
  totp_verify secret code 1.

End Pyotp.

(** The conversion of a process whose local zone is UTC. *)
Definition utc_mktime (reading : Z) : Z := timegm reading.


(** The seconds [verify_totp] takes for the current time. *)
Definition local_seconds (mktime : Z -> Z) (w : World) : Z :=
  mktime (clock w (reads w)).

(** ** Base64 ([base64.urlsafe_b64encode], [base64.urlsafe_b64decode])

    The encoder pads with [=].  The decoder is the lenient one of
    [binascii.a2b_base64]: it skips every byte outside the alphabet, stops
    at a complete pad sequence and drops the bits left over in the last
    character. *)

Definition b64_char (sextet : N) : Byte.byte :=
  byte_of_N (if sextet <? 26 then 65 + sextet
             else if sextet <? 52 then 71 + sextet
             else if sextet <? 62 then sextet - 4
             else if sextet =? 62 then 45      (* - *)
             else 95)%N.                       (* _ *)

Definition b64_pad : Byte.byte := byte_of_N 61.

Fixpoint urlsafe_b64encode (bs : bytes) : bytes :=
  match bs with
  | [] => []
  | [b0] =>
      let n0 := Byte.to_N b0 in
      [b64_char (n0 / 4); b64_char (n0 mod 4 * 16); b64_pad; b64_pad]%N
  | [b0; b1] =>
      let n0 := Byte.to_N b0 in
      let n1 := Byte.to_N b1 in
      [b64_char (n0 / 4); b64_char (n0 mod 4 * 16 + n1 / 16);
       b64_char (n1 mod 16 * 4); b64_pad]%N
  | b0 :: b1 :: b2 :: rest =>
      let n0 := Byte.to_N b0 in
      let n1 := Byte.to_N b1 in
      let n2 := Byte.to_N b2 in
      [b64_char (n0 / 4); b64_char (n0 mod 4 * 16 + n1 / 16);
       b64_char (n1 mod 16 * 4 + n2 / 64); b64_char (n2 mod 64)]%N
      ++ urlsafe_b64encode rest
  end.

(** The value of an alphabet character; [-] and [+] both stand for 62, [_]
    and [/] for 63. *)
Definition b64_value (b : Byte.byte) : option N :=
  let c := Byte.to_N b in
  (if (65 <=? c) && (c <=? 90) then Some (c - 65)
   else if (97 <=? c) && (c <=? 122) then Some (c - 71)
   else if (48 <=? c) && (c <=? 57) then Some (c + 4)
   else if (c =? 45) || (c =? 43) then Some 62
   else if (c =? 95) || (c =? 47) then Some 63
   else None)%N.

Record b64_state := mkB64 {
  quad_pos : N;          (* characters of the current group seen *)
  leftchar : N;          (* bits not yet output *)
  pads : N;              (* consecutive pad characters *)
  out_rev : bytes;       (* output, last byte first *)
  finished : bool        (* a complete pad sequence was met *)
}.

Definition b64_step (st : b64_state) (b : Byte.byte) : b64_state :=
  if finished st then st
  else if (Byte.to_N b =? 61)%N then
    if (2 <=? quad_pos st)%N && (4 <=? quad_pos st + (pads st + 1))%N
    then mkB64 (quad_pos st) (leftchar st) (pads st + 1) (out_rev st) true
    else if (2 <=? quad_pos st)%N
         then mkB64 (quad_pos st) (leftchar st) (pads st + 1) (out_rev st) false
         else st
  else
    match b64_value b with
    | None => st
    | Some v =>
        (if quad_pos st =? 0 then mkB64 1 v 0 (out_rev st) false
         else if quad_pos st =? 1 then
           mkB64 2 (v mod 16) 0 (byte_of_N (leftchar st * 4 + v / 16) :: out_rev st) false
         else if quad_pos st =? 2 then
           mkB64 3 (v mod 4) 0 (byte_of_N (leftchar st * 16 + v / 4) :: out_rev st) false
         else
           mkB64 0 0 0 (byte_of_N (leftchar st * 64 + v) :: out_rev st) false)%N
    end.

(** [None] where [binascii.Error] is raised. *)
Definition urlsafe_b64decode (s : bytes) : option bytes :=
  let st := fold_left b64_step s (mkB64 0 0 0 [] false) in
  if finished st || (quad_pos st =? 0)%N then Some (rev (out_rev st)) else None.

(** ** PKCS7 padding to sixteen-byte blocks *)

Definition pkcs7_pad (data : bytes) : bytes :=
  let n := (16 - List.length data mod 16)%nat in
  data ++ repeat (byte_of_N (N.of_nat n)) n.

(** [None] where the unpadder raises [ValueError]: the data is empty or not
    whole blocks, or the last byte does not count a run of equal bytes. *)
Definition pkcs7_unpad (data : bytes) : option bytes :=
  let len := List.length data in
  if (len =? 0)%nat || negb (len mod 16 =? 0)%nat then None
  else
    let n := N.to_nat (Byte.to_N (List.last data Byte.x00)) in
    if (n =? 0)%nat || (16 <? n)%nat then None
    else if forallb (fun b => bool_decide (b = List.last data Byte.x00))
              (skipn (len - n) data)
         then Some (firstn (len - n) data)
         else None.

(** ** Fernet

    A token is the base64 text of
    [0x80 || timestamp (8) || iv (16) || ciphertext || hmac (32)].
    AES-128 in CBC mode and HMAC-SHA256 are parameters; the two halves of
    the process-wide key are fixed when the module is loaded. *)

Section Fernet.

Variable aes_cbc_encrypt : bytes -> bytes -> bytes -> bytes.   (* key, iv, data *)
Variable aes_cbc_decrypt : bytes -> bytes -> bytes -> bytes.
Variable hmac_sha256 : bytes -> bytes -> bytes.                (* key, message *)
Variables signing_key encryption_key : bytes.

(** [int(time.time())] *)
Definition time_time : M Z :=
  now <- utcnow ;; ret (Z.quot now 1000000).

(** [n.to_bytes(length=8, byteorder="big")] *)
Definition to_bytes8 (n : Z) : M bytes :=
  if (n <? 0) || (18446744073709551616 <=? n) then raise OverflowError
  else ret (be_bytes 8 (Z.to_N n)).

(** [os.urandom(16)] *)
Definition urandom (n : nat) : M bytes := token_bytes n.

(** The token text for given timestamp bytes and initialisation vector. *)
Definition fernet_token (timestamp iv data : bytes) : bytes :=
  let basic_parts :=
    [byte_of_N 128] ++ timestamp ++ iv
      ++ aes_cbc_encrypt encryption_key iv (pkcs7_pad data) in
  urlsafe_b64encode (basic_parts ++ hmac_sha256 signing_key basic_parts).

(** [Fernet._encrypt_from_parts] *)
Definition encrypt_from_parts (data : bytes) (current_time : Z) (iv : bytes)
  : M bytes :=
  timestamp <- to_bytes8 current_time ;;
  ret (fernet_token timestamp iv data).

(** [Fernet.encrypt] *)
Definition fernet_encrypt (data : bytes) : M bytes :=
  current_time <- time_time ;;
  iv <- urandom 16 ;;
  encrypt_from_parts data current_time iv.

(** [data[:-32]] and [data[-32:]] *)
Definition signed_part (data : bytes) : bytes := firstn (List.length data - 32) data.
Definition tag_part (data : bytes) : bytes := skipn (List.length data - 32) data.

(** [Fernet.decrypt], without a time-to-live *)
Definition fernet_decrypt (token : bytes) : M bytes :=
  match urlsafe_b64decode token with
  | None => raise InvalidToken
  | Some data =>
      if match data with
         | [] => true
         | b :: _ => negb (Byte.to_N b =? 128)%N
         end
      then raise InvalidToken
      else if (List.length data <? 9)%nat then raise InvalidToken
      else if negb (bool_decide (hmac_sha256 signing_key (signed_part data) = tag_part data))
      then raise InvalidToken
      else
        let iv := firstn 16 (skipn 9 data) in
        let ciphertext := firstn (List.length data - 32 - 25) (skipn 25 data) in
        if negb (List.length iv =? 16)%nat then raise ValueError
        else if negb (List.length ciphertext mod 16 =? 0)%nat then raise InvalidToken
        else match pkcs7_unpad (aes_cbc_decrypt encryption_key iv ciphertext) with
             | Some plaintext => ret plaintext
             | None => raise InvalidToken
             end
  end.

(** ** Field encryption *)

Definition encrypt_field (value : str) : M str :=
  plain <- str_encode value ;;
  token <- fernet_encrypt plain ;;
  bytes_decode token.

Definition decrypt_field (encrypted_value : str) : M str :=
  token <- str_encode encrypted_value ;;
  plain <- fernet_decrypt token ;;
  bytes_decode plain.

End Fernet.

(** Stand-ins for the worked examples: a cipher that shifts every byte by
    the sum of the key and the initialisation vector, and a 32-byte
    positional checksum. *)
Definition byte_sum (l : bytes) : N :=
  fold_left (fun acc b => (acc + Byte.to_N b) mod 256)%N l 0%N.

Definition sample_cbc_encrypt (key iv data : bytes) : bytes :=
  List.map (fun b => byte_of_N ((Byte.to_N b + byte_sum (key ++ iv)) mod 256)%N) data.

Definition sample_cbc_decrypt (key iv data : bytes) : bytes :=
  List.map (fun b => byte_of_N ((Byte.to_N b + 256 - byte_sum (key ++ iv)) mod 256)%N)
           data.

Definition sample_hmac256 (key msg : bytes) : bytes :=
  be_bytes 32
    (fold_left (fun acc b => (acc * 257 + Byte.to_N b + 1) mod 2 ^ 256)%N
       (key ++ msg) 7%N).

Definition sample_signing_key : bytes :=
  List.map (fun i => byte_of_N (N.of_nat i)) (seq 1 16).
Definition sample_encryption_key : bytes :=
  List.map (fun i => byte_of_N (N.of_nat i)) (seq 101 16).

(** Bytes below 128. *)
Definition ascii_bytes (bs : bytes) : Prop :=
  Forall (fun b => (Byte.to_N b < 128)%N) bs.

(** The clock reads a time that fits the eight-byte timestamp. *)
Definition timestamp_fits (w : World) : Prop :=
  0 <= Z.quot (clock w (reads w)) 1000000 < 18446744073709551616.

(** The blob the stand-ins make of ["hello"] in [sample_world []], and the
    same text with its last character before the padding changed from [g]
    to [h]. *)
Definition sample_blob : str :=
  py "gAAAAABlU_EAq9D1Gj9kia7T-B1CZ4yx1jg1PDw_29vb29vb29vb29uq5O0LyHgY6ctIEclRMbsQ_nnzCfz05krtTHpby4-bhg==".

Definition tampered_blob : str := <[97%nat := 104%N]> sample_blob.

(** The same text with a character of the ciphertext changed. *)
Definition damaged_blob : str := <[60%nat := 65%N]> sample_blob.

(** ** SHA-256 (hashlib)

    The padding is that of SHA-1: both hash 64-byte blocks and close the
    message with its length in bits. *)

Definition rotr (k n : N) : N :=
  w32 (N.lor (N.shiftr n k) (N.shiftl n (32 - k))).

Definition sha256_K : list N :=
  [1116352408; 1899447441; 3049323471; 3921009573; 961987163; 1508970993;
   2453635748; 2870763221; 3624381080; 310598401; 607225278; 1426881987;
   1925078388; 2162078206; 2614888103; 3248222580; 3835390401; 4022224774;
   264347078; 604807628; 770255983; 1249150122; 1555081692; 1996064986;
   2554220882; 2821834349; 2952996808; 3210313671; 3336571891; 3584528711;
   113926993; 338241895; 666307205; 773529912; 1294757372; 1396182291;
   1695183700; 1986661051; 2177026350; 2456956037; 2730485921; 2820302411;
   3259730800; 3345764771; 3516065817; 3600352804; 4094571909; 275423344;
   430227734; 506948616; 659060556; 883997877; 958139571; 1322822218;
   1537002063; 1747873779; 1955562222; 2024104815; 2227730452; 2361852424;
   2428436474; 2756734187; 3204031479; 3329325298]%N.

(** The message schedule: 64 words from the 16 of a block, newest first. *)
Fixpoint sha256_schedule (n : nat) (rev_ws : list N) : list N :=
  match n with
  | O => rev_ws
  | S n' =>
      let w2 := nth 1 rev_ws 0%N in
      let w15 := nth 14 rev_ws 0%N in
      let s0 := N.lxor (N.lxor (rotr 7 w15) (rotr 18 w15)) (N.shiftr w15 3) in
      let s1 := N.lxor (N.lxor (rotr 17 w2) (rotr 19 w2)) (N.shiftr w2 10) in
      sha256_schedule n'
        (w32 (s1 + nth 6 rev_ws 0 + s0 + nth 15 rev_ws 0)%N :: rev_ws)
  end.

Definition sha256_state : Type := N * N * N * N * N * N * N * N.

Definition sha256_round (s : sha256_state) (kw : N * N) : sha256_state :=
  let '(a, b, c, d, e, f, g, h) := s in
  let S1 := N.lxor (N.lxor (rotr 6 e) (rotr 11 e)) (rotr 25 e) in
  let ch := N.lxor (N.land e f) (N.land (N.lxor e 4294967295) g) in
  let t1 := (h + S1 + ch + fst kw + snd kw)%N in
  let S0 := N.lxor (N.lxor (rotr 2 a) (rotr 13 a)) (rotr 22 a) in
  let maj := N.lxor (N.lxor (N.land a b) (N.land a c)) (N.land b c) in
  let t2 := (S0 + maj)%N in
  (w32 (t1 + t2), a, b, c, w32 (d + t1), e, f, g).

Definition sha256_block (s : sha256_state) (block : bytes) : sha256_state :=
  let ws := List.map (fun word => be_value word 0%N) (chunks 16 4 block) in
  let schedule := rev (sha256_schedule 48 (rev ws)) in
  let '(h0, h1, h2, h3, h4, h5, h6, h7) := s in
  let '(a, b, c, d, e, f, g, h) :=
    fold_left sha256_round (combine sha256_K schedule) s in
  (w32 (h0 + a), w32 (h1 + b), w32 (h2 + c), w32 (h3 + d),
   w32 (h4 + e), w32 (h5 + f), w32 (h6 + g), w32 (h7 + h))%N.

Definition sha256_init : sha256_state :=
  (1779033703, 3144134277, 1013904242, 2773480762,
   1359893119, 2600822924, 528734635, 1541459225)%N.

(** [hashlib.sha256(msg).digest()] *)
Definition sha256 (msg : bytes) : bytes :=
  let padded := sha1_pad msg in
  let '(h0, h1, h2, h3, h4, h5, h6, h7) :=
    fold_left sha256_block (chunks (List.length padded) 64 padded) sha256_init in
  be_bytes 4 h0 ++ be_bytes 4 h1 ++ be_bytes 4 h2 ++ be_bytes 4 h3
    ++ be_bytes 4 h4 ++ be_bytes 4 h5 ++ be_bytes 4 h6 ++ be_bytes 4 h7.

(** ** Token hashing

    [hexdigest] writes the digest as [hexlify] does. *)

Definition hash_token (token : str) : M str :=
  bs <- str_encode token ;;
  ret (hexlify (sha256 bs)).

(** ** Random tokens ([secrets.token_urlsafe]) *)

(** [SystemRandom.randbytes(n)], that is [os.urandom(n)].  The size is
    converted to a C [ssize_t]; a negative size is a [ValueError]; a size
    beyond what the process can allocate, [available], is a
    [MemoryError]. *)
Definition ssize_max : Z := 2 ^ 63 - 1.

Definition randbytes (available : Z) (n : Z) : M bytes :=
  if (n <? - ssize_max - 1) || (ssize_max <? n) then raise OverflowError
  else if n <? 0 then raise ValueError
  else if available <? n then raise MemoryError
  else token_bytes (Z.to_nat n).

Fixpoint lstrip_byte (c : Byte.byte) (bs : bytes) : bytes :=
  match bs with
  | b :: rest => if bool_decide (b = c) then lstrip_byte c rest else bs
  | [] => []
  end.

(** [bs.rstrip(c)] for a single byte [c] *)
Definition rstrip_byte (c : Byte.byte) (bs : bytes) : bytes :=
  rev (lstrip_byte c (rev bs)).

(** [bs.decode('ascii')] *)
Definition ascii_decode (bs : bytes) : M str :=
  if forallb (fun b => Byte.to_N b <? 128)%N bs
  then ret (List.map Byte.to_N bs)
  else raise UnicodeDecodeError.

Definition token_urlsafe (available : Z) (nbytes : Z) : M str :=
  tok <- randbytes available nbytes ;;
  ascii_decode (rstrip_byte b64_pad (urlsafe_b64encode tok)).

(** [length] defaults to 32. *)
Definition generate_secure_token (available : Z) (length : option Z) : M str :=
  token_urlsafe available (default 32 length).

(** The pad characters that close the base64 text of [n] bytes. *)
Definition pad_count (n : nat) : nat := ((3 - n mod 3) mod 3)%nat.

(** The alphabet of a URL-safe token: [A-Za-z0-9_-]. *)
Definition is_urlsafe (c : codepoint) : bool :=
  ((65 <=? c) && (c <=? 90) || (97 <=? c) && (c <=? 122)
   || (48 <=? c) && (c <=? 57) || (c =? 45) || (c =? 95))%N.

(** The digits of a lowercase hexadecimal number: [0-9a-f]. *)
Definition is_lower_hex (c : codepoint) : bool :=
  ((48 <=? c) && (c <=? 57) || (97 <=? c) && (c <=? 102))%N.

(** ** URL quoting ([urllib.parse]) *)

Definition always_safe (c : N) : bool :=
  ((65 <=? c) && (c <=? 90) || (97 <=? c) && (c <=? 122)
   || (48 <=? c) && (c <=? 57))%N
  || char_in c (py "_.-~").

Definition hex_digit_upper (n : N) : codepoint :=
  (if n <? 10 then 48 + n else 55 + n)%N.

(** What the quoter makes of a byte: the character itself when it is safe,
    [%XX] otherwise. *)
Definition quote_byte (safe : str) (b : Byte.byte) : str :=
  let n := Byte.to_N b in
  if always_safe n || char_in n safe then [n]
  else [37; hex_digit_upper (n / 16); hex_digit_upper (n mod 16)]%N.

Definition quote_from_bytes (bs : bytes) (safe : str) : str :=
  flat_map (quote_byte safe) bs.

(** [quote(s, safe)]; the empty string is returned as it is. *)
Definition quote (s safe : str) : M str :=
  match s with
  | [] => ret []
  | _ => bs <- str_encode s ;; ret (quote_from_bytes bs safe)
  end.

(** [s.replace(old, new)] for a one-character [old] *)
Definition replace_char (old : codepoint) (new s : str) : str :=
  flat_map (fun c => if (c =? old)%N then new else [c]) s.

(** [quote_plus(s)], with no safe characters *)
Definition quote_plus (s : str) : M str :=
  if negb (char_in 32%N s) then quote s []
  else q <- quote s [32%N] ;; ret (replace_char 32%N [43%N] q).

Fixpoint urlencode_items (query : list (str * str)) : M (list str) :=
  match query with
  | [] => ret []
  | (k, v) :: rest =>
      k' <- quote_plus k ;;
      v' <- quote_plus v ;;
      more <- urlencode_items rest ;;
      ret ((k' ++ [61%N] ++ v') :: more)
  end.

(** [sep.join(l)] *)
Fixpoint join (sep : str) (l : list str) : str :=
  match l with
  | [] => []
  | [s] => s
  | s :: rest => s ++ sep ++ join sep rest
  end.

(** [urlencode(query)] of a dictionary of strings *)
Definition urlencode (query : list (str * str)) : M str :=
  l <- urlencode_items query ;; ret (join [38%N] l).

(** ** pyotp: the provisioning URI

    [TOTP(secret)] keeps the secret as it is given; with the defaults (six
    digits, SHA-1, thirty seconds) [utils.build_uri] writes the label and
    the arguments [secret] and [issuer].  As in pyotp 2.9, an empty name is
    replaced by the object's own, ["Secret"], and an empty issuer is no
    issuer. *)

Definition build_uri (secret name : str) (issuer : option str) : M str :=
  label <- quote name (py "/") ;;
  labelled <-
    match issuer with
    | Some i =>
        qi <- quote i (py "/") ;;
        ret (qi ++ py ":" ++ label, [(py "secret", secret); (py "issuer", i)])
    | None => ret (label, [(py "secret", secret)])
    end ;;
  args <- urlencode (snd labelled) ;;
  ret (py "otpauth://" ++ py "totp" ++ py "/" ++ fst labelled ++ py "?"
         ++ replace_char 43%N (py "%20") args).

Definition provisioning_uri (secret name issuer_name : str) : M str :=
  build_uri secret
    (match name with [] => py "Secret" | _ => name end)
    (match issuer_name with [] => None | _ => Some issuer_name end).

(** [issuer] defaults to the application's name. *)
Definition generate_totp_uri (secret email : str) (issuer : option str) : M str :=
  provisioning_uri secret email (default (py "Smart Strategies Builder") issuer).

(** The characters of a URI written by [build_uri]: unreserved ones,
    [%]-escapes and the delimiters [: / ? = &]. *)
Definition is_uri_char (c : codepoint) : bool :=
  always_safe c || char_in c (py "%:/?=&").

(** ** pyotp: [random_base32]

    From pyotp 2.4 on a secret has 32 characters by default and a shorter
    length is refused.  The characters are chosen by [SystemRandom.choice]:
    [_randbelow(32)] asks [getrandbits] for six random bits, the high bits
    of one byte of the system generator, until they make a number below
    32.  That loop has no bound of its own; here [fuel] bounds it, and
    [None] stands for a run that has not ended within the bound. *)

(** [SystemRandom.getrandbits(k)] *)
Definition getrandbits (k : N) : M N :=
  let numbytes := ((k + 7) / 8)%N in
  bs <- token_bytes (N.to_nat numbytes) ;;
  ret (N.shiftr (be_value bs 0%N) (numbytes * 8 - k)).

(** [Random._randbelow_with_getrandbits(n)] *)
Fixpoint randbelow (fuel : nat) (n : N) : M (option N) :=
  match fuel with
  | O => ret None
  | S fuel' =>
      r <- getrandbits (N.size n) ;;
      if (r <? n)%N then ret (Some r) else randbelow fuel' n
  end.

Definition base32_alphabet : str := py "ABCDEFGHIJKLMNOPQRSTUVWXYZ234567".

(** [random.choice(chars)] for the alphabet, which is not empty. *)
Definition choice (fuel : nat) : M (option codepoint) :=
  r <- randbelow fuel (N.of_nat (List.length base32_alphabet)) ;;
  ret (option_map (fun i => nth (N.to_nat i) base32_alphabet 0%N) r).

(** The characters [random.choice(chars) for _ in range(length)], joined. *)
Fixpoint random_chars (fuel length : nat) : M (option str) :=
  match length with
  | O => ret (Some [])
  | S length' =>
      c <- choice fuel ;;
      match c with
      | None => ret None
      | Some c =>
          rest <- random_chars fuel length' ;;
          ret (option_map (cons c) rest)
      end
  end.

Definition random_base32 (fuel : nat) (length : Z) : M (option str) :=
  if length <? 32 then raise ValueError
  else random_chars fuel (Z.to_nat length).

Definition generate_totp_secret (fuel : nat) : M (option str) :=
  random_base32 fuel 32.

Definition is_base32_char (c : codepoint) : bool := char_in c base32_alphabet.

(** ** Password hashing: [CryptContext.hash]

    The Argon2 handler checks the size of the secret, encodes it, makes a
    salt of 128 random bits and writes the hash string.  The digest and
    the way the salt is cut from the random bits are parameters. *)

Section PasslibHash.

(** [hash_secret salt secret]: the hash string *)
Variable argon2_hash_secret : bytes -> bytes -> str.
(** The salt passlib makes of the sixteen bytes behind [getrandbits(128)]. *)
Variable salt_of_random : bytes -> bytes.

Definition pwd_context_hash (secret : str) : M str :=
  (if MAX_PASSWORD_SIZE <? len secret then raise PasswordSizeError else ret tt) ;;;
  secret_bytes <- str_encode secret ;;
  random <- token_bytes 16 ;;
  ret (argon2_hash_secret (salt_of_random random) secret_bytes).

Definition hash_password (password : str) : M str :=
  pwd_context_hash password.

End PasslibHash.

(** Stand-ins for the worked example: the hash string ends with the
    secret, in hexadecimal digits. *)
Definition sample_argon2 (salt secret : bytes) : str :=
  py "$argon2id$" ++ hexlify salt ++ py "$" ++ hexlify secret.

Definition sample_argon2_matches (h : str) (secret : bytes) : bool :=
  str_eqb (skipn (List.length h - 2 * List.length secret) h) (hexlify secret).

(** ** Vocabulary of the further statements *)

(** *** The entropy a computation consumes *)

(** The next [n] bytes the system generator yields. *)
Definition drawn_bytes (n : nat) (w : World) : bytes :=
  List.map (fun i => entropy w (drawn w + i)%nat) (seq 0 n).

(** The world after [n] more bytes were drawn. *)
Definition after_draw (n : nat) (w : World) : World :=
  mkWorld (heap w) (clock w) (reads w) (entropy w) (drawn w + n)%nat.

(** The four bytes drawn for the [i]-th backup code. *)
Definition code_bytes (i : nat) (w : World) : bytes :=
  drawn_bytes 4 (after_draw (4 * i) w).

(** The value of an uppercase hexadecimal digit. *)
Definition unhex (c : codepoint) : N :=
  (if c <? 58 then c - 48 else c - 55)%N.

(** *** Outcomes *)


(** A computation leaves the world as it is, whatever its outcome. *)
Definition pure {A} (c : M A) : Prop := forall w, snd (c w) = w.

(** The characters of an encoded query before its [+] are replaced. *)
Definition is_query_char (c : codepoint) : bool :=
  is_uri_char c || (c =? 43)%N.

(** ** python-jose: [jwt.encode] and [jwt.decode]

    A token is a text of three segments joined by dots: the base64url
    text of the JSON header, of the JSON payload, and of the signature
    over the first two.  Serialisation, parsing and the claim checks
    follow [jose.jws] and [jose.jwt].  What stays a parameter is the work
    of other code: the JSON codec, [int()] on a string, and the key
    objects of [jose.jwk], which decide what text is a usable key and
    compute and compare the signatures. *)

Record Primitives := mkPrimitives {
  (** [json.dumps(v, separators=(",", ":"), sort_keys=...).encode("utf-8")],
      or the exception [json.dumps] raises *)
  json_dumps : bool -> value -> exn + bytes;
  (** [json.loads(data.decode("utf-8"))], or the exception raised *)
  json_loads : bytes -> exn + value;
  (** [int(s)] on a string: [None] where Python raises [ValueError] *)
  int_of_str : str -> option Z;
  (** [algorithm in ALGORITHMS.SUPPORTED] *)
  algorithm_supported : str -> bool;
  (** [jwk.construct(key, algorithm).sign(signing_input)]: [None] where the
      key is refused or signing fails *)
  key_sign : str -> str -> bytes -> option bytes;
  (** The signature check of [jws._verify_signature] under the keys that the
      key text stands for: [None] when a key accepts the signature, or the
      exception that leaves the check.  Arguments: algorithm, key, signing
      input, signature. *)
  key_check : str -> str -> bytes -> bytes -> option exn
}.

(** [bool(v)] *)
Definition truthy_value (v : value) : bool :=
  match v with
  | VNone => false
  | VBool b => b
  | VInt z => negb (z =? 0)
  | VFloat (Finite m _) => negb (m =? 0)
  | VFloat _ => true
  | VStr s => match s with [] => false | _ => true end
  | VDatetime _ => true
  | VList items => match items with [] => false | _ => true end
  | VDict items => match items with [] => false | _ => true end
  end.

Definition is_str (s : str) (v : value) : bool :=
  match v with VStr s' => str_eqb s' s | _ => false end.

Definition is_VStr (v : value) : bool :=
  match v with VStr _ => true | _ => false end.

Definition member (s : str) (l : list str) : bool := existsb (str_eqb s) l.

(** A result turned into a computation. *)
Definition lift {A} (r : exn + A) : M A :=
  match r with
  | inl e => raise e
  | inr a => ret a
  end.

(** *** [jose.utils] *)

(** [base64.urlsafe_b64encode(input)] with every [=] taken out *)
Definition base64url_encode (input : bytes) : bytes :=
  List.filter (fun b => negb (bool_decide (b = b64_pad))) (urlsafe_b64encode input).

(** The input is padded to a multiple of four and decoded; [None] where
    [binascii.Error] is raised. *)
Definition base64url_decode (input : bytes) : option bytes :=
  let rem := (List.length input mod 4)%nat in
  urlsafe_b64decode
    (if (0 <? rem)%nat then input ++ repeat b64_pad (4 - rem) else input).

(** *** Splitting at a dot *)

Definition dot : Byte.byte := byte_of_N 46.

(** [bs.split(sep, 1)]: the text before the first [sep] and the text after
    it; [None] when [sep] does not occur, where unpacking into two names
    raises [ValueError]. *)
Fixpoint split1 (sep : Byte.byte) (bs : bytes) : option (bytes * bytes) :=
  match bs with
  | [] => None
  | b :: rest =>
      if bool_decide (b = sep) then Some ([], rest)
      else match split1 sep rest with
           | Some (before, after) => Some (b :: before, after)
           | None => None
           end
  end.

(** [bs.rsplit(sep, 1)]: the cut is at the last [sep]. *)
Definition rsplit1 (sep : Byte.byte) (bs : bytes) : option (bytes * bytes) :=
  match split1 sep (rev bs) with
  | Some (after, before) => Some (rev before, rev after)
  | None => None
  end.

Section Jose.

Variable lib : Primitives.

(** *** [jws.sign] *)

Definition jose_header (algorithm : str) : dict :=
  [(py "typ", VStr (py "JWT")); (py "alg", VStr algorithm)].

(** The header is written with sorted keys. *)
Definition encode_header (algorithm : str) : exn + bytes :=
  match json_dumps lib true (VDict (jose_header algorithm)) with
  | inl e => inl e
  | inr json_header => inr (base64url_encode json_header)
  end.

(** A [ValueError] of [json.dumps] is passed over; the payload, still a
    dictionary, then fails in the base64 encoder with a [TypeError]. *)
Definition encode_payload (payload : dict) : exn + bytes :=
  match json_dumps lib false (VDict payload) with
  | inl e => inl (if is_value_error e then TypeError else e)
  | inr json_payload => inr (base64url_encode json_payload)
  end.

(** Every exception of the key is reported as a [JWSError]. *)
Definition sign_header_and_claims (encoded_header encoded_claims : bytes)
    (algorithm key : str) : exn + str :=
  let signing_input := encoded_header ++ [dot] ++ encoded_claims in
  match key_sign lib algorithm key signing_input with
  | None => inl JWSError
  | Some signature =>
      match utf8_decode (signing_input ++ [dot] ++ base64url_encode signature) with
      | Some text => inr text
      | None => inl UnicodeDecodeError
      end
  end.

Definition jws_sign (claims : loc) (key algorithm : str) : M str :=
  if negb (algorithm_supported lib algorithm) then raise JWSError
  else
    encoded_header <- lift (encode_header algorithm) ;;
    payload <- deref claims ;;
    encoded_payload <- lift (encode_payload payload) ;;
    lift (sign_header_and_claims encoded_header encoded_payload algorithm key).

(** *** [jwt.encode] *)

Definition convert_time_claim (claims : loc) (name : str) : M unit :=
  d <- deref claims ;;
  match dict_get d name with
  | Some (VDatetime t) => assign claims (dict_set d name (VInt (timegm t)))
  | _ => ret tt
  end.

Definition jwt_encode (claims : loc) (key algorithm : str) : M str :=
  convert_time_claim claims (py "exp") ;;;
  convert_time_claim claims (py "iat") ;;;
  convert_time_claim claims (py "nbf") ;;;
  jws_sign claims key algorithm.

(** *** [jws.verify] *)

(** [jws._load]: the header, the payload bytes, the signing input and the
    signature of a token text.  The text is encoded before anything is
    caught; a [ValueError] of the JSON parser is a [JWSError], any other
    exception of the parser escapes. *)
Definition load (jwt : str) : exn + (dict * bytes * bytes * bytes) :=
  match utf8_encode jwt with
  | None => inl UnicodeEncodeError
  | Some jwt =>
      match rsplit1 dot jwt with
      | None => inl JWSError
      | Some (signing_input, crypto_segment) =>
          match split1 dot signing_input with
          | None => inl JWSError
          | Some (header_segment, claims_segment) =>
              match base64url_decode header_segment with
              | None => inl JWSError
              | Some header_data =>
                  match json_loads lib header_data with
                  | inl e => inl (if is_value_error e then JWSError else e)
                  | inr (VDict header) =>
                      match base64url_decode claims_segment with
                      | None => inl JWSError
                      | Some payload =>
                          match base64url_decode crypto_segment with
                          | None => inl JWSError
                          | Some signature =>
                              inr (header, payload, signing_input, signature)
                          end
                      end
                  | inr _ => inl JWSError
                  end
              end
          end
      end
  end.

(** [jws._verify_signature]: the header must name an algorithm, and one of
    the list; then the keys decide. *)
Definition verify_signature (signing_input : bytes) (header : dict)
    (signature : bytes) (key : str) (algorithms : list str) : exn + unit :=
  match dict_get header (py "alg") with
  | None => inl JWSError
  | Some alg =>
      if negb (truthy_value alg) then inl JWSError
      else match alg with
           | VStr alg =>
               if negb (member alg algorithms) then inl JWSError
               else match key_check lib alg key signing_input signature with
                    | Some e => inl e
                    | None => inr tt
                    end
           | _ => inl JWSError
           end
  end.

Definition jws_verify (token key : str) (algorithms : list str) : exn + bytes :=
  match load token with
  | inl e => inl e
  | inr (header, payload, signing_input, signature) =>
      match verify_signature signing_input header signature key algorithms with
      | inl e => inl e
      | inr _ => inr payload
      end
  end.

(** *** The claim checks of [jwt.decode] *)

(** [int(f)] for a float *)
Definition float_to_int (f : pyfloat) : exn + Z :=
  match f with
  | Finite m e => inr (if 0 <=? e then m * 2 ^ e else Z.quot m (2 ^ (- e)))
  | Infinity _ => inl OverflowError
  | NaN => inl ValueError
  end.

(** [int(v)] *)
Definition py_int (v : value) : M Z :=
  match v with
  | VInt z => ret z
  | VBool b => ret (if b then 1 else 0)
  | VFloat f => lift (float_to_int f)
  | VStr s => match int_of_str lib s with
              | Some z => ret z
              | None => raise ValueError
              end
  | _ => raise TypeError
  end.

Definition is_ValueError (e : exn) : bool := bool_decide (e = ValueError).

Definition validate_iat (claims : dict) : M unit :=
  match dict_get claims (py "iat") with
  | None => ret tt
  | Some v => reraise is_ValueError JWTClaimsError (py_int v) ;;; ret tt
  end.

Definition validate_nbf (claims : dict) (leeway : Z) : M unit :=
  match dict_get claims (py "nbf") with
  | None => ret tt
  | Some v =>
      nbf <- reraise is_ValueError JWTClaimsError (py_int v) ;;
      now <- utcnow ;;
      if nbf >? timegm now + leeway then raise JWTClaimsError else ret tt
  end.

Definition validate_exp (claims : dict) (leeway : Z) : M unit :=
  match dict_get claims (py "exp") with
  | None => ret tt
  | Some v =>
      exp <- reraise is_ValueError JWTClaimsError (py_int v) ;;
      now <- utcnow ;;
      if exp <? timegm now - leeway then raise ExpiredSignatureError else ret tt
  end.

Definition validate_aud (claims : dict) (audience : option str) : M unit :=
  match dict_get claims (py "aud") with
  | None => ret tt
  | Some v =>
      let check (auds : list value) : M unit :=
        if negb (forallb is_VStr auds) then raise JWTClaimsError
        else match audience with
             | Some a => if existsb (is_str a) auds
                         then ret tt else raise JWTClaimsError
             | None => raise JWTClaimsError
             end in
      match v with
      | VStr s => check [VStr s]
      | VList items => check items
      | _ => raise JWTClaimsError
      end
  end.

Definition validate_iss (claims : dict) (issuer : option str) : M unit :=
  match issuer with
  | None => ret tt
  | Some i =>
      match dict_get claims (py "iss") with
      | Some v => if is_str i v then ret tt else raise JWTClaimsError
      | None => raise JWTClaimsError
      end
  end.

Definition validate_sub (claims : dict) (subject : option str) : M unit :=
  match dict_get claims (py "sub") with
  | None => ret tt
  | Some (VStr s) =>
      match subject with
      | Some s' => if str_eqb s s' then ret tt else raise JWTClaimsError
      | None => ret tt
      end
  | Some _ => raise JWTClaimsError
  end.

Definition validate_jti (claims : dict) : M unit :=
  match dict_get claims (py "jti") with
  | None | Some (VStr _) => ret tt
  | Some _ => raise JWTClaimsError
  end.

Definition validate_at_hash (claims : dict) (access_token : option str) : M unit :=
  match dict_get claims (py "at_hash") with
  | None => ret tt
  | Some _ =>
      match access_token with
      | None => raise JWTClaimsError
      | Some _ => raise JWTClaimsError   (* the hash comparison is not modelled *)
      end
  end.

Definition validate_claims (claims : dict) : M unit :=
  validate_iat claims ;;;
  validate_nbf claims 0 ;;;
  validate_exp claims 0 ;;;
  validate_aud claims None ;;;
  validate_iss claims None ;;;
  validate_sub claims None ;;;
  validate_jti claims ;;;
  validate_at_hash claims None.

(** *** [jwt.decode] *)

Definition is_JWSError (e : exn) : bool := bool_decide (e = JWSError).

(** The payload of a verified token, parsed: a [ValueError] of the parser
    and a payload that is no object are a [JWTError]. *)
Definition loads_claims (payload : bytes) : exn + dict :=
  match json_loads lib payload with
  | inl e => inl (if is_value_error e then JWTError else e)
  | inr (VDict claims) => inr claims
  | inr _ => inl JWTError
  end.

Definition jwt_decode (token key : str) (algorithms : list str) : M dict :=
  payload <- reraise is_JWSError JWTError (lift (jws_verify token key algorithms)) ;;
  claims <- lift (loads_claims payload) ;;
  validate_claims claims ;;;
  ret claims.

End Jose.

(** ** JWT tokens *)

Section Tokens.

Variable lib : Primitives.
Variable settings : Settings.

Definition create_access_token (data : loc) (expires_delta : option Z) : M str :=
  to_encode <- dict_copy data ;;
  expire <- (if truthy expires_delta
             then now <- utcnow ;; datetime_add now (default 0 expires_delta)
             else now <- utcnow ;;
                  datetime_add now
                    (timedelta_minutes (ACCESS_TOKEN_EXPIRE_MINUTES settings))) ;;
  iat <- utcnow ;;
  dict_update_at to_encode
    [(py "exp", VDatetime expire);
     (py "iat", VDatetime iat);
     (py "type", VStr (py "access"))] ;;;
  jwt_encode lib to_encode (JWT_SECRET_KEY settings) (JWT_ALGORITHM settings).

Definition create_refresh_token (data : loc) : M str :=
  to_encode <- dict_copy data ;;
  now <- utcnow ;;
  expire <- datetime_add now
              (timedelta_days (REFRESH_TOKEN_EXPIRE_DAYS settings)) ;;
  iat <- utcnow ;;
  dict_update_at to_encode
    [(py "exp", VDatetime expire);
     (py "iat", VDatetime iat);
     (py "type", VStr (py "refresh"))] ;;;
  jwt_encode lib to_encode (JWT_SECRET_KEY settings) (JWT_ALGORITHM settings).

Definition decode_token (token : str) : M dict :=
  jwt_decode lib token (JWT_SECRET_KEY settings) [JWT_ALGORITHM settings].

End Tokens.

(** ** Vocabulary of the token statements *)

(** The three segments of a token, joined. *)
Definition jws_compact (json_header json_payload signature : bytes) : bytes :=
  base64url_encode json_header ++ [dot] ++ base64url_encode json_payload
    ++ [dot] ++ base64url_encode signature.

Definition jws_text (json_header json_payload signature : bytes) : str :=
  List.map Byte.to_N (jws_compact json_header json_payload signature).

(** The token carries the payload [p]: its second segment is the base64url
    text of the JSON text of [p]. *)
Definition carries (lib : Primitives) (token : str) (p : dict) : Prop :=
  exists json_header json_payload signature,
    json_dumps lib false (VDict p) = inr json_payload
    /\ token = jws_text json_header json_payload signature.

(** The token [jws.sign] builds for the payload [p] under the configured
    key and algorithm, if it builds one. *)
Definition signed (lib : Primitives) (settings : Settings) (p : dict) : option str :=
  match json_dumps lib true (VDict (jose_header (JWT_ALGORITHM settings))),
        json_dumps lib false (VDict p) with
  | inr json_header, inr json_payload =>
      match key_sign lib (JWT_ALGORITHM settings) (JWT_SECRET_KEY settings)
              (base64url_encode json_header ++ [dot] ++ base64url_encode json_payload) with
      | Some signature => Some (jws_text json_header json_payload signature)
      | None => None
      end
  | _, _ => None
  end.

(** The claims a token text holds, read without any check (as
    [jwt.get_unverified_claims] reads them). *)
Definition token_claims (lib : Primitives) (token : str) : option dict :=
  match load lib token with
  | inr (_, payload, _, _) =>
      match loads_claims lib payload with
      | inr claims => Some claims
      | inl _ => None
      end
  | inl _ => None
  end.

(** The value a token text holds under a claim name. *)
Definition token_claim (lib : Primitives) (token name : str) : option value :=
  match token_claims lib token with
  | Some claims => dict_get claims name
  | None => None
  end.

(** The configured key is a shared secret that the library signs and
    verifies with: the algorithm is supported, its header can be written
    and read back, every signing input gets a tag, and the check accepts
    that tag and no other signature.  This is how an HMAC algorithm works
    with an ordinary secret.  It does not hold for a key text that looks
    like a PEM or SSH public key, which the HMAC key refuses, nor in
    general for one that is itself a JSON document (a list, [null], a
    quoted string), which the check parses before it is used. *)
Definition shared_secret (lib : Primitives) (settings : Settings) : Prop :=
  let alg := JWT_ALGORITHM settings in
  let key := JWT_SECRET_KEY settings in
  alg <> []
  /\ algorithm_supported lib alg = true
  /\ (exists json_header header,
        json_dumps lib true (VDict (jose_header alg)) = inr json_header
        /\ json_loads lib json_header = inr (VDict header)
        /\ dict_get header (py "alg") = Some (VStr alg))
  /\ forall signing_input,
       exists tag,
         key_sign lib alg key signing_input = Some tag
         /\ forall signature,
              key_check lib alg key signing_input signature
              = if bool_decide (signature = tag) then None else Some JWSError.

(** The payload can be written as JSON. *)
Definition writable (lib : Primitives) (p : dict) : Prop :=
  exists json_payload, json_dumps lib false (VDict p) = inr json_payload.

(** The payload can be written as JSON, and reading the text gives it
    back.  (Not every payload is read back as it was written: two
    surrogate code points that make a pair, for one, are read as a single
    character.) *)
Definition json_round_trip (lib : Primitives) (p : dict) : Prop :=
  exists json_payload,
    json_dumps lib false (VDict p) = inr json_payload
    /\ json_loads lib json_payload = inr (VDict p).

(** The values [int()] rejects with a [TypeError] among those JSON yields. *)
Definition not_a_number (v : value) : bool :=
  match v with
  | VNone | VList _ | VDict _ => true
  | _ => false
  end.



(** The outcome of [jws.sign] for the payload [p] under the configured key
    and algorithm: the first failure, or the token. *)
Definition sign_outcome (lib : Primitives) (settings : Settings) (p : dict)
  : exn + str :=
  let alg := JWT_ALGORITHM settings in
  if negb (algorithm_supported lib alg) then inl JWSError
  else
    match json_dumps lib true (VDict (jose_header alg)) with
    | inl e => inl e
    | inr json_header =>
        match json_dumps lib false (VDict p) with
        | inl e => inl (if is_value_error e then TypeError else e)
        | inr json_payload =>
            match key_sign lib alg (JWT_SECRET_KEY settings)
                    (base64url_encode json_header ++ [dot]
                       ++ base64url_encode json_payload) with
            | None => inl JWSError
            | Some signature => inr (jws_text json_header json_payload signature)
            end
        end
    end.

(** The outcome of issuing a token of the given type for the claims [c],
    to expire at [expire] and stamped [iat]. *)
Definition issuance_outcome (lib : Primitives) (settings : Settings)
    (c : dict) (expire iat : Z) (type : str) : exn + str :=
  if negb ((datetime_min <=? expire) && (expire <=? datetime_max))
  then inl OverflowError
  else sign_outcome lib settings (issued_payload c expire iat type).

(** ** Stand-ins for the worked examples

    HMAC-SHA256 with the key text as it is, and a JSON codec for [None],
    booleans, integers, strings, lists and dictionaries. *)

(** [hmac.new(key, msg, hashlib.sha256).digest()] *)
Definition hs256 (key msg : bytes) : bytes :=
  let key' := if (64 <? List.length key)%nat then sha256 key else key in
  let block := key' ++ repeat Byte.x00 (64 - List.length key') in
  sha256 (List.map (xor_byte 92) block ++ sha256 (List.map (xor_byte 54) block ++ msg)).

Definition sample_key_sign (alg key : str) (signing_input : bytes) : option bytes :=
  if str_eqb alg (py "HS256")
  then option_map (fun k => hs256 k signing_input) (utf8_encode key)
  else None.

Definition sample_key_check (alg key : str) (signing_input signature : bytes)
  : option exn :=
  match sample_key_sign alg key signing_input with
  | Some tag => if bool_decide (signature = tag) then None else Some JWSError
  | None => Some JWSError
  end.

(** *** Writing JSON *)

Definition ascii_text (s : string) : bytes :=
  List.map (fun a => byte_of_N (N_of_ascii a)) (list_ascii_of_string s).

Fixpoint uint_digits (u : Decimal.uint) : bytes :=
  match u with
  | Decimal.Nil => []
  | Decimal.D0 u => byte_of_N 48 :: uint_digits u
  | Decimal.D1 u => byte_of_N 49 :: uint_digits u
  | Decimal.D2 u => byte_of_N 50 :: uint_digits u
  | Decimal.D3 u => byte_of_N 51 :: uint_digits u
  | Decimal.D4 u => byte_of_N 52 :: uint_digits u
  | Decimal.D5 u => byte_of_N 53 :: uint_digits u
  | Decimal.D6 u => byte_of_N 54 :: uint_digits u
  | Decimal.D7 u => byte_of_N 55 :: uint_digits u
  | Decimal.D8 u => byte_of_N 56 :: uint_digits u
  | Decimal.D9 u => byte_of_N 57 :: uint_digits u
  end.

Definition decimal (z : Z) : bytes :=
  (if z <? 0 then ascii_text "-" else []) ++ uint_digits (N.to_uint (Z.abs_N z)).

Definition hex4 (n : N) : bytes :=
  List.map (fun p => byte_of_N (hex_digit ((n / p) mod 16)))%N [4096; 256; 16; 1]%N.

(** A backslash and the character [c]. *)
Definition escape (c : N) : bytes := [byte_of_N 92; byte_of_N c].

Definition unicode_escape (n : N) : bytes := escape 117 ++ hex4 n.

(** A character of a string, as [ensure_ascii] writes it: a quote, a
    backslash and the control characters with a short escape by it, the
    other printable ASCII characters as they are, the rest by number, in
    two halves beyond the basic plane. *)
Definition json_char (c : codepoint) : bytes :=
  (if c =? 34 then escape 34
   else if c =? 92 then escape 92
   else if c =? 10 then escape 110
   else if c =? 13 then escape 114
   else if c =? 9 then escape 116
   else if c =? 8 then escape 98
   else if c =? 12 then escape 102
   else if (32 <=? c) && (c <=? 126) then [byte_of_N c]
   else if c <? 65536 then unicode_escape c
   else unicode_escape (55296 + (c - 65536) / 1024)
          ++ unicode_escape (56320 + (c - 65536) mod 1024))%N.

Definition json_string (s : str) : bytes :=
  [byte_of_N 34] ++ flat_map json_char s ++ [byte_of_N 34].

Fixpoint join_bytes (sep : bytes) (l : list bytes) : bytes :=
  match l with
  | [] => []
  | [x] => x
  | x :: rest => x ++ sep ++ join_bytes sep rest
  end.

Fixpoint str_ltb (a b : str) : bool :=
  match a, b with
  | _, [] => false
  | [], _ :: _ => true
  | x :: a', y :: b' => (x <? y)%N || ((x =? y)%N && str_ltb a' b')
  end.

Fixpoint insert_member (m : str * bytes) (l : list (str * bytes)) : list (str * bytes) :=
  match l with
  | [] => [m]
  | x :: rest => if str_ltb (fst m) (fst x) then m :: l else x :: insert_member m rest
  end.

Definition sort_members (l : list (str * bytes)) : list (str * bytes) :=
  fold_right insert_member [] l.

(** A [datetime] cannot be written ([TypeError]); floats are outside the
    stand-in, which refuses them. *)
Fixpoint sample_json_text (sort_keys : bool) (v : value) : exn + bytes :=
  match v with
  | VNone => inr (ascii_text "null")
  | VBool b => inr (ascii_text (if b then "true" else "false"))
  | VInt z => inr (decimal z)
  | VFloat _ => inl TypeError
  | VStr s => inr (json_string s)
  | VDatetime _ => inl TypeError
  | VList items =>
      let fix texts (l : list value) : exn + list bytes :=
        match l with
        | [] => inr []
        | x :: rest =>
            match sample_json_text sort_keys x, texts rest with
            | inl e, _ => inl e
            | _, inl e => inl e
            | inr t, inr ts => inr (t :: ts)
            end
        end in
      match texts items with
      | inl e => inl e
      | inr ts => inr (ascii_text "[" ++ join_bytes (ascii_text ",") ts ++ ascii_text "]")
      end
  | VDict items =>
      let fix texts (l : list (str * value)) : exn + list (str * bytes) :=
        match l with
        | [] => inr []
        | (k, x) :: rest =>
            match sample_json_text sort_keys x, texts rest with
            | inl e, _ => inl e
            | _, inl e => inl e
            | inr t, inr ts => inr ((k, t) :: ts)
            end
        end in
      match texts items with
      | inl e => inl e
      | inr ts =>
          inr (ascii_text "{"
                 ++ join_bytes (ascii_text ",")
                      (List.map (fun m => json_string (fst m) ++ ascii_text ":" ++ snd m)
                         (if sort_keys then sort_members ts else ts))
                 ++ ascii_text "}")
      end
  end.

(** *** Reading JSON

    The reader takes the texts the writer makes (no blanks, no fractions
    or exponents); [fuel] bounds its depth. *)

Definition hex_value (c : codepoint) : option N :=
  (if (48 <=? c) && (c <=? 57) then Some (c - 48)
   else if (97 <=? c) && (c <=? 102) then Some (c - 87)
   else if (65 <=? c) && (c <=? 70) then Some (c - 55)
   else None)%N.

Definition read_hex4 (s : str) : option (N * str) :=
  match s with
  | a :: b :: c :: d :: rest =>
      match hex_value a, hex_value b, hex_value c, hex_value d with
      | Some a, Some b, Some c, Some d => Some (a * 4096 + b * 256 + c * 16 + d, rest)%N
      | _, _, _, _ => None
      end
  | _ => None
  end.

(** The characters of a string up to its closing quote.  A high surrogate
    escape followed by a low one is read as one character. *)
Fixpoint read_string (fuel : nat) (s : str) : option (str * str) :=
  match fuel with
  | O => None
  | S fuel =>
      match s with
      | [] => None
      | 34%N :: rest => Some ([], rest)
      | 92%N :: 117%N :: rest =>
          match read_hex4 rest with
          | None => None
          | Some (hi, rest') =>
              let single := option_map (fun r => (hi :: fst r, snd r))
                              (read_string fuel rest') in
              if ((55296 <=? hi) && (hi <=? 56319))%N then
                match rest' with
                | 92%N :: 117%N :: rest'' =>
                    match read_hex4 rest'' with
                    | Some (lo, rest3) =>
                        if ((56320 <=? lo) && (lo <=? 57343))%N
                        then option_map
                               (fun r => ((65536 + (hi - 55296) * 1024 + (lo - 56320))%N
                                            :: fst r, snd r))
                               (read_string fuel rest3)
                        else single
                    | None => single
                    end
                | _ => single
                end
              else single
          end
      | 92%N :: c :: rest =>
          match (if (c =? 34)%N then Some 34 else if (c =? 92)%N then Some 92
                 else if (c =? 47)%N then Some 47 else if (c =? 110)%N then Some 10
                 else if (c =? 114)%N then Some 13 else if (c =? 116)%N then Some 9
                 else if (c =? 98)%N then Some 8 else if (c =? 102)%N then Some 12
                 else None)%N with
          | Some x => option_map (fun r => (x :: fst r, snd r)) (read_string fuel rest)
          | None => None
          end
      | c :: rest =>
          if (c <? 32)%N then None
          else option_map (fun r => (c :: fst r, snd r)) (read_string fuel rest)
      end
  end.

Fixpoint read_digits (s : str) (acc : Z) : Z * str :=
  match s with
  | c :: rest =>
      if ((48 <=? c) && (c <=? 57))%N
      then read_digits rest (acc * 10 + Z.of_N (c - 48))
      else (acc, s)
  | [] => (acc, [])
  end.

Definition is_digit_char (c : codepoint) : bool := ((48 <=? c) && (c <=? 57))%N.

Definition read_number (s : str) : option (value * str) :=
  let negative := match s with 45%N :: _ => true | _ => false end in
  let s := if negative then tl s else s in
  match s with
  | c :: _ =>
      if is_digit_char c then
        let '(n, rest) := read_digits s 0 in
        match rest with
        | 46%N :: _ | 101%N :: _ | 69%N :: _ => None
        | _ => Some (VInt (if negative then - n else n), rest)
        end
      else None
  | [] => None
  end.

(** What is read next: a value, the elements of a list after its opening
    bracket, or the members of an object after its opening brace. *)
Inductive reading := AValue | Elements | Members.

Fixpoint read_json (fuel : nat) (what : reading) (s : str) : option (value * str) :=
  match fuel with
  | O => None
  | S fuel =>
      match what with
      | AValue =>
          match s with
          | 110%N :: 117%N :: 108%N :: 108%N :: rest => Some (VNone, rest)
          | 116%N :: 114%N :: 117%N :: 101%N :: rest => Some (VBool true, rest)
          | 102%N :: 97%N :: 108%N :: 115%N :: 101%N :: rest => Some (VBool false, rest)
          | 34%N :: rest =>
              option_map (fun r => (VStr (fst r), snd r))
                (read_string (S (List.length rest)) rest)
          | 91%N :: 93%N :: rest => Some (VList [], rest)
          | 91%N :: rest => read_json fuel Elements rest
          | 123%N :: 125%N :: rest => Some (VDict [], rest)
          | 123%N :: rest => read_json fuel Members rest
          | _ => read_number s
          end
      | Elements =>
          match read_json fuel AValue s with
          | Some (v, 44%N :: rest) =>
              match read_json fuel Elements rest with
              | Some (VList vs, rest') => Some (VList (v :: vs), rest')
              | _ => None
              end
          | Some (v, 93%N :: rest) => Some (VList [v], rest)
          | _ => None
          end
      | Members =>
          match s with
          | 34%N :: rest =>
              match read_string (S (List.length rest)) rest with
              | Some (k, 58%N :: rest') =>
                  match read_json fuel AValue rest' with
                  | Some (v, 44%N :: rest'') =>
                      match read_json fuel Members rest'' with
                      | Some (VDict ms, rest3) => Some (VDict ((k, v) :: ms), rest3)
                      | _ => None
                      end
                  | Some (v, 125%N :: rest'') => Some (VDict [(k, v)], rest'')
                  | _ => None
                  end
              | _ => None
              end
          | _ => None
          end
      end
  end.

Definition sample_json_loads (data : bytes) : exn + value :=
  match utf8_decode data with
  | None => inl UnicodeDecodeError
  | Some s =>
      match read_json (2 * List.length s + 2) AValue s with
      | Some (v, []) => inr v
      | _ => inl ValueError
      end
  end.

Definition sample_lib : Primitives :=
  mkPrimitives sample_json_text sample_json_loads (fun _ => None)
    (fun alg => str_eqb alg (py "HS256")) sample_key_sign sample_key_check.

(** The token the stand-ins sign for a payload under the sample settings
    (the empty text if they sign none). *)
Definition sample_token (p : dict) : str :=
  default [] (signed sample_lib sample_settings p).

(** The JSON text of a value (empty if it has none). *)
Definition sample_json (sort_keys : bool) (v : value) : bytes :=
  match sample_json_text sort_keys v with
  | inr text => text
  | inl _ => []
  end.

(** A token that names the algorithm ["none"] in its header and has no
    signature. *)
Definition unsigned_token : str :=
  jws_text (sample_json true (VDict (jose_header (py "none"))))
    (sample_json false (VDict [(py "sub", VStr (py "admin"))])) [].

(** A backup code as the specification describes it: eight characters of
    [0-9A-F]. *)
Definition good_code (code : str) : Prop :=
  len code = 8 /\ forallb is_upper_hex code = true.

(** A computation leaves the dictionary at [l] as it found it, whatever
    its outcome. *)
Definition leaves {A} (l : loc) (c : M A) : Prop :=
  forall w, heap (snd (c w)) !! l = heap w !! l.

(** * Properties *)

(** Conjunctions of closed equations, each settled by evaluation. *)
Ltac by_evaluation :=
  repeat match goal with |- _ /\ _ => split end; vm_compute; reflexivity.

(** ** Arithmetic on bytes *)

Ltac bool_hyps :=
  repeat match goal with
  | H : (_ <? _)%N = true |- _ => apply N.ltb_lt in H
  | H : (_ <? _)%N = false |- _ => apply N.ltb_ge in H
  | H : (_ <=? _)%N = true |- _ => apply N.leb_le in H
  | H : (_ <=? _)%N = false |- _ => apply N.leb_gt in H
  | H : (_ <? _)%Z = true |- _ => apply Z.ltb_lt in H
  | H : (_ <? _)%Z = false |- _ => apply Z.ltb_ge in H
  | H : (_ <=? _)%Z = true |- _ => apply Z.leb_le in H
  | H : (_ <=? _)%Z = false |- _ => apply Z.leb_gt in H
  | H : (_ && _)%bool = true |- _ => apply andb_true_iff in H; destruct H
  | H : negb _ = true |- _ => apply negb_true_iff in H
  | H : negb _ = false |- _ => apply negb_false_iff in H
  end.

(** Linear arithmetic with division and remainder by constants. *)
Ltac dlia := bool_hyps; zify; Z.to_euclidean_division_equations; lia.

Lemma N_ltb_true a b : (a < b)%N -> (a <? b)%N = true.
Proof. apply N.ltb_lt. Qed.

Lemma N_ltb_false a b : (b <= a)%N -> (a <? b)%N = false.
Proof. apply N.ltb_ge. Qed.

Lemma N_leb_true a b : (a <= b)%N -> (a <=? b)%N = true.
Proof. apply N.leb_le. Qed.

Lemma N_leb_false a b : (b < a)%N -> (a <=? b)%N = false.
Proof. apply N.leb_gt. Qed.

(** Decide every comparison of the goal that arithmetic settles. *)
Ltac ncmp :=
  repeat match goal with
  | |- context [(?a <? ?b)%N] =>
      first [ rewrite (N_ltb_true a b) by dlia | rewrite (N_ltb_false a b) by dlia ]
  | |- context [(?a <=? ?b)%N] =>
      first [ rewrite (N_leb_true a b) by dlia | rewrite (N_leb_false a b) by dlia ]
  end.

Lemma to_N_byte_of_N n : (n < 256)%N -> Byte.to_N (byte_of_N n) = n.
Proof.
  intros H. unfold byte_of_N.
  destruct (Byte.of_N n) eqn:E.
  - now apply Byte.to_of_N.
  - apply Byte.of_N_None_iff in E. lia.
Qed.

Lemma byte_of_to_N b : byte_of_N (Byte.to_N b) = b.
Proof. unfold byte_of_N. now rewrite Byte.of_to_N. Qed.

Lemma to_N_lt b : (Byte.to_N b < 256)%N.
Proof. pose proof (Byte.to_N_bounded b). lia. Qed.

(** ** UTF-8 round trip *)

Lemma continuation_byte x :
  (x < 64)%N -> continuation (byte_of_N (128 + x)) = Some x.
Proof.
  intros H. unfold continuation. rewrite to_N_byte_of_N by lia.
  ncmp. cbn. f_equal. lia.
Qed.

Lemma scalar_in_ok lo hi c :
  (lo <= c)%N -> (c <= hi)%N -> is_surrogate c = false ->
  scalar_in lo hi c = Some c.
Proof.
  intros. unfold scalar_in. rewrite N_leb_true, N_leb_true by lia.
  now rewrite H1.
Qed.

Lemma utf8_decode_encode_char c bs rest :
  utf8_encode_char c = Some bs ->
  utf8_decode (bs ++ rest) = option_map (cons c) (utf8_decode rest).
Proof.
  unfold utf8_encode_char.
  destruct (c <? 128)%N eqn:E1.
  { intros [= <-]. cbn [app utf8_decode]. rewrite to_N_byte_of_N by dlia.
    now rewrite E1. }
  destruct (c <? 2048)%N eqn:E2.
  { intros [= <-]. cbn [app utf8_decode].
    rewrite to_N_byte_of_N by dlia. ncmp.
    rewrite continuation_byte by dlia.
    replace ((192 + c / 64 - 192) * 64 + c mod 64)%N with c by dlia.
    rewrite scalar_in_ok; [reflexivity | dlia | dlia |].
    unfold is_surrogate. now ncmp. }
  destruct (c <? 65536)%N eqn:E3.
  { destruct (is_surrogate c) eqn:Es; [discriminate|].
    intros [= <-]. cbn [app utf8_decode].
    rewrite to_N_byte_of_N by dlia. ncmp.
    rewrite !continuation_byte by dlia.
    replace ((224 + c / 4096 - 224) * 4096 + (c / 64) mod 64 * 64 + c mod 64)%N
      with c by dlia.
    rewrite scalar_in_ok; [reflexivity | dlia | dlia | assumption]. }
  destruct (c <? 1114112)%N eqn:E4; [|discriminate].
  intros [= <-]. cbn [app utf8_decode].
  rewrite to_N_byte_of_N by dlia. ncmp.
  rewrite !continuation_byte by dlia.
  replace ((240 + c / 262144 - 240) * 262144 + (c / 4096) mod 64 * 4096
           + (c / 64) mod 64 * 64 + c mod 64)%N with c by dlia.
  rewrite scalar_in_ok; [reflexivity | dlia | dlia |].
  unfold is_surrogate. now ncmp.
Qed.

Lemma utf8_decode_encode s bs :
  utf8_encode s = Some bs -> utf8_decode bs = Some s.
Proof.
  revert bs. induction s as [|c s IH]; intros bs; cbn [utf8_encode].
  - now intros [= <-].
  - destruct (utf8_encode_char c) as [cb|] eqn:Ec; [|discriminate].
    destruct (utf8_encode s) as [more|]; [|discriminate].
    intros [= <-].
    rewrite (utf8_decode_encode_char c cb more Ec).
    now rewrite (IH more eq_refl).
Qed.

(** ** Running the monad *)

Lemma bind_ok {A B} (c : M A) (k : A -> M B) w a w' :
  c w = (inr a, w') -> bind c k w = k a w'.
Proof. unfold bind. now intros ->. Qed.

Lemma bind_raise {A B} (c : M A) (k : A -> M B) w e w' :
  c w = (inl e, w') -> bind c k w = (inl e, w').
Proof. unfold bind. now intros ->. Qed.

Lemma bind_inv_ok {A B} (c : M A) (k : A -> M B) w b w'' :
  bind c k w = (inr b, w'') ->
  exists a w', c w = (inr a, w') /\ k a w' = (inr b, w'').
Proof.
  unfold bind. destruct (c w) as [[e|a] w']; [discriminate|].
  intros H. now exists a, w'.
Qed.

Lemma reraise_ok {A} caught e (c : M A) w a w' :
  c w = (inr a, w') -> reraise caught e c w = (inr a, w').
Proof. unfold reraise. now intros ->. Qed.

(** ** Password policy *)

Section PasswordPolicy.

Variables ucd_isupper ucd_islower ucd_isdigit : codepoint -> bool.

Local Abbreviation validate :=
  (validate_password_strength ucd_isupper ucd_islower ucd_isdigit).
Local Abbreviation first_failing_check :=
  (first_failing ucd_isupper ucd_islower ucd_isdigit policy_order).

Lemma validate_follows_policy_order password :
  validate password =
  match first_failing_check password with
  | Some n => (false, Some (reason n))
  | None => (true, None)
  end.
Proof.
  unfold validate_password_strength, policy_order, first_failing, passes.
  rewrite (Z.leb_antisym (len password) 8).
  destruct (len password <? 8); [reflexivity|]. cbn [negb].
  destruct (existsb _ password); [|reflexivity]. cbn [negb].
  destruct (existsb _ password); [|reflexivity]. cbn [negb].
  destruct (existsb _ password); [|reflexivity]. cbn [negb].
  now destruct (existsb _ password).
Qed.

Lemma reasons_name_their_check n : names_only n (reason n) = true.
Proof. destruct n; vm_compute; reflexivity. Qed.

(** C8.  [validate_password_strength] reports the first check that fails
    in the order length, uppercase, lowercase, digit, special character, and
    only that one: the result is [(False, reason)] for the first failing
    check of the ordered policy and [(True, None)] when none fails; each
    reason carries the key word of its own check and of no other.
    ["short1!"] is rejected for its length, ["alllowercase1!"] for the
    missing uppercase letter, and ["ValidPass123!"] is accepted with no
    reason. *)
Theorem validate_password_strength_first_failure :
  (forall password,
      validate password =
      match first_failing_check password with
      | Some n => (false, Some (reason n))
      | None => (true, None)
      end)
  /\ (forall n, names_only n (reason n) = true)
  /\ validate (py "short1!") = (false, Some msg_length)
  /\ contains msg_length (py "at least 8 characters") = true
  /\ validate (py "alllowercase1!") = (false, Some msg_uppercase)
  /\ contains msg_uppercase (py "uppercase") = true
  /\ validate (py "ValidPass123!") = (true, None).
Proof.
  split; [exact validate_follows_policy_order|].
  split; [exact reasons_name_their_check|].
  by_evaluation.
Qed.

End PasswordPolicy.

(** ** Backup codes *)

Section BackupCodes.

Variable ucd_upper : codepoint -> str.

Lemma upper_app s t : upper ucd_upper (s ++ t) = upper ucd_upper s ++ upper ucd_upper t.
Proof. unfold upper. apply flat_map_app. Qed.

(** The two digits of a byte, in upper case. *)
Lemma upper_hex_byte b :
  exists c1 c2,
    upper ucd_upper (hexlify [b]) = [c1; c2]
    /\ is_upper_hex c1 = true /\ is_upper_hex c2 = true.
Proof. destruct b; do 2 eexists; repeat split. Qed.

Lemma upper_hexlify bs :
  List.length (upper ucd_upper (hexlify bs)) = (2 * List.length bs)%nat
  /\ forallb is_upper_hex (upper ucd_upper (hexlify bs)) = true.
Proof.
  induction bs as [|b bs [IHl IHf]]; [split; reflexivity|].
  change (hexlify (b :: bs)) with (hexlify [b] ++ hexlify bs).
  rewrite upper_app.
  destruct (upper_hex_byte b) as (c1 & c2 & -> & H1 & H2).
  split.
  - cbn [app List.length]. rewrite IHl. lia.
  - cbn [app forallb]. now rewrite H1, H2, IHf.
Qed.

Lemma token_bytes_spec n w :
  exists bs w',
    token_bytes n w = (inr bs, w') /\ List.length bs = n.
Proof.
  revert w. induction n as [|n IH]; intros w.
  - now exists [], w.
  - cbn [token_bytes].
    erewrite bind_ok by (unfold next_byte; reflexivity).
    match goal with |- context [bind (token_bytes n) _ ?w1] =>
      destruct (IH w1) as (bs & w' & E & L) end.
    erewrite bind_ok by exact E.
    do 2 eexists. split; [reflexivity|]. cbn. now rewrite L.
Qed.

Lemma backup_codes_loop_spec n : forall codes w,
  exists fresh_codes w',
    backup_codes_loop ucd_upper n codes w = (inr (codes ++ fresh_codes), w')
    /\ List.length fresh_codes = n
    /\ Forall good_code fresh_codes.
Proof.
  induction n as [|n IH]; intros codes w.
  - exists [], w. rewrite app_nil_r. repeat split; constructor.
  - cbn [backup_codes_loop].
    destruct (token_bytes_spec 4 w) as (bs & w1 & E & L).
    erewrite bind_ok
      by (unfold token_hex; erewrite bind_ok by exact E; reflexivity).
    destruct (IH (codes ++ [upper ucd_upper (hexlify bs)]) w1)
      as (more & w2 & E2 & L2 & G2).
    rewrite E2. exists (upper ucd_upper (hexlify bs) :: more), w2.
    split; [now rewrite <- app_assoc|].
    split; [cbn; now rewrite L2|].
    constructor; [|assumption].
    destruct (upper_hexlify bs) as [Hl Hf].
    split; [|assumption]. unfold len. rewrite Hl, L. reflexivity.
Qed.

(** C9.  [generate_backup_codes(n)] returns, without raising, a list of
    exactly [n] codes for every [n >= 0] (of 10 codes when no count is
    given, and of none for a negative count); every code has exactly 8
    characters, each one of [0-9A-F].  This holds whatever bytes the
    system generator yields. *)
Theorem generate_backup_codes_shape (count : option Z) (w : World) :
  exists codes w',
    generate_backup_codes ucd_upper count w = (inr codes, w')
    /\ len codes = Z.max 0 (default 10 count)
    /\ Forall good_code codes.
Proof.
  unfold generate_backup_codes.
  destruct (backup_codes_loop_spec (Z.to_nat (default 10 count)) [] w)
    as (codes & w' & E & L & G).
  exists codes, w'. split; [exact E|]. split; [|exact G].
  unfold len. rewrite L. lia.
Qed.

End BackupCodes.

(** ** Password verification *)

Section PasswordVerification.

Variable phc : Type.
Variable argon2_decode : str -> exn + phc.
Variable argon2_matches : phc -> bytes -> bool.

(** C4, as amended.  For every password and every string that is not a
    well-formed hash, [verify_password] raises and returns nothing: it raises
    [UnknownHashError] when the string is not identified as an Argon2 hash,
    and some exception when it is identified but cannot be decoded.  It never
    answers [False] for such input. *)
Theorem verify_password_malformed_raises (p h : str) (w : World) :
  well_formed_hash argon2_decode h = false ->
  exists e,
    verify_password argon2_decode argon2_matches p h w = (inl e, w)
    /\ (identify h = false -> e = UnknownHashError).
Proof.
  unfold well_formed_hash, verify_password, pwd_context_verify.
  destruct (identify h); cbn [negb andb].
  - destruct (argon2_decode h) as [e|]; [|discriminate]. intros _.
    unfold bind, str_encode.
    destruct (MAX_PASSWORD_SIZE <? len p).
    + exists PasswordSizeError. split; [reflexivity | discriminate].
    + cbn. destruct (utf8_encode p).
      * exists e. split; [reflexivity | discriminate].
      * exists UnicodeEncodeError. split; [reflexivity | discriminate].
  - intros _. exists UnknownHashError. split; reflexivity.
Qed.

End PasswordVerification.

(** A string that is no hash at all. *)
Lemma verify_password_malformed_raises_witness :
  exists e,
    verify_password (fun _ => inl MalformedHashError) (fun (_ : unit) _ => false)
      (py "hunter2") (py "not-a-hash") (world_at 0) = (inl e, world_at 0)
    /\ (identify (py "not-a-hash") = false -> e = UnknownHashError).
Proof.
  apply verify_password_malformed_raises. reflexivity.
Defined.

(** C4 as stated fails: with the stored hash ["not-a-hash"],
    [verify_password] does not return [False]; it raises
    [UnknownHashError], whatever decoder and digest the Argon2 handler
    uses.  The string ["$argon2x$foo"] is identified as an Argon2 hash, and
    the call raises what the handler raises for it. *)
Lemma verify_password_claim_counterexample :
  verify_password (fun _ => inl MalformedHashError) (fun (_ : unit) _ => false)
    (py "hunter2") (py "not-a-hash") (world_at 0)
  = (inl UnknownHashError, world_at 0)
  /\ identify (py "$argon2x$foo") = true
  /\ verify_password (fun _ => inl MalformedHashError) (fun (_ : unit) _ => false)
       (py "hunter2") (py "$argon2x$foo") (world_at 0)
     = (inl MalformedHashError, world_at 0).
Proof. repeat split. Qed.

(** ** One-time codes *)

Lemma utf8_encode_ascii s :
  forallb is_ascii s = true -> utf8_encode s = Some (List.map byte_of_N s).
Proof.
  induction s as [|c s IH]; cbn [forallb utf8_encode List.map]; [reflexivity|].
  intros H. apply andb_true_iff in H as [Hc Hs].
  rewrite (IH Hs). unfold utf8_encode_char. unfold is_ascii in Hc.
  now rewrite Hc.
Qed.

Lemma utf8_encode_inj a b x :
  utf8_encode a = Some x -> utf8_encode b = Some x -> a = b.
Proof.
  intros Ha Hb. apply utf8_decode_encode in Ha, Hb. congruence.
Qed.

Lemma six_digits_ascii n : forallb is_ascii (six_digits n) = true.
Proof.
  unfold six_digits, is_ascii. cbn [List.map forallb].
  now ncmp.
Qed.

Lemma hotp_ascii key counter : forallb is_ascii (hotp key counter) = true.
Proof. unfold hotp. apply six_digits_ascii. Qed.

Lemma timecode_positive mktime t : 30 <= mktime t -> 1 <= timecode mktime t.
Proof.
  intros H. unfold timecode. rewrite Z.quot_div_nonneg by lia.
  apply Z.div_le_lower_bound; lia.
Qed.

Section CodeWindow.

Variable nfkc : str -> str.
Variable mktime : Z -> Z.
Hypothesis nfkc_ascii : forall s, forallb is_ascii s = true -> nfkc s = s.

Lemma strings_equal_run otp code w :
  utf8_encode (nfkc otp) <> None ->
  forallb is_ascii code = true ->
  strings_equal nfkc otp code w = (inr (bool_decide (nfkc otp = code)), w).
Proof.
  intros Hotp Hcode. unfold strings_equal, str_encode.
  destruct (utf8_encode (nfkc otp)) as [b1|] eqn:E1; [|congruence].
  rewrite (nfkc_ascii code Hcode).
  pose proof (utf8_encode_ascii code Hcode) as E2. rewrite E2.
  unfold bind, ret. do 2 f_equal.
  apply bool_decide_ext. split.
  - intros ->. now apply (utf8_encode_inj _ _ _ E1 E2).
  - intros Heq. rewrite Heq in E1. congruence.
Qed.

Lemma generate_otp_run secret key input w :
  byte_secret secret = inr key -> 0 <= input ->
  generate_otp secret input w = (inr (hotp key input), w).
Proof.
  intros Hk Hin. unfold generate_otp.
  apply Z.ltb_ge in Hin. now rewrite Hin, Hk.
Qed.

Lemma totp_verify_window_run secret key otp for_time offsets w :
  byte_secret secret = inr key ->
  utf8_encode (nfkc otp) <> None ->
  Forall (fun i => 0 <= timecode mktime for_time + i) offsets ->
  totp_verify_window nfkc mktime secret otp for_time offsets w
  = (inr (existsb (fun i => bool_decide
                              (nfkc otp = hotp key (timecode mktime for_time + i)))
            offsets), w).
Proof.
  intros Hk Hotp Hpos. induction Hpos as [|i rest Hi _ IH]; [reflexivity|].
  cbn [totp_verify_window existsb].
  erewrite bind_ok by (unfold totp_at; eapply generate_otp_run; eassumption).
  erewrite bind_ok by (apply strings_equal_run; [assumption | apply hotp_ascii]).
  destruct (bool_decide _); [reflexivity | exact IH].
Qed.


End CodeWindow.

(** X2.  A secret that is not base32 makes [verify_totp] raise: the error
    of the decoder ([binascii.Error], or [ValueError] for a secret with a
    character beyond ASCII) comes out of the first code it tries to
    compute. *)
Theorem verify_totp_bad_secret_raises (nfkc : str -> str) (mktime : Z -> Z)
    (secret code : str) (e : exn) (w : World) :
  byte_secret secret = inl e ->
  30 <= local_seconds mktime w ->
  verify_totp nfkc mktime secret code w = (inl e, tick w).
Proof.
  intros Hk Hclock. apply timecode_positive in Hclock.
  unfold verify_totp, totp_verify.
  erewrite bind_ok by (unfold datetime_now, utcnow; reflexivity).
  change (negb (1 =? 0)) with true. cbv iota.
  change (range (- (1)) (1 + 1)) with [-1; 0; 1].
  cbn [totp_verify_window]. apply bind_raise.
  unfold totp_at, generate_otp.
  replace (timecode mktime (clock w (reads w)) + -1 <? 0) with false
    by (symmetry; apply Z.ltb_ge; lia).
  now rewrite Hk.
Qed.

Lemma verify_totp_bad_secret_raises_witness :
  verify_totp (fun s => s) utc_mktime (py "not base32!") (py "123456")
    (world_at 1700005500000000)
  = (inl BinasciiError, tick (world_at 1700005500000000)).
Proof.
  apply verify_totp_bad_secret_raises.
  - vm_compute. reflexivity.
  - vm_compute. discriminate.
Defined.



(** ** Dictionaries *)

Lemma str_eqb_eq a b : str_eqb a b = true <-> a = b.
Proof. unfold str_eqb. apply bool_decide_eq_true. Qed.

Lemma str_eqb_refl a : str_eqb a a = true.
Proof. now apply str_eqb_eq. Qed.

Lemma str_eqb_neq a b : a <> b -> str_eqb a b = false.
Proof. intros. unfold str_eqb. now apply bool_decide_eq_false. Qed.

Lemma dict_get_set_eq d k v : dict_get (dict_set d k v) k = Some v.
Proof.
  induction d as [|[k' v'] d IH]; cbn.
  - now rewrite str_eqb_refl.
  - destruct (str_eqb k' k) eqn:E; cbn.
    + now rewrite str_eqb_refl.
    + now rewrite E.
Qed.

Lemma dict_get_set_ne d k v k' :
  k <> k' -> dict_get (dict_set d k v) k' = dict_get d k'.
Proof.
  intros Hne. induction d as [|[k0 v0] d IH]; cbn.
  - now rewrite str_eqb_neq.
  - destruct (str_eqb k0 k) eqn:E; cbn.
    + apply str_eqb_eq in E. subst k0. now rewrite !str_eqb_neq.
    + now rewrite IH.
Qed.

Lemma dict_get_converted_ne d name k :
  name <> k -> dict_get (time_claim_converted d name) k = dict_get d k.
Proof.
  intros Hne. unfold time_claim_converted.
  destruct (dict_get d name) as [[]|]; try reflexivity.
  now apply dict_get_set_ne.
Qed.

Lemma dict_get_converted_eq d name :
  dict_get (time_claim_converted d name) name =
  match dict_get d name with
  | Some (VDatetime t) => Some (VInt (timegm t))
  | other => other
  end.
Proof.
  unfold time_claim_converted.
  destruct (dict_get d name) as [[]|] eqn:E; try exact E.
  apply dict_get_set_eq.
Qed.

Lemma dict_get_In d k v : dict_get d k = Some v -> In (k, v) d.
Proof.
  induction d as [|[k' v'] d IH]; cbn; [discriminate|].
  destruct (str_eqb k' k) eqn:E.
  - apply str_eqb_eq in E. intros [= ->]. left. now subst.
  - intros H. right. now apply IH.
Qed.

Lemma In_dict_get d k v : is_dict d -> In (k, v) d -> dict_get d k = Some v.
Proof.
  unfold is_dict. induction d as [|[k' v'] d IH]; cbn; [easy|].
  intros Hnd [H|H].
  - injection H as -> ->. now rewrite str_eqb_refl.
  - apply NoDup_cons in Hnd as [Hnotin Hnd].
    rewrite str_eqb_neq; [now apply IH|].
    intros ->. apply Hnotin. apply list_elem_of_In.
    change k with (fst (k, v)). now apply in_map.
Qed.

Lemma keys_dict_set d k v :
  keys (dict_set d k v) = if dict_has d k then keys d else keys d ++ [k].
Proof.
  unfold dict_has, keys. induction d as [|[k' v'] d IH]; cbn; [reflexivity|].
  destruct (str_eqb k' k) eqn:E; cbn.
  - apply str_eqb_eq in E. now subst.
  - rewrite IH. now destruct (dict_get d k).
Qed.

Lemma dict_get_None_keys d k : dict_get d k = None -> ~ In k (keys d).
Proof.
  induction d as [|[k' v'] d IH]; cbn; [tauto|].
  destruct (str_eqb k' k) eqn:E; [discriminate|].
  intros H [->|Hin]; [now rewrite str_eqb_refl in E | now apply IH].
Qed.

Lemma is_dict_set d k v : is_dict d -> is_dict (dict_set d k v).
Proof.
  unfold is_dict. intros Hnd. rewrite keys_dict_set. unfold dict_has.
  destruct (dict_get d k) eqn:E; [assumption|].
  apply NoDup_app. split; [assumption|]. split.
  - intros x Hx Hk. apply list_elem_of_In in Hx.
    apply list_elem_of_In in Hk. destruct Hk as [<-|[]].
    now apply (dict_get_None_keys d k).
  - apply NoDup_singleton.
Qed.

Lemma is_dict_converted d name : is_dict d -> is_dict (time_claim_converted d name).
Proof.
  intros Hd. unfold time_claim_converted.
  destruct (dict_get d name) as [[]|]; try assumption.
  now apply is_dict_set.
Qed.

(** ** Base64 round trip *)

Lemma N_forall_below (k : nat) (P : N -> bool) :
  forallb P (List.map N.of_nat (seq 0 k)) = true ->
  forall n, (n < N.of_nat k)%N -> P n = true.
Proof.
  intros H n Hn. rewrite forallb_forall in H. apply H.
  apply in_map_iff. exists (N.to_nat n). split; [lia|].
  apply in_seq. lia.
Qed.

Lemma b64_value_char s :
  (s < 64)%N ->
  b64_value (b64_char s) = Some s
  /\ (Byte.to_N (b64_char s) =? 61)%N = false.
Proof.
  intros Hs.
  pose proof (N_forall_below 64
    (fun s => match b64_value (b64_char s) with
              | Some v => (v =? s)%N
              | None => false
              end && negb (Byte.to_N (b64_char s) =? 61)%N)) as H.
  specialize (H ltac:(vm_compute; reflexivity) s Hs). cbn beta in H.
  apply andb_true_iff in H as [H1 H2].
  destruct (b64_value (b64_char s)) as [v|]; [|discriminate].
  apply N.eqb_eq in H1. subst v.
  now rewrite negb_true_iff in H2.
Qed.

Lemma b64_step_char q l p out s :
  (s < 64)%N ->
  b64_step (mkB64 q l p out false) (b64_char s) =
  (if q =? 0 then mkB64 1 s 0 out false
   else if q =? 1 then mkB64 2 (s mod 16) 0 (byte_of_N (l * 4 + s / 16) :: out) false
   else if q =? 2 then mkB64 3 (s mod 4) 0 (byte_of_N (l * 16 + s / 4) :: out) false
   else mkB64 0 0 0 (byte_of_N (l * 64 + s) :: out) false)%N.
Proof.
  intros Hs. destruct (b64_value_char s Hs) as [Hv Hne].
  unfold b64_step. cbn [finished quad_pos leftchar pads out_rev].
  now rewrite Hne, Hv.
Qed.

Lemma b64_step_finished st b : finished st = true -> b64_step st b = st.
Proof. intros H. unfold b64_step. now rewrite H. Qed.

Lemma byte_of_N_eq n b : n = Byte.to_N b -> byte_of_N n = b.
Proof. intros ->. apply byte_of_to_N. Qed.

(** A full group of three bytes. *)
Lemma b64_decode_group b0 b1 b2 out :
  let n0 := Byte.to_N b0 in
  let n1 := Byte.to_N b1 in
  let n2 := Byte.to_N b2 in
  fold_left b64_step
    [b64_char (n0 / 4); b64_char (n0 mod 4 * 16 + n1 / 16);
     b64_char (n1 mod 16 * 4 + n2 / 64); b64_char (n2 mod 64)]%N
    (mkB64 0 0 0 out false)
  = mkB64 0 0 0 (b2 :: b1 :: b0 :: out) false.
Proof.
  intros n0 n1 n2.
  pose proof (to_N_lt b0). pose proof (to_N_lt b1). pose proof (to_N_lt b2).
  fold n0 n1 n2 in H, H0, H1.
  cbn [fold_left].
  rewrite b64_step_char by dlia. cbn [N.eqb].
  rewrite b64_step_char by dlia. cbn [N.eqb Pos.eqb].
  rewrite b64_step_char by dlia. cbn [N.eqb Pos.eqb].
  rewrite b64_step_char by dlia. cbn [N.eqb Pos.eqb].
  f_equal. repeat f_equal; apply byte_of_N_eq; fold n0 n1 n2; dlia.
Qed.

Lemma b64_two_pads l out :
  b64_step (b64_step (mkB64 2 l 0 out false) b64_pad) b64_pad
  = mkB64 2 l 2 out true.
Proof. reflexivity. Qed.

Lemma b64_one_pad l out :
  b64_step (mkB64 3 l 0 out false) b64_pad = mkB64 3 l 1 out true.
Proof. reflexivity. Qed.

Lemma b64_decode_encode_state bs : forall out,
  exists st,
    fold_left b64_step (urlsafe_b64encode bs) (mkB64 0 0 0 out false) = st
    /\ (finished st || (quad_pos st =? 0)%N) = true
    /\ out_rev st = rev bs ++ out.
Proof.
  induction bs as [bs IH] using (induction_ltof1 _ (@List.length _)).
  unfold ltof in IH. intros out.
  destruct bs as [|b0 [|b1 [|b2 rest]]].
  - eexists. split; [reflexivity|]. split; reflexivity.
  - pose proof (to_N_lt b0).
    eexists. split; [reflexivity|].
    cbn [urlsafe_b64encode].
    cbn [fold_left].
    rewrite b64_step_char by dlia. cbn [N.eqb].
    rewrite b64_step_char by dlia. cbn [N.eqb Pos.eqb].
    rewrite b64_two_pads. cbn [finished out_rev orb rev app].
    split; [reflexivity|]. f_equal. apply byte_of_N_eq. dlia.
  - pose proof (to_N_lt b0). pose proof (to_N_lt b1).
    eexists. split; [reflexivity|].
    cbn [urlsafe_b64encode].
    cbn [fold_left].
    rewrite b64_step_char by dlia. cbn [N.eqb].
    rewrite b64_step_char by dlia. cbn [N.eqb Pos.eqb].
    rewrite b64_step_char by dlia. cbn [N.eqb Pos.eqb].
    rewrite b64_one_pad. cbn [finished out_rev orb rev app].
    split; [reflexivity|]. f_equal; [|f_equal]; apply byte_of_N_eq; dlia.
  - cbn [urlsafe_b64encode]. rewrite fold_left_app, b64_decode_group.
    destruct (IH rest ltac:(cbn; lia) (b2 :: b1 :: b0 :: out)) as (st & E & F & O).
    exists st. split; [exact E|]. split; [exact F|].
    rewrite O. cbn [rev]. now rewrite <- !app_assoc.
Qed.

Lemma urlsafe_b64decode_encode bs :
  urlsafe_b64decode (urlsafe_b64encode bs) = Some bs.
Proof.
  unfold urlsafe_b64decode.
  destruct (b64_decode_encode_state bs []) as (st & E & F & O).
  rewrite E, F, O, app_nil_r. now rewrite rev_involutive.
Qed.

(** ** Padding round trip *)

Lemma last_app_repeat {A} (l : list A) (x d : A) n :
  (0 < n)%nat -> List.last (l ++ repeat x n) d = x.
Proof.
  intros Hn. destruct n as [|n]; [lia|].
  replace (repeat x (S n)) with (repeat x n ++ [x]).
  - now rewrite app_assoc, last_last.
  - change [x] with (repeat x 1). rewrite <- repeat_app. f_equal. lia.
Qed.

Lemma pkcs7_pad_length data :
  (List.length (pkcs7_pad data) mod 16 = 0)%nat
  /\ (0 < List.length (pkcs7_pad data))%nat.
Proof.
  unfold pkcs7_pad. rewrite length_app, repeat_length.
  pose proof (Nat.mod_upper_bound (List.length data) 16 ltac:(lia)).
  pose proof (Nat.div_mod_eq (List.length data) 16).
  split; [|lia].
  replace (List.length data + (16 - List.length data mod 16))%nat
    with ((List.length data / 16 + 1) * 16)%nat by lia.
  apply Nat.Div0.mod_mul.
Qed.

Lemma pkcs7_unpad_pad data : pkcs7_unpad (pkcs7_pad data) = Some data.
Proof.
  destruct (pkcs7_pad_length data) as [Hmod Hpos].
  unfold pkcs7_unpad. rewrite Hmod.
  destruct (List.length (pkcs7_pad data) =? 0)%nat eqn:E;
    [apply Nat.eqb_eq in E; lia|].
  cbn [orb negb Nat.eqb].
  unfold pkcs7_pad in *.
  pose proof (Nat.mod_upper_bound (List.length data) 16 ltac:(lia)) as Hlt.
  set (n := (16 - List.length data mod 16)%nat) in *.
  assert (Hn : (1 <= n <= 16)%nat) by (unfold n; lia).
  rewrite last_app_repeat by lia.
  rewrite to_N_byte_of_N by lia. rewrite Nat2N.id.
  destruct (n =? 0)%nat eqn:E0; [apply Nat.eqb_eq in E0; lia|].
  destruct (16 <? n)%nat eqn:E1; [apply Nat.ltb_lt in E1; lia|].
  cbn [orb]. rewrite length_app, repeat_length.
  replace (List.length data + n - n)%nat with (List.length data) by lia.
  rewrite skipn_app, skipn_all, Nat.sub_diag. cbn [skipn app].
  rewrite firstn_app, firstn_all, Nat.sub_diag. cbn [firstn].
  rewrite app_nil_r.
  match goal with |- (if ?c then _ else _) = _ => replace c with true end;
    [reflexivity|].
  symmetry. apply forallb_forall. intros b Hb.
  apply repeat_spec in Hb. subst b. now apply bool_decide_eq_true.
Qed.

(** ** Base64 text is ASCII *)

Lemma b64_char_ascii s : (Byte.to_N (b64_char s) < 128)%N.
Proof.
  unfold b64_char.
  destruct (s <? 26)%N eqn:E1; [rewrite to_N_byte_of_N; dlia|].
  destruct (s <? 52)%N eqn:E2; [rewrite to_N_byte_of_N; dlia|].
  destruct (s <? 62)%N eqn:E3; [rewrite to_N_byte_of_N; dlia|].
  destruct (s =? 62)%N; vm_compute; reflexivity.
Qed.

Lemma urlsafe_b64encode_ascii bs : ascii_bytes (urlsafe_b64encode bs).
Proof.
  unfold ascii_bytes.
  induction bs as [bs IH] using (induction_ltof1 _ (@List.length _)).
  unfold ltof in IH.
  assert (Hpad : (Byte.to_N b64_pad < 128)%N) by (vm_compute; reflexivity).
  destruct bs as [|b0 [|b1 [|b2 rest]]]; cbn [urlsafe_b64encode].
  - constructor.
  - repeat constructor; first [apply b64_char_ascii | exact Hpad].
  - repeat constructor; first [apply b64_char_ascii | exact Hpad].
  - apply Forall_app. split.
    + repeat constructor; apply b64_char_ascii.
    + apply IH. cbn. lia.
Qed.

Lemma utf8_decode_ascii bs :
  ascii_bytes bs -> utf8_decode bs = Some (List.map Byte.to_N bs).
Proof.
  induction 1 as [|b bs Hb _ IH]; [reflexivity|].
  cbn [utf8_decode List.map]. rewrite N_ltb_true by assumption.
  now rewrite IH.
Qed.

Lemma utf8_encode_of_ascii bs :
  ascii_bytes bs -> utf8_encode (List.map Byte.to_N bs) = Some bs.
Proof.
  intros H. rewrite utf8_encode_ascii.
  - f_equal. rewrite map_map. rewrite <- (map_id bs) at 2.
    apply map_ext. intros b. apply byte_of_to_N.
  - apply forallb_forall. intros c Hc. apply in_map_iff in Hc as (b & <- & Hb).
    unfold is_ascii. apply N.ltb_lt.
    unfold ascii_bytes in H. rewrite Forall_forall in H. apply H.
    now apply list_elem_of_In.
Qed.

(** ** Field encryption *)

Lemma be_bytes_length width n : List.length (be_bytes width n) = width.
Proof. unfold be_bytes. now rewrite length_map, length_rev, length_seq. Qed.

(** The parts of a token are found again where [decrypt] looks for them. *)
Lemma fernet_layout (version : Byte.byte) (ts iv ct tag : bytes) :
  List.length ts = 8%nat -> List.length iv = 16%nat -> List.length tag = 32%nat ->
  let data := ([version] ++ ts ++ iv ++ ct) ++ tag in
  signed_part data = [version] ++ ts ++ iv ++ ct
  /\ tag_part data = tag
  /\ firstn 16 (skipn 9 data) = iv
  /\ firstn (List.length data - 32 - 25) (skipn 25 data) = ct.
Proof.
  intros Hts Hiv Htag data. unfold signed_part, tag_part, data.
  rewrite length_app, Htag, Nat.add_sub.
  split; [now apply take_app_length'|].
  split; [now apply drop_app_length'|].
  split.
  - replace (([version] ++ ts ++ iv ++ ct) ++ tag)
      with (([version] ++ ts) ++ iv ++ ct ++ tag) by now rewrite <- !app_assoc.
    rewrite drop_app_length' by (cbn; lia).
    now apply take_app_length'.
  - replace (List.length ([version] ++ ts ++ iv ++ ct) - 25)%nat
      with (List.length ct) by (rewrite !length_app; cbn; lia).
    replace (([version] ++ ts ++ iv ++ ct) ++ tag)
      with (([version] ++ ts ++ iv) ++ ct ++ tag) by now rewrite <- !app_assoc.
    rewrite drop_app_length' by (rewrite !length_app; cbn; lia).
    now apply take_app_length'.
Qed.

Section FieldCipher.

Variable aes_cbc_encrypt : bytes -> bytes -> bytes -> bytes.
Variable aes_cbc_decrypt : bytes -> bytes -> bytes -> bytes.
Variable hmac_sha256 : bytes -> bytes -> bytes.
Variables signing_key encryption_key : bytes.

Hypothesis hmac_sha256_length :
  forall key msg, List.length (hmac_sha256 key msg) = 32%nat.
Hypothesis aes_cbc_length :
  forall key iv data,
    List.length (aes_cbc_encrypt key iv data) = List.length data.
Hypothesis aes_cbc_decrypt_encrypt :
  forall key iv data,
    List.length iv = 16%nat -> (List.length data mod 16 = 0)%nat ->
    aes_cbc_decrypt key iv (aes_cbc_encrypt key iv data) = data.

Local Abbreviation encrypt :=
  (fernet_encrypt aes_cbc_encrypt hmac_sha256 signing_key encryption_key).
Local Abbreviation decrypt :=
  (fernet_decrypt aes_cbc_decrypt hmac_sha256 signing_key encryption_key).

Local Abbreviation token_of :=
  (fernet_token aes_cbc_encrypt hmac_sha256 signing_key encryption_key).

Lemma fernet_decrypt_data (ts iv plain : bytes) w :
  List.length ts = 8%nat -> List.length iv = 16%nat ->
  decrypt (token_of ts iv plain) w = (inr plain, w).
Proof.
  intros Hts Hiv. unfold fernet_token.
  set (basic_parts := [byte_of_N 128] ++ ts ++ iv ++ _).
  unfold fernet_decrypt.
  rewrite urlsafe_b64decode_encode.
  destruct (fernet_layout (byte_of_N 128) ts iv
              (aes_cbc_encrypt encryption_key iv (pkcs7_pad plain))
              (hmac_sha256 signing_key basic_parts) Hts Hiv
              (hmac_sha256_length _ _)) as (Hs & Ht & Hi & Hc).
  fold basic_parts in Hs, Ht, Hi, Hc.
  rewrite Hs, Ht, Hi, Hc.
  change (match basic_parts ++ hmac_sha256 signing_key basic_parts with
          | [] => true
          | b :: _ => negb (Byte.to_N b =? 128)%N
          end) with false. cbv iota.
  replace (List.length (basic_parts ++ hmac_sha256 signing_key basic_parts) <? 9)%nat
    with false.
  2:{ symmetry. apply Nat.ltb_ge. unfold basic_parts.
      rewrite !length_app, Hts. cbn. lia. }
  rewrite bool_decide_eq_true_2 by reflexivity. cbn [negb].
  rewrite Hiv. cbn [Nat.eqb negb].
  rewrite aes_cbc_length. destruct (pkcs7_pad_length plain) as [Hmod _].
  rewrite Hmod. cbn [Nat.eqb negb].
  rewrite aes_cbc_decrypt_encrypt by assumption.
  now rewrite pkcs7_unpad_pad.
Qed.

Lemma fernet_encrypt_run (plain : bytes) w :
  timestamp_fits w ->
  exists ts iv w',
    List.length ts = 8%nat /\ List.length iv = 16%nat
    /\ encrypt plain w = (inr (token_of ts iv plain), w').
Proof.
  intros [Hlo Hhi]. unfold fernet_encrypt.
  erewrite bind_ok
    by (unfold time_time; erewrite bind_ok by (unfold utcnow; reflexivity); reflexivity).
  destruct (token_bytes_spec 16 (tick w)) as (iv & w' & Eiv & Liv).
  erewrite bind_ok by exact Eiv.
  unfold encrypt_from_parts.
  erewrite bind_ok.
  2:{ unfold to_bytes8. apply Z.ltb_ge in Hlo. rewrite Hlo.
      apply Z.leb_gt in Hhi. rewrite Hhi. reflexivity. }
  eexists _, iv, w'. split; [apply be_bytes_length|]. split; [exact Liv|].
  reflexivity.
Qed.

(** The blob is the base64 text of the token, read as a string. *)
Lemma encrypt_field_run (m : str) (plain : bytes) (w : World) :
  utf8_encode m = Some plain ->
  timestamp_fits w ->
  exists ts iv w',
    List.length ts = 8%nat /\ List.length iv = 16%nat
    /\ encrypt_field aes_cbc_encrypt hmac_sha256 signing_key encryption_key m w
       = (inr (List.map Byte.to_N (token_of ts iv plain)), w').
Proof.
  intros Eplain Hclock.
  destruct (fernet_encrypt_run plain w Hclock) as (ts & iv & w' & Hts & Hiv & Henc).
  exists ts, iv, w'. split; [exact Hts|]. split; [exact Hiv|].
  unfold encrypt_field.
  erewrite bind_ok by (unfold str_encode; rewrite Eplain; reflexivity).
  erewrite bind_ok by exact Henc.
  unfold bytes_decode.
  now rewrite utf8_decode_ascii by apply urlsafe_b64encode_ascii.
Qed.

Lemma decrypt_field_token (m : str) (plain ts iv : bytes) (later : World) :
  utf8_encode m = Some plain ->
  List.length ts = 8%nat -> List.length iv = 16%nat ->
  decrypt_field aes_cbc_decrypt hmac_sha256 signing_key encryption_key
    (List.map Byte.to_N (token_of ts iv plain)) later
  = (inr m, later).
Proof.
  intros Eplain Hts Hiv. unfold decrypt_field.
  erewrite bind_ok.
  2:{ unfold str_encode.
      rewrite utf8_encode_of_ascii by apply urlsafe_b64encode_ascii.
      reflexivity. }
  erewrite bind_ok by (now apply fernet_decrypt_data).
  unfold bytes_decode. now rewrite (utf8_decode_encode _ _ Eplain).
Qed.

(** C2, as amended.  For every plaintext string that UTF-8 can encode (a
    string without surrogate code points), [encrypt_field] returns a blob,
    provided the clock fits the token's timestamp, and [decrypt_field] of
    that blob returns the plaintext, at any later time.  The cipher is
    assumed to decrypt what it encrypted and the keyed hash to have 32
    bytes. *)
Theorem decrypt_field_encrypt_field (m : str) (w : World) :
  utf8_encode m <> None ->
  timestamp_fits w ->
  exists blob w',
    encrypt_field aes_cbc_encrypt hmac_sha256 signing_key encryption_key m w
    = (inr blob, w')
    /\ forall later : World,
         decrypt_field aes_cbc_decrypt hmac_sha256 signing_key encryption_key
           blob later
         = (inr m, later).
Proof.
  intros Hm Hclock.
  destruct (utf8_encode m) as [plain|] eqn:Eplain; [|congruence].
  destruct (encrypt_field_run m plain w Eplain Hclock)
    as (ts & iv & w' & Hts & Hiv & Henc).
  eexists _, w'. split; [exact Henc|].
  intros later. now apply decrypt_field_token.
Qed.


Lemma to_bytes8_ok_inv n w ts w' :
  to_bytes8 n w = (inr ts, w') -> 0 <= n < 18446744073709551616.
Proof.
  unfold to_bytes8.
  destruct (n <? 0) eqn:E1; [discriminate|].
  destruct (18446744073709551616 <=? n) eqn:E2; [discriminate|].
  intros _. apply Z.ltb_ge in E1. apply Z.leb_gt in E2. lia.
Qed.

Lemma fernet_encrypt_ok_inv plain w token w' :
  encrypt plain w = (inr token, w') -> timestamp_fits w.
Proof.
  unfold fernet_encrypt. intros H.
  apply bind_inv_ok in H as (t & w3 & Ht & H).
  apply bind_inv_ok in H as (iv & w4 & _ & H).
  unfold encrypt_from_parts in H.
  apply bind_inv_ok in H as (ts & w5 & Hts & _).
  apply to_bytes8_ok_inv in Hts.
  unfold time_time in Ht.
  apply bind_inv_ok in Ht as (now & w6 & Hnow & Hret).
  unfold utcnow in Hnow. unfold ret in Hret.
  unfold timestamp_fits. congruence.
Qed.

Lemma encrypt_field_ok_inv (m blob : str) (w w' : World) :
  encrypt_field aes_cbc_encrypt hmac_sha256 signing_key encryption_key m w
  = (inr blob, w') ->
  utf8_encode m <> None /\ timestamp_fits w.
Proof.
  unfold encrypt_field. intros H.
  apply bind_inv_ok in H as (plain & w1 & Hplain & H).
  apply bind_inv_ok in H as (token & w2 & Htoken & _).
  unfold str_encode in Hplain.
  destruct (utf8_encode m); [|discriminate Hplain].
  split; [discriminate|].
  unfold ret in Hplain. injection Hplain as _ <-.
  now apply fernet_encrypt_ok_inv in Htoken.
Qed.

(** C3, as amended.  What [decrypt_field] enforces is the tag.  A blob
    whose text is not base64, or whose decoded bytes do not end in the
    HMAC, under the process key, of the bytes before it, is rejected with
    [InvalidToken]: no plaintext comes out of a blob without a valid tag,
    be it tampered with, truncated or made under another key.  A blob that
    decodes to the same bytes as a blob [encrypt_field] returned is
    accepted and yields the plaintext that was encrypted, also when its
    text differs.  (Of bytes that differ and still carry a valid tag, a
    forgery, nothing is said.) *)
Theorem decrypt_field_checks_tag :
  (forall (blob : str) (token : bytes) (later : World),
      utf8_encode blob = Some token ->
      match urlsafe_b64decode token with
      | Some data => hmac_sha256 signing_key (signed_part data) <> tag_part data
      | None => True
      end ->
      decrypt_field aes_cbc_decrypt hmac_sha256 signing_key encryption_key
        blob later
      = (inl InvalidToken, later))
  /\ (forall (m blob blob' : str) (token token' : bytes) (w w' later : World),
        encrypt_field aes_cbc_encrypt hmac_sha256 signing_key encryption_key m w
        = (inr blob, w') ->
        utf8_encode blob = Some token ->
        utf8_encode blob' = Some token' ->
        urlsafe_b64decode token' = urlsafe_b64decode token ->
        decrypt_field aes_cbc_decrypt hmac_sha256 signing_key encryption_key
          blob' later
        = (inr m, later)).
Proof.
  split.
  - intros blob token later Htoken Hbad.
    unfold decrypt_field, str_encode. rewrite Htoken.
    erewrite bind_ok by reflexivity.
    apply bind_raise. unfold fernet_decrypt.
    destruct (urlsafe_b64decode token) as [data|]; [|reflexivity].
    destruct (match data with [] => true | b :: _ => _ end); [reflexivity|].
    destruct (List.length data <? 9)%nat; [reflexivity|].
    now rewrite bool_decide_eq_false_2.
  - intros m blob blob' token token' w w' later Henc Htoken Htoken' Hsame.
    destruct (encrypt_field_ok_inv _ _ _ _ Henc) as [Hm Hclock].
    destruct (utf8_encode m) as [plain|] eqn:Eplain; [|congruence].
    destruct (encrypt_field_run m plain w Eplain Hclock)
      as (ts & iv & w0 & Hts & Hiv & Henc0).
    assert (Hblob : blob = List.map Byte.to_N (token_of ts iv plain)) by congruence.
    subst blob.
    rewrite <- (decrypt_field_token m plain ts iv later Eplain Hts Hiv).
    unfold decrypt_field, str_encode. rewrite Htoken, Htoken'.
    erewrite !bind_ok by reflexivity.
    unfold fernet_decrypt. now rewrite Hsame.
Qed.

End FieldCipher.

(** *** The stand-in primitives satisfy the assumptions *)

Lemma sample_hmac256_length key msg :
  List.length (sample_hmac256 key msg) = 32%nat.
Proof. apply be_bytes_length. Qed.

Lemma sample_cbc_length key iv data :
  List.length (sample_cbc_encrypt key iv data) = List.length data.
Proof. apply length_map. Qed.

Lemma byte_sum_lt l : (byte_sum l < 256)%N.
Proof.
  unfold byte_sum.
  assert (H : forall acc, (acc < 256)%N ->
            (fold_left (fun acc b => (acc + Byte.to_N b) mod 256)%N l acc < 256)%N).
  { induction l as [|b l IH]; intros acc Hacc; cbn [fold_left]; [assumption|].
    apply IH. apply N.mod_lt. lia. }
  apply H. lia.
Qed.

Lemma sample_cbc_decrypt_encrypt key iv data :
  List.length iv = 16%nat -> (List.length data mod 16 = 0)%nat ->
  sample_cbc_decrypt key iv (sample_cbc_encrypt key iv data) = data.
Proof.
  intros _ _. unfold sample_cbc_decrypt, sample_cbc_encrypt.
  rewrite map_map. rewrite <- (map_id data) at 2.
  apply map_ext. intros b.
  pose proof (byte_sum_lt (key ++ iv)). pose proof (to_N_lt b).
  rewrite to_N_byte_of_N by (apply N.mod_lt; lia).
  apply byte_of_N_eq. dlia.
Qed.

(** *** Worked examples *)

(** ["hello"] comes back. *)
Lemma decrypt_field_encrypt_field_witness :
  exists blob w',
    encrypt_field sample_cbc_encrypt sample_hmac256 sample_signing_key
      sample_encryption_key (py "hello") (sample_world []) = (inr blob, w')
    /\ decrypt_field sample_cbc_decrypt sample_hmac256 sample_signing_key
         sample_encryption_key blob w' = (inr (py "hello"), w').
Proof.
  destruct (decrypt_field_encrypt_field sample_cbc_encrypt sample_cbc_decrypt
              sample_hmac256 sample_signing_key sample_encryption_key
              sample_hmac256_length sample_cbc_length sample_cbc_decrypt_encrypt
              (py "hello") (sample_world []))
    as (blob & w' & Henc & Hdec).
  - vm_compute. discriminate.
  - split; vm_compute; [discriminate | reflexivity].
  - exists blob, w'. split; [exact Henc | apply Hdec].
Defined.

(** C2 as stated fails for a string that holds a lone surrogate code
    point, such as ["\ud800"]: [encrypt_field] raises [UnicodeEncodeError]
    and returns no blob. *)
Lemma encrypt_field_claim_counterexample :
  fst (encrypt_field sample_cbc_encrypt sample_hmac256 sample_signing_key
         sample_encryption_key [55296%N] (sample_world []))
  = inl UnicodeEncodeError.
Proof. by_evaluation. Qed.

Lemma sample_blob_encrypted :
  encrypt_field sample_cbc_encrypt sample_hmac256 sample_signing_key
    sample_encryption_key (py "hello") (sample_world [])
  = (inr sample_blob,
     snd (encrypt_field sample_cbc_encrypt sample_hmac256 sample_signing_key
            sample_encryption_key (py "hello") (sample_world []))).
Proof.
  rewrite (surjective_pairing (encrypt_field _ _ _ _ _ _)) at 1.
  apply (f_equal2 pair); [vm_compute; reflexivity | reflexivity].
Defined.

(** A blob with a damaged ciphertext is rejected; the blob whose text
    differs while its bytes do not is accepted. *)
Lemma decrypt_field_checks_tag_witness :
  decrypt_field sample_cbc_decrypt sample_hmac256 sample_signing_key
    sample_encryption_key damaged_blob (world_at 0)
  = (inl InvalidToken, world_at 0)
  /\ decrypt_field sample_cbc_decrypt sample_hmac256 sample_signing_key
       sample_encryption_key tampered_blob (world_at 0)
     = (inr (py "hello"), world_at 0).
Proof.
  destruct (decrypt_field_checks_tag sample_cbc_encrypt sample_cbc_decrypt
              sample_hmac256 sample_signing_key sample_encryption_key
              sample_hmac256_length sample_cbc_length sample_cbc_decrypt_encrypt)
    as [Hreject Haccept].
  split.
  - apply (Hreject damaged_blob (List.map byte_of_N damaged_blob)).
    + vm_compute. reflexivity.
    + vm_compute. discriminate.
  - apply (Haccept (py "hello") sample_blob tampered_blob
             (List.map byte_of_N sample_blob) (List.map byte_of_N tampered_blob)
             (sample_world []) _ (world_at 0) sample_blob_encrypted).
    + vm_compute. reflexivity.
    + vm_compute. reflexivity.
    + vm_compute. reflexivity.
Defined.

(** C3 as stated fails.  The blob of ["hello"] ends in [...5Vg==]; its
    last character before the padding carries two bits of data and four
    that the decoder drops.  With that one byte changed from [g] to [h] the
    blob differs from the valid one in a single byte, and [decrypt_field]
    does not fail: it returns ["hello"]. *)
Lemma decrypt_field_claim_counterexample :
  fst (encrypt_field sample_cbc_encrypt sample_hmac256 sample_signing_key
         sample_encryption_key (py "hello") (sample_world []))
  = inr sample_blob
  /\ nth 97 sample_blob 0%N = 103%N
  /\ nth 97 tampered_blob 0%N = 104%N
  /\ firstn 97 tampered_blob = firstn 97 sample_blob
  /\ skipn 98 tampered_blob = skipn 98 sample_blob
  /\ fst (decrypt_field sample_cbc_decrypt sample_hmac256 sample_signing_key
            sample_encryption_key tampered_blob (world_at 0))
     = inr (py "hello").
Proof. by_evaluation. Qed.

(** ** Random tokens and token hashing *)
Lemma token_bytes_run n : forall w,
  token_bytes n w = (inr (drawn_bytes n w), after_draw n w).
Proof.
  induction n as [|n IH]; intros w.
  - unfold after_draw. cbn. rewrite Nat.add_0_r. now destruct w.
  - cbn [token_bytes].
    erewrite bind_ok by (unfold next_byte; reflexivity).
    erewrite bind_ok by apply IH.
    unfold ret, drawn_bytes, after_draw. cbn [heap clock reads entropy drawn].
    f_equal; [f_equal|].
    + cbn [seq List.map]. rewrite Nat.add_0_r. f_equal.
      rewrite <- seq_shift, map_map. apply map_ext. intros i. f_equal. lia.
    + f_equal. lia.
Qed.

Lemma drawn_bytes_length n w : List.length (drawn_bytes n w) = n.
Proof. unfold drawn_bytes. now rewrite length_map, length_seq. Qed.

(** ** URL-safe tokens *)

Lemma b64_char_urlsafe s : is_urlsafe (Byte.to_N (b64_char s)) = true.
Proof.
  unfold b64_char.
  destruct (s <? 26)%N eqn:E1;
    [rewrite to_N_byte_of_N by dlia; unfold is_urlsafe; bool_hyps; now ncmp|].
  destruct (s <? 52)%N eqn:E2;
    [rewrite to_N_byte_of_N by dlia; unfold is_urlsafe; bool_hyps; now ncmp|].
  destruct (s <? 62)%N eqn:E3;
    [rewrite to_N_byte_of_N by dlia; unfold is_urlsafe; bool_hyps; now ncmp|].
  destruct (s =? 62)%N; vm_compute; reflexivity.
Qed.

Lemma urlsafe_b64encode_split bs :
  exists body,
    urlsafe_b64encode bs = body ++ repeat b64_pad (pad_count (List.length bs))
    /\ Forall (fun b => is_urlsafe (Byte.to_N b) = true) body
    /\ List.length body = ((4 * List.length bs + 2) / 3)%nat.
Proof.
  induction bs as [bs IH] using (induction_ltof1 _ (@List.length _)).
  unfold ltof in IH.
  destruct bs as [|b0 [|b1 [|b2 rest]]]; cbn [urlsafe_b64encode].
  - exists []. repeat split; constructor.
  - eexists [_; _]. split; [reflexivity|]. split; [|reflexivity].
    repeat constructor; apply b64_char_urlsafe.
  - eexists [_; _; _]. split; [reflexivity|]. split; [|reflexivity].
    repeat constructor; apply b64_char_urlsafe.
  - destruct (IH rest ltac:(cbn; lia)) as (body & E & F & L).
    eexists (_ :: _ :: _ :: _ :: body). split; [|split].
    + rewrite E. cbn [app List.length]. f_equal. f_equal. f_equal. f_equal. f_equal.
      f_equal. unfold pad_count.
      replace (S (S (S (List.length rest)))) with (List.length rest + 1 * 3)%nat by lia.
      now rewrite Nat.Div0.mod_add.
    + repeat (constructor; [apply b64_char_urlsafe|]). exact F.
    + cbn [List.length]. rewrite L.
      replace (4 * S (S (S (List.length rest))) + 2)%nat
        with (4 * List.length rest + 2 + 4 * 3)%nat by lia.
      rewrite Nat.div_add by lia. lia.
Qed.

Lemma lstrip_byte_repeat c k l :
  lstrip_byte c (repeat c k ++ l) = lstrip_byte c l.
Proof.
  induction k as [|k IH]; [reflexivity|].
  cbn [repeat app lstrip_byte]. now rewrite bool_decide_eq_true_2.
Qed.

Lemma lstrip_byte_none c l :
  Forall (fun b => b <> c) l -> lstrip_byte c l = l.
Proof.
  intros H. destruct H as [|b l Hb _]; [reflexivity|].
  cbn [lstrip_byte]. now rewrite bool_decide_eq_false_2.
Qed.

Lemma rstrip_byte_repeat c k body :
  Forall (fun b => b <> c) body ->
  rstrip_byte c (body ++ repeat c k) = body.
Proof.
  intros H. unfold rstrip_byte.
  rewrite rev_app_distr, rev_repeat, lstrip_byte_repeat.
  rewrite lstrip_byte_none; [apply rev_involutive|].
  apply List.Forall_forall. intros b Hb. apply in_rev in Hb.
  rewrite List.Forall_forall in H. now apply H.
Qed.

Lemma urlsafe_not_pad b : is_urlsafe (Byte.to_N b) = true -> b <> b64_pad.
Proof. intros H ->. vm_compute in H. discriminate. Qed.

Lemma urlsafe_ascii c : is_urlsafe c = true -> (c < 128)%N.
Proof.
  unfold is_urlsafe. intros H.
  repeat (apply orb_true_iff in H as [H|H]); bool_hyps;
    try apply N.eqb_eq in H; lia.
Qed.

(** The text [token_urlsafe] makes of the bytes drawn. *)
Lemma token_text bs :
  exists body,
    rstrip_byte b64_pad (urlsafe_b64encode bs) = body
    /\ urlsafe_b64encode bs = body ++ repeat b64_pad (pad_count (List.length bs))
    /\ Forall (fun b => is_urlsafe (Byte.to_N b) = true) body
    /\ List.length body = ((4 * List.length bs + 2) / 3)%nat.
Proof.
  destruct (urlsafe_b64encode_split bs) as (body & E & F & L).
  exists body. split; [|now repeat split].
  rewrite E. apply rstrip_byte_repeat.
  eapply List.Forall_impl; [|exact F]. intros b. apply urlsafe_not_pad.
Qed.

Lemma ascii_decode_urlsafe body w :
  Forall (fun b => is_urlsafe (Byte.to_N b) = true) body ->
  ascii_decode body w = (inr (List.map Byte.to_N body), w).
Proof.
  intros F. unfold ascii_decode.
  replace (forallb _ body) with true; [reflexivity|].
  symmetry. apply forallb_forall. intros b Hb.
  rewrite List.Forall_forall in F. apply N.ltb_lt, urlsafe_ascii. now apply F.
Qed.

Lemma randbytes_run available n w :
  0 <= n <= ssize_max -> n <= available ->
  randbytes available n w = token_bytes (Z.to_nat n) w.
Proof.
  intros [Hn Hmax] Hav. unfold randbytes.
  replace (n <? - ssize_max - 1) with false
    by (symmetry; apply Z.ltb_ge; unfold ssize_max in *; lia).
  apply Z.ltb_ge in Hn, Hmax, Hav. now rewrite Hn, Hmax, Hav.
Qed.

Lemma randbytes_ok_inv available n w bs :
  fst (randbytes available n w) = inr bs ->
  0 <= n <= ssize_max /\ n <= available.
Proof.
  unfold randbytes. intros H.
  destruct (n <? - ssize_max - 1) eqn:E1; [discriminate|].
  destruct (ssize_max <? n) eqn:E2; [discriminate|].
  destruct (n <? 0) eqn:E3; [discriminate|].
  destruct (available <? n) eqn:E4; [discriminate|].
  apply Z.ltb_ge in E2, E3, E4. lia.
Qed.

Lemma token_urlsafe_run available n w :
  0 <= n <= ssize_max -> n <= available ->
  exists body,
    token_urlsafe available n w
    = (inr (List.map Byte.to_N body), after_draw (Z.to_nat n) w)
    /\ urlsafe_b64encode (drawn_bytes (Z.to_nat n) w)
       = body ++ repeat b64_pad (pad_count (Z.to_nat n))
    /\ Forall (fun b => is_urlsafe (Byte.to_N b) = true) body
    /\ List.length body = ((4 * Z.to_nat n + 2) / 3)%nat.
Proof.
  intros Hn Hav. unfold token_urlsafe.
  erewrite bind_ok
    by (rewrite randbytes_run by assumption; apply token_bytes_run).
  destruct (token_text (drawn_bytes (Z.to_nat n) w)) as (body & E & S & F & L).
  rewrite drawn_bytes_length in S, L.
  exists body. rewrite E. split; [now apply ascii_decode_urlsafe|].
  now repeat split.
Qed.

(** X3.  [generate_secure_token(n)] raises [OverflowError] for an [n] that
    is no C [ssize_t], that is below [-2^63] or from [2^63] on, and
    [ValueError] for any other negative [n].  For an [n] from zero up to
    what the process can allocate it returns, after drawing exactly [n]
    bytes from the system generator and touching nothing else, a string of
    [ceil(4n/3)] characters, each one of [A-Za-z0-9_-]: no padding is left.
    Without an argument [n] is 32 and the token has 43 characters. *)
Theorem generate_secure_token_shape (available : Z) (length : option Z) (w : World) :
  let n := default 32 length in
  (n < - 2 ^ 63 \/ 2 ^ 63 <= n ->
   generate_secure_token available length w = (inl OverflowError, w))
  /\ (- 2 ^ 63 <= n < 0 ->
      generate_secure_token available length w = (inl ValueError, w))
  /\ (0 <= n < 2 ^ 63 -> n <= available ->
      exists tok,
        generate_secure_token available length w
        = (inr tok, after_draw (Z.to_nat n) w)
        /\ len tok = (4 * n + 2) / 3
        /\ forallb is_urlsafe tok = true).
Proof.
  intros n. unfold generate_secure_token. fold n.
  split; [|split].
  - intros Hn. unfold token_urlsafe, randbytes.
    replace ((n <? - ssize_max - 1) || (ssize_max <? n)) with true; [reflexivity|].
    symmetry. apply orb_true_iff. unfold ssize_max.
    destruct Hn; [left; apply Z.ltb_lt | right; apply Z.ltb_lt]; lia.
  - intros Hn. unfold token_urlsafe, randbytes.
    replace (n <? - ssize_max - 1) with false
      by (symmetry; apply Z.ltb_ge; unfold ssize_max; lia).
    replace (ssize_max <? n) with false
      by (symmetry; apply Z.ltb_ge; unfold ssize_max; lia).
    replace (n <? 0) with true by (symmetry; apply Z.ltb_lt; lia).
    reflexivity.
  - intros Hn Hav.
    assert (Hn' : 0 <= n <= ssize_max) by (unfold ssize_max; lia).
    destruct (token_urlsafe_run available n w Hn' Hav) as (body & R & _ & F & L).
    exists (List.map Byte.to_N body). split; [exact R|]. split.
    + unfold len. rewrite length_map, L.
      rewrite Nat2Z.inj_div, Nat2Z.inj_add, Nat2Z.inj_mul, Z2Nat.id by lia.
      reflexivity.
    + rewrite forallb_forall. intros c Hc.
      apply in_map_iff in Hc as (b & <- & Hb).
      rewrite List.Forall_forall in F. now apply F.
Qed.

Lemma map_to_N_inj (a b : bytes) :
  List.map Byte.to_N a = List.map Byte.to_N b -> a = b.
Proof.
  intros H. apply (f_equal (List.map byte_of_N)) in H.
  rewrite !map_map in H.
  rewrite !(map_ext _ (fun b => b) byte_of_to_N), !map_id in H. exact H.
Qed.

Lemma urlsafe_b64encode_inj a b :
  urlsafe_b64encode a = urlsafe_b64encode b -> a = b.
Proof.
  intros H. apply (f_equal urlsafe_b64decode) in H.
  rewrite !urlsafe_b64decode_encode in H. congruence.
Qed.

Lemma token_urlsafe_ok_inv available n w tok :
  fst (token_urlsafe available n w) = inr tok ->
  (0 <= n <= ssize_max /\ n <= available)
  /\ exists body,
       tok = List.map Byte.to_N body
       /\ urlsafe_b64encode (drawn_bytes (Z.to_nat n) w)
          = body ++ repeat b64_pad (pad_count (Z.to_nat n))
       /\ List.length body = ((4 * Z.to_nat n + 2) / 3)%nat.
Proof.
  intros H.
  assert (Hn : 0 <= n <= ssize_max /\ n <= available).
  { unfold token_urlsafe, bind in H.
    destruct (randbytes available n w) as [[e|bs] w1] eqn:E; [discriminate|].
    apply (randbytes_ok_inv available n w bs). now rewrite E. }
  split; [exact Hn|]. destruct Hn as [Hn Hav].
  destruct (token_urlsafe_run available n w Hn Hav) as (body & R & S & _ & L).
  rewrite R in H. exists body. cbn in H. split; [congruence|]. now split.
Qed.

(** X4.  The token keeps all the entropy drawn: two tokens that
    [generate_secure_token] returns are equal exactly when the bytes drawn
    for them were the same (and as many).  Stripping the padding loses
    nothing, since the length of the text tells how many bytes it holds. *)
Theorem generate_secure_token_injective (available : Z) (l1 l2 : option Z)
    (w1 w2 : World) (tok1 tok2 : str) :
  fst (generate_secure_token available l1 w1) = inr tok1 ->
  fst (generate_secure_token available l2 w2) = inr tok2 ->
  (tok1 = tok2 <->
   drawn_bytes (Z.to_nat (default 32 l1)) w1
   = drawn_bytes (Z.to_nat (default 32 l2)) w2).
Proof.
  unfold generate_secure_token.
  set (n1 := default 32 l1). set (n2 := default 32 l2).
  intros H1 H2.
  apply token_urlsafe_ok_inv in H1 as (Hn1 & b1 & -> & E1 & L1).
  apply token_urlsafe_ok_inv in H2 as (Hn2 & b2 & -> & E2 & L2).
  split.
  - intros H. apply map_to_N_inj in H. subst b2.
    assert (Hn : Z.to_nat n1 = Z.to_nat n2).
    { rewrite L1 in L2. clear - L2. generalize dependent (Z.to_nat n1).
      generalize (Z.to_nat n2). intros a b L2.
      pose proof (Nat.div_mod_eq (4 * a + 2) 3). pose proof (Nat.div_mod_eq (4 * b + 2) 3).
      pose proof (Nat.mod_upper_bound (4 * a + 2) 3). pose proof (Nat.mod_upper_bound (4 * b + 2) 3).
      lia. }
    apply urlsafe_b64encode_inj. rewrite E1, E2. now rewrite Hn.
  - intros H.
    assert (Hn : Z.to_nat n1 = Z.to_nat n2).
    { apply (f_equal (@List.length _)) in H.
      now rewrite !drawn_bytes_length in H. }
    rewrite H, Hn, E2 in E1. apply app_inv_tail in E1. congruence.
Qed.

Lemma generate_secure_token_injective_witness :
  py "q9D1Gj8" = py "0PUaP2SJrg" <->
  drawn_bytes 5 (sample_world []) = drawn_bytes 7 (after_draw 1 (sample_world [])).
Proof.
  apply (generate_secure_token_injective 4096 (Some 5) (Some 7)
           (sample_world []) (after_draw 1 (sample_world []))).
  - vm_compute. reflexivity.
  - vm_compute. reflexivity.
Defined.

(** ** Token hashing *)

Lemma sha256_length msg : List.length (sha256 msg) = 32%nat.
Proof.
  unfold sha256.
  destruct (fold_left sha256_block _ sha256_init) as [[[[[[[h0 h1] h2] h3] h4] h5] h6] h7].
  now rewrite !length_app, !be_bytes_length.
Qed.

Lemma hexlify_byte b :
  exists c1 c2,
    hexlify [b] = [c1; c2] /\ is_lower_hex c1 = true /\ is_lower_hex c2 = true.
Proof. destruct b; do 2 eexists; repeat split. Qed.

Lemma hexlify_shape bs :
  List.length (hexlify bs) = (2 * List.length bs)%nat
  /\ forallb is_lower_hex (hexlify bs) = true.
Proof.
  induction bs as [|b bs [IHl IHf]]; [split; reflexivity|].
  change (hexlify (b :: bs)) with (hexlify [b] ++ hexlify bs).
  destruct (hexlify_byte b) as (c1 & c2 & -> & H1 & H2).
  split.
  - cbn [app List.length]. rewrite IHl. lia.
  - cbn [app forallb]. now rewrite H1, H2, IHf.
Qed.

Lemma hash_token_run token bs w :
  utf8_encode token = Some bs ->
  hash_token token w = (inr (hexlify (sha256 bs)), w).
Proof. intros E. unfold hash_token, str_encode, bind. now rewrite E. Qed.

Lemma digest_shape bs :
  len (hexlify (sha256 bs)) = 64
  /\ forallb is_lower_hex (hexlify (sha256 bs)) = true.
Proof.
  destruct (hexlify_shape (sha256 bs)) as [L F]. split; [|exact F].
  unfold len. rewrite L, sha256_length. reflexivity.
Qed.

(** X5.  [hash_token] changes nothing and returns, for every token that
    UTF-8 can encode, a string of exactly 64 characters, each one of
    [0-9a-f]; for a token that holds a surrogate code point it raises
    [UnicodeEncodeError]. *)
Theorem hash_token_shape (token : str) (w : World) :
  match utf8_encode token with
  | Some _ =>
      exists digest,
        hash_token token w = (inr digest, w)
        /\ len digest = 64
        /\ forallb is_lower_hex digest = true
  | None => hash_token token w = (inl UnicodeEncodeError, w)
  end.
Proof.
  destruct (utf8_encode token) as [bs|] eqn:E.
  - exists (hexlify (sha256 bs)). split; [now apply hash_token_run|].
    apply digest_shape.
  - unfold hash_token, str_encode, bind. now rewrite E.
Qed.

(** X6.  A token from [generate_secure_token] can always be hashed:
    [hash_token] does not raise on it and returns 64 hexadecimal digits. *)
Theorem hash_token_of_secure_token (available : Z) (length : option Z)
    (w later : World) (tok : str) :
  fst (generate_secure_token available length w) = inr tok ->
  exists digest,
    hash_token tok later = (inr digest, later)
    /\ len digest = 64
    /\ forallb is_lower_hex digest = true.
Proof.
  intros H. unfold generate_secure_token in H.
  pose proof (token_urlsafe_ok_inv _ _ _ _ H) as [[Hn Hav] _].
  destruct (token_urlsafe_run available (default 32 length) w Hn Hav)
    as (body & R & _ & F & _).
  rewrite R in H. cbn in H. injection H as <-.
  eexists. split; [|apply digest_shape].
  apply hash_token_run. apply utf8_encode_of_ascii.
  eapply List.Forall_impl; [|exact F]. intros b. apply urlsafe_ascii.
Qed.

Lemma hash_token_of_secure_token_witness :
  exists digest,
    hash_token (py "q9D1Gj8") (world_at 0) = (inr digest, world_at 0)
    /\ len digest = 64
    /\ forallb is_lower_hex digest = true.
Proof.
  apply (hash_token_of_secure_token 4096 (Some 5) (sample_world [])).
  vm_compute. reflexivity.
Defined.

(** ** Backup codes and the bytes they are made of *)

Lemma after_draw_add a b w : after_draw b (after_draw a w) = after_draw (a + b) w.
Proof. unfold after_draw. cbn. f_equal. lia. Qed.

Lemma after_draw_0 w : after_draw 0 w = w.
Proof. unfold after_draw. rewrite Nat.add_0_r. now destruct w. Qed.

Lemma token_hex_run n w :
  token_hex n w = (inr (hexlify (drawn_bytes n w)), after_draw n w).
Proof. unfold token_hex. now erewrite bind_ok by apply token_bytes_run. Qed.

Section BackupEntropy.

Variable ucd_upper : codepoint -> str.

Lemma backup_codes_loop_run n : forall codes w,
  backup_codes_loop ucd_upper n codes w
  = (inr (codes ++ List.map (fun i => upper ucd_upper (hexlify (code_bytes i w)))
                     (seq 0 n)),
     after_draw (4 * n) w).
Proof.
  induction n as [|n IH]; intros codes w.
  - cbn. now rewrite app_nil_r, after_draw_0.
  - cbn [backup_codes_loop].
    erewrite bind_ok by apply token_hex_run.
    rewrite IH, after_draw_add.
    replace (4 + 4 * n)%nat with (4 * S n)%nat by lia. do 2 f_equal.
    rewrite <- app_assoc. f_equal.
    cbn [seq List.map app]. f_equal.
    + unfold code_bytes. now rewrite after_draw_0.
    + rewrite <- seq_shift, map_map. apply map_ext. intros i.
      unfold code_bytes. rewrite after_draw_add.
      now replace (4 + 4 * i)%nat with (4 * S i)%nat by lia.
Qed.

(** X7.  [generate_backup_codes(n)] is a function of the bytes the system
    generator yields: it draws exactly [4 n] of them, touches neither the
    heap nor the clock, and its [i]-th code is the uppercase hexadecimal
    text of the [i]-th group of four bytes. *)
Theorem generate_backup_codes_from_entropy (count : option Z) (w : World) :
  let n := Z.to_nat (default 10 count) in
  generate_backup_codes ucd_upper count w
  = (inr (List.map (fun i => upper ucd_upper (hexlify (code_bytes i w))) (seq 0 n)),
     after_draw (4 * n) w).
Proof. intros n. unfold generate_backup_codes. apply backup_codes_loop_run. Qed.

Lemma upper_hex_value b :
  exists c1 c2,
    upper ucd_upper (hexlify [b]) = [c1; c2]
    /\ byte_of_N (16 * unhex c1 + unhex c2) = b.
Proof. destruct b; do 2 eexists; split; reflexivity. Qed.

Lemma upper_hexlify_inj (a b : bytes) :
  upper ucd_upper (hexlify a) = upper ucd_upper (hexlify b) -> a = b.
Proof.
  revert b. induction a as [|x a IH]; intros [|y b] H.
  - reflexivity.
  - change (hexlify (y :: b)) with (hexlify [y] ++ hexlify b) in H.
    rewrite upper_app in H.
    destruct (upper_hex_value y) as (c1 & c2 & E & _). rewrite E in H. discriminate.
  - change (hexlify (x :: a)) with (hexlify [x] ++ hexlify a) in H.
    rewrite upper_app in H.
    destruct (upper_hex_value x) as (c1 & c2 & E & _). rewrite E in H. discriminate.
  - change (hexlify (x :: a)) with (hexlify [x] ++ hexlify a) in H.
    change (hexlify (y :: b)) with (hexlify [y] ++ hexlify b) in H.
    rewrite !upper_app in H.
    destruct (upper_hex_value x) as (c1 & c2 & Ex & Vx).
    destruct (upper_hex_value y) as (d1 & d2 & Ey & Vy).
    rewrite Ex, Ey in H. cbn [app] in H.
    injection H as -> -> H. f_equal; [congruence | now apply IH].
Qed.

(** X8.  Backup codes are not checked against each other: two codes of one
    call are equal exactly when the generator yielded the same four bytes
    for both.  A code keeps the 32 bits drawn for it. *)
Theorem backup_codes_equal_iff (count : option Z) (w : World) (codes : list str)
    (i j : nat) :
  fst (generate_backup_codes ucd_upper count w) = inr codes ->
  (i < List.length codes)%nat ->
  (j < List.length codes)%nat ->
  (nth i codes [] = nth j codes [] <-> code_bytes i w = code_bytes j w).
Proof.
  unfold generate_backup_codes. rewrite backup_codes_loop_run.
  set (f := fun i => upper ucd_upper (hexlify (code_bytes i w))).
  set (n := Z.to_nat (default 10 count)).
  unfold fst. rewrite app_nil_l. intros H. injection H as <-.
  rewrite length_map, length_seq. intros Hi Hj.
  rewrite (nth_indep _ [] (f 0%nat)) by (rewrite length_map, length_seq; exact Hi).
  rewrite (nth_indep _ [] (f 0%nat) (n := j))
    by (rewrite length_map, length_seq; exact Hj).
  rewrite !map_nth, !seq_nth by assumption.
  rewrite !Nat.add_0_l. subst f. cbv beta.
  split; [apply upper_hexlify_inj | intros ->; reflexivity].
Qed.

End BackupEntropy.

(** The generator of the sample world yields its bytes in an arithmetic
    progression, so the first two codes differ. *)
Lemma backup_codes_equal_iff_witness :
  py "ABD0F51A" = py "3F6489AE"
  <-> code_bytes 0 (sample_world []) = code_bytes 1 (sample_world []).
Proof.
  apply (backup_codes_equal_iff (fun c => [c]) (Some 3) (sample_world [])
           [py "ABD0F51A"; py "3F6489AE"; py "D3F81D42"] 0 1).
  - vm_compute. reflexivity.
  - cbn. lia.
  - cbn. lia.
Defined.

(** ** Frame: which dictionaries a computation leaves alone *)

Lemma leaves_ret {A} l (a : A) : leaves l (ret a).
Proof. now intros w. Qed.

Lemma leaves_raise {A} l e : leaves l (raise e : M A).
Proof. now intros w. Qed.

Lemma leaves_bind {A B} l (c : M A) (k : A -> M B) :
  leaves l c -> (forall a, leaves l (k a)) -> leaves l (bind c k).
Proof.
  intros Hc Hk w. unfold bind. specialize (Hc w).
  destruct (c w) as [[e|a] w1]; cbn in *; [exact Hc|].
  now rewrite Hk.
Qed.

Lemma leaves_reraise {A} l caught e (c : M A) :
  leaves l c -> leaves l (reraise caught e c).
Proof.
  intros Hc w. unfold reraise. specialize (Hc w).
  now destruct (c w) as [[e'|a] w1].
Qed.

Lemma leaves_utcnow l : leaves l utcnow.
Proof. now intros w. Qed.

Lemma leaves_next_byte l : leaves l next_byte.
Proof. now intros w. Qed.

Lemma leaves_deref l l' : leaves l (deref l').
Proof. intros w. unfold deref. now destruct (heap w !! l'). Qed.

Lemma leaves_assign l l' d : l <> l' -> leaves l (assign l' d).
Proof. intros Hne w. cbn. now rewrite lookup_insert_ne. Qed.

Lemma leaves_datetime_add l d delta : leaves l (datetime_add d delta).
Proof.
  unfold datetime_add.
  destruct (_ && _); [apply leaves_ret | apply leaves_raise].
Qed.

Lemma leaves_dict_update_at l l' other :
  l <> l' -> leaves l (dict_update_at l' other).
Proof.
  intros Hne. apply leaves_bind; [apply leaves_deref|].
  intros d. now apply leaves_assign.
Qed.

Create HintDb frame.

#[local] Hint Resolve leaves_ret leaves_raise leaves_utcnow leaves_deref
  leaves_assign leaves_datetime_add leaves_dict_update_at leaves_reraise
  : frame.

Lemma leaves_lift {A} l (r : exn + A) : leaves l (lift r).
Proof. destruct r; [apply leaves_raise | apply leaves_ret]. Qed.

Section TokenFrame.

Variable lib : Primitives.
Variable settings : Settings.

Lemma leaves_convert_time_claim l claims name :
  l <> claims -> leaves l (convert_time_claim claims name).
Proof.
  intros Hne. apply leaves_bind; [auto with frame|].
  intros d. destruct (dict_get d name) as [[]|]; auto with frame.
Qed.

Lemma leaves_jws_sign l claims key alg :
  leaves l (jws_sign lib claims key alg).
Proof.
  unfold jws_sign. destruct (negb _); [auto with frame|].
  apply leaves_bind; [apply leaves_lift | intros encoded_header].
  apply leaves_bind; [auto with frame | intros d].
  apply leaves_bind; [apply leaves_lift | intros encoded_payload].
  apply leaves_lift.
Qed.

Lemma leaves_jwt_encode l claims key alg :
  l <> claims -> leaves l (jwt_encode lib claims key alg).
Proof.
  intros Hne. unfold jwt_encode.
  repeat (apply leaves_bind; [now apply leaves_convert_time_claim | intros _]).
  apply leaves_jws_sign.
Qed.

(** A copy is a new object: it differs from every dictionary alive. *)
Lemma dict_copy_run data w :
  match heap w !! data with
  | Some c =>
      let l := fresh (dom (heap w)) in
      dict_copy data w = (inr l, set_heap (<[l := c]> (heap w)) w)
      /\ l <> data
  | None => dict_copy data w = (inl AttributeError, w)
  end.
Proof.
  unfold dict_copy, bind, deref.
  destruct (heap w !! data) as [c|] eqn:E; [|reflexivity].
  split; [reflexivity|].
  intros Heq. pose proof (is_fresh (dom (heap w))) as Hfresh.
  apply Hfresh. rewrite Heq. apply elem_of_dom. now exists c.
Qed.

Lemma after_copy_leaves {A} data (k : loc -> M A) w :
  (forall l, l <> data -> leaves data (k l)) ->
  heap (snd (bind (dict_copy data) k w)) !! data = heap w !! data.
Proof.
  intros Hk. pose proof (dict_copy_run data w) as Hc.
  destruct (heap w !! data) as [c|] eqn:E.
  - destruct Hc as [Hc Hne]. rewrite (bind_ok _ _ _ _ _ Hc).
    rewrite (Hk _ Hne). cbn. now rewrite lookup_insert_ne.
  - now rewrite (bind_raise _ _ _ _ _ Hc).
Qed.

(** C10.  Token issuance does not mutate its input: whatever the outcome
    of [create_access_token(d)] or [create_refresh_token(d)] (a token or an
    exception), the caller's dictionary [d] holds afterwards what it held
    before; the reserved claims go to a copy. *)
Theorem issuance_leaves_input (data : loc) (expires_delta : option Z) (w : World) :
  heap (snd (create_access_token lib settings data expires_delta w)) !! data
    = heap w !! data
  /\ heap (snd (create_refresh_token lib settings data w)) !! data
    = heap w !! data.
Proof.
  split.
  - unfold create_access_token. apply after_copy_leaves. intros l Hne.
    apply leaves_bind.
    { destruct (truthy expires_delta);
        (apply leaves_bind; [auto with frame | intros; auto with frame]). }
    intros expire. apply leaves_bind; [auto with frame|]. intros iat.
    apply leaves_bind; [auto with frame|]. intros _.
    now apply leaves_jwt_encode.
  - unfold create_refresh_token. apply after_copy_leaves. intros l Hne.
    apply leaves_bind; [auto with frame|]. intros now.
    apply leaves_bind; [auto with frame|]. intros expire.
    apply leaves_bind; [auto with frame|]. intros iat.
    apply leaves_bind; [auto with frame|]. intros _.
    now apply leaves_jwt_encode.
Qed.

End TokenFrame.
(** ** The compact serialisation of a token *)

Lemma filter_urlsafe_pads body k :
  Forall (fun b => is_urlsafe (Byte.to_N b) = true) body ->
  List.filter (fun b => negb (bool_decide (b = b64_pad))) (body ++ repeat b64_pad k)
  = body.
Proof.
  intros F. induction F as [|b body Hb _ IH]; cbn [app List.filter].
  - induction k as [|k IH]; [reflexivity|].
    cbn [repeat List.filter]. now rewrite bool_decide_eq_true_2.
  - rewrite bool_decide_eq_false_2 by now apply urlsafe_not_pad.
    cbn [negb]. now rewrite IH.
Qed.

(** The segment of [bs]: its base64 text without the padding. *)
Lemma base64url_encode_split bs :
  urlsafe_b64encode bs
  = base64url_encode bs ++ repeat b64_pad (pad_count (List.length bs))
  /\ Forall (fun b => is_urlsafe (Byte.to_N b) = true) (base64url_encode bs)
  /\ List.length (base64url_encode bs) = ((4 * List.length bs + 2) / 3)%nat.
Proof.
  destruct (urlsafe_b64encode_split bs) as (body & E & F & L).
  assert (Hb : base64url_encode bs = body).
  { unfold base64url_encode. rewrite E. now apply filter_urlsafe_pads. }
  rewrite Hb. now repeat split.
Qed.

Lemma segment_padding n :
  let l := ((4 * n + 2) / 3)%nat in
  (if (0 <? l mod 4)%nat then (4 - l mod 4)%nat else 0%nat) = pad_count n.
Proof.
  intros l. unfold pad_count. subst l.
  pose proof (Nat.div_mod_eq n 3) as Hn.
  pose proof (Nat.mod_upper_bound n 3 ltac:(lia)) as Hr.
  generalize dependent (n mod 3)%nat. generalize (n / 3)%nat.
  intros m r -> Hr.
  assert (r = 0 \/ r = 1 \/ r = 2)%nat as [->|[->| ->]] by lia.
  - replace (4 * (3 * m + 0) + 2)%nat with (2 + (4 * m) * 3)%nat by lia.
    rewrite Nat.div_add by lia. change (2 / 3)%nat with 0%nat.
    replace (0 + 4 * m)%nat with (0 + m * 4)%nat by lia.
    now rewrite Nat.Div0.mod_add.
  - replace (4 * (3 * m + 1) + 2)%nat with (6 + (4 * m) * 3)%nat by lia.
    rewrite Nat.div_add by lia. change (6 / 3)%nat with 2%nat.
    replace (2 + 4 * m)%nat with (2 + m * 4)%nat by lia.
    now rewrite Nat.Div0.mod_add.
  - replace (4 * (3 * m + 2) + 2)%nat with (10 + (4 * m) * 3)%nat by lia.
    rewrite Nat.div_add by lia. change (10 / 3)%nat with 3%nat.
    replace (3 + 4 * m)%nat with (3 + m * 4)%nat by lia.
    now rewrite Nat.Div0.mod_add.
Qed.

Lemma base64url_decode_encode bs :
  base64url_decode (base64url_encode bs) = Some bs.
Proof.
  destruct (base64url_encode_split bs) as (E & _ & L).
  unfold base64url_decode. rewrite L.
  pose proof (segment_padding (List.length bs)) as P. cbv zeta in P.
  destruct (0 <? _)%nat.
  - rewrite P, <- E. apply urlsafe_b64decode_encode.
  - rewrite <- P in E. cbn [repeat] in E. rewrite app_nil_r in E.
    rewrite <- E. apply urlsafe_b64decode_encode.
Qed.

Lemma split1_app sep (a b : bytes) :
  ~ In sep a -> split1 sep (a ++ sep :: b) = Some (a, b).
Proof.
  induction a as [|x a IH]; cbn [app split1 In]; intros Hn.
  - now rewrite bool_decide_eq_true_2.
  - rewrite bool_decide_eq_false_2 by (intros ->; tauto).
    rewrite IH by tauto. reflexivity.
Qed.

Lemma rsplit1_app sep (a b : bytes) :
  ~ In sep b -> rsplit1 sep (a ++ sep :: b) = Some (a, b).
Proof.
  intros Hn. unfold rsplit1.
  rewrite rev_app_distr. cbn [rev]. rewrite <- app_assoc. cbn [app].
  rewrite split1_app by (rewrite <- in_rev; exact Hn).
  now rewrite !rev_involutive.
Qed.

Lemma urlsafe_no_dot (l : bytes) :
  Forall (fun b => is_urlsafe (Byte.to_N b) = true) l -> ~ In dot l.
Proof.
  intros F Hin. rewrite List.Forall_forall in F.
  specialize (F _ Hin). vm_compute in F. discriminate.
Qed.

Lemma urlsafe_ascii_bytes (l : bytes) :
  Forall (fun b => is_urlsafe (Byte.to_N b) = true) l -> ascii_bytes l.
Proof.
  intros F. eapply List.Forall_impl; [|exact F]. intros b. apply urlsafe_ascii.
Qed.

Lemma jws_compact_ascii hb pb sig : ascii_bytes (jws_compact hb pb sig).
Proof.
  unfold jws_compact, ascii_bytes.
  assert (Hdot : (Byte.to_N dot < 128)%N) by (vm_compute; reflexivity).
  repeat (apply Forall_app; split);
    first [ apply urlsafe_ascii_bytes, base64url_encode_split
          | now repeat constructor ].
Qed.

Section Serialisation.

Variable lib : Primitives.

(** The text [jws.sign] joins is read back by [jws._load] as it was
    written. *)
Lemma load_jws_text (json_header json_payload signature : bytes) (header : dict) :
  json_loads lib json_header = inr (VDict header) ->
  load lib (jws_text json_header json_payload signature)
  = inr (header, json_payload,
         base64url_encode json_header ++ [dot] ++ base64url_encode json_payload,
         signature).
Proof.
  intros Hh. unfold load, jws_text.
  rewrite utf8_encode_of_ascii by apply jws_compact_ascii.
  unfold jws_compact.
  replace (base64url_encode json_header ++ [dot] ++ base64url_encode json_payload
             ++ [dot] ++ base64url_encode signature)
    with ((base64url_encode json_header ++ [dot] ++ base64url_encode json_payload)
            ++ dot :: base64url_encode signature)
    by (now rewrite <- !app_assoc).
  rewrite rsplit1_app by apply urlsafe_no_dot, base64url_encode_split.
  cbn [app].
  rewrite split1_app by apply urlsafe_no_dot, base64url_encode_split.
  now rewrite !base64url_decode_encode, Hh.
Qed.

Lemma sign_header_and_claims_run (json_header json_payload tag : bytes) alg key :
  key_sign lib alg key
    (base64url_encode json_header ++ [dot] ++ base64url_encode json_payload)
  = Some tag ->
  sign_header_and_claims lib (base64url_encode json_header)
    (base64url_encode json_payload) alg key
  = inr (jws_text json_header json_payload tag).
Proof.
  intros Hs. unfold sign_header_and_claims. rewrite Hs.
  replace ((base64url_encode json_header ++ [dot] ++ base64url_encode json_payload)
             ++ [dot] ++ base64url_encode tag)
    with (jws_compact json_header json_payload tag)
    by (unfold jws_compact; now rewrite <- !app_assoc).
  now rewrite utf8_decode_ascii by apply jws_compact_ascii.
Qed.

End Serialisation.

(** ** Issuing and decoding tokens *)

Lemma member_In s l : member s l = true <-> In s l.
Proof.
  unfold member. rewrite existsb_exists. split.
  - intros (x & Hin & Heq). apply str_eqb_eq in Heq. now subst.
  - intros Hin. exists s. split; [assumption | apply str_eqb_refl].
Qed.

Section TokenRuns.

Variable lib : Primitives.
Variable settings : Settings.

Lemma convert_time_claim_run l name w (d : dict) :
  heap w !! l = Some d ->
  exists w',
    convert_time_claim l name w = (inr tt, w')
    /\ heap w' !! l = Some (time_claim_converted d name)
    /\ clock w' = clock w /\ reads w' = reads w.
Proof.
  intros Hl. unfold convert_time_claim, time_claim_converted.
  erewrite bind_ok by (unfold deref; rewrite Hl; reflexivity).
  destruct (dict_get d name) as [[]|];
    try (exists w; repeat split; assumption).
  eexists. split; [reflexivity|]. cbn. rewrite lookup_insert_eq. auto.
Qed.

(** *** Signing *)

Lemma signed_inv (p : dict) tok :
  signed lib settings p = Some tok ->
  exists json_header json_payload tag,
    json_dumps lib true (VDict (jose_header (JWT_ALGORITHM settings))) = inr json_header
    /\ json_dumps lib false (VDict p) = inr json_payload
    /\ key_sign lib (JWT_ALGORITHM settings) (JWT_SECRET_KEY settings)
         (base64url_encode json_header ++ [dot] ++ base64url_encode json_payload)
       = Some tag
    /\ tok = jws_text json_header json_payload tag.
Proof.
  unfold signed.
  destruct (json_dumps lib true _) as [e|json_header]; [discriminate|].
  destruct (json_dumps lib false _) as [e|json_payload]; [discriminate|].
  destruct (key_sign _ _ _ _) as [tag|] eqn:Hs; [|discriminate].
  intros [= <-]. now exists json_header, json_payload, tag.
Qed.

Lemma signed_carries (p : dict) tok :
  signed lib settings p = Some tok -> carries lib tok p.
Proof.
  intros H. apply signed_inv in H as (jh & jp & tag & _ & Hp & _ & ->).
  now exists jh, jp, tag.
Qed.

Lemma shared_secret_signs (p : dict) :
  shared_secret lib settings -> writable lib p ->
  exists tok, signed lib settings p = Some tok.
Proof.
  intros (_ & _ & (jh & h & Hh & _) & Hkey) (jp & Hp).
  unfold signed. rewrite Hh, Hp.
  destruct (Hkey (base64url_encode jh ++ [dot] ++ base64url_encode jp))
    as (tag & -> & _).
  eauto.
Qed.

Lemma jws_sign_run l w (d : dict) tok :
  heap w !! l = Some d ->
  algorithm_supported lib (JWT_ALGORITHM settings) = true ->
  signed lib settings d = Some tok ->
  jws_sign lib l (JWT_SECRET_KEY settings) (JWT_ALGORITHM settings) w = (inr tok, w).
Proof.
  intros Hl Halg Hs.
  apply signed_inv in Hs as (jh & jp & tag & Hh & Hp & Hk & ->).
  unfold jws_sign. rewrite Halg. cbn [negb].
  unfold encode_header. rewrite Hh. unfold lift at 1.
  erewrite bind_ok by reflexivity.
  erewrite bind_ok by (unfold deref; rewrite Hl; reflexivity).
  unfold encode_payload. rewrite Hp. unfold lift at 1.
  erewrite bind_ok by reflexivity.
  now rewrite (sign_header_and_claims_run lib jh jp tag _ _ Hk).
Qed.

Lemma jwt_encode_run l w (d : dict) tok :
  heap w !! l = Some d ->
  algorithm_supported lib (JWT_ALGORITHM settings) = true ->
  signed lib settings (encoded_claims d) = Some tok ->
  exists w',
    jwt_encode lib l (JWT_SECRET_KEY settings) (JWT_ALGORITHM settings) w
    = (inr tok, w').
Proof.
  intros Hl Halg Hs. unfold jwt_encode.
  destruct (convert_time_claim_run l (py "exp") w d Hl) as (w1 & E1 & H1 & _).
  erewrite bind_ok by exact E1.
  destruct (convert_time_claim_run l (py "iat") w1 _ H1) as (w2 & E2 & H2 & _).
  erewrite bind_ok by exact E2.
  destruct (convert_time_claim_run l (py "nbf") w2 _ H2) as (w3 & E3 & H3 & _).
  erewrite bind_ok by exact E3.
  exists w3. now apply jws_sign_run with (d := encoded_claims d).
Qed.

(** The steps shared by the two issuing functions, from the copy on. *)
Lemma stamp_and_encode_run l w (c : dict) expire iat type tok :
  heap w !! l = Some c ->
  algorithm_supported lib (JWT_ALGORITHM settings) = true ->
  signed lib settings (issued_payload c expire iat type) = Some tok ->
  exists w',
    (dict_update_at l [(py "exp", VDatetime expire);
                       (py "iat", VDatetime iat);
                       (py "type", VStr type)] ;;;
     jwt_encode lib l (JWT_SECRET_KEY settings) (JWT_ALGORITHM settings)) w
    = (inr tok, w').
Proof.
  intros Hl Halg Hs.
  erewrite bind_ok.
  2:{ unfold dict_update_at. erewrite bind_ok by (unfold deref; rewrite Hl; reflexivity).
      reflexivity. }
  eapply jwt_encode_run; [|assumption|exact Hs].
  cbn. now rewrite lookup_insert_eq.
Qed.

(** *** What an issued payload holds *)

Ltac py_neq := let H := fresh in intros H; vm_compute in H; discriminate H.

Lemma reserved_false k :
  reserved k = false ->
  k <> py "exp" /\ k <> py "iat" /\ k <> py "type".
Proof.
  unfold reserved. intros H.
  apply orb_false_iff in H as [H H3]. apply orb_false_iff in H as [H1 H2].
  repeat split; intros ->; now rewrite str_eqb_refl in *.
Qed.

Lemma issued_exp c e i ty :
  dict_get (issued_payload c e i ty) (py "exp") = Some (VInt (timegm e)).
Proof.
  unfold issued_payload, encoded_claims, dict_update. cbn [fold_left fst snd].
  rewrite !dict_get_converted_ne by py_neq.
  rewrite dict_get_converted_eq.
  rewrite !dict_get_set_ne by py_neq.
  now rewrite dict_get_set_eq.
Qed.

Lemma issued_iat c e i ty :
  dict_get (issued_payload c e i ty) (py "iat") = Some (VInt (timegm i)).
Proof.
  unfold issued_payload, encoded_claims, dict_update. cbn [fold_left fst snd].
  rewrite !dict_get_converted_ne by py_neq.
  rewrite dict_get_converted_eq.
  rewrite dict_get_converted_ne by py_neq.
  rewrite !dict_get_set_ne by py_neq.
  now rewrite dict_get_set_eq.
Qed.

Lemma issued_type c e i ty :
  dict_get (issued_payload c e i ty) (py "type") = Some (VStr ty).
Proof.
  unfold issued_payload, encoded_claims, dict_update. cbn [fold_left fst snd].
  rewrite !dict_get_converted_ne by py_neq.
  now rewrite dict_get_set_eq.
Qed.

Lemma issued_nbf c e i ty :
  dict_get (issued_payload c e i ty) (py "nbf") =
  match dict_get c (py "nbf") with
  | Some (VDatetime t) => Some (VInt (timegm t))
  | other => other
  end.
Proof.
  unfold issued_payload, encoded_claims, dict_update. cbn [fold_left fst snd].
  rewrite dict_get_converted_eq.
  rewrite !dict_get_converted_ne by py_neq.
  now rewrite !dict_get_set_ne by py_neq.
Qed.

Lemma issued_other c e i ty k :
  reserved k = false -> k <> py "nbf" ->
  dict_get (issued_payload c e i ty) k = dict_get c k.
Proof.
  intros Hr Hn. apply reserved_false in Hr as (H1 & H2 & H3).
  unfold issued_payload, encoded_claims, dict_update. cbn [fold_left fst snd].
  rewrite !dict_get_converted_ne by congruence.
  now rewrite !dict_get_set_ne by congruence.
Qed.

Lemma is_dict_issued c e i ty : is_dict c -> is_dict (issued_payload c e i ty).
Proof.
  intros Hc. unfold issued_payload, encoded_claims, dict_update.
  cbn [fold_left fst snd].
  repeat apply is_dict_converted. now repeat apply is_dict_set.
Qed.


(** *** Running the issuing functions *)

Lemma datetime_add_run d delta w :
  in_datetime_range (d + delta) ->
  datetime_add d delta w = (inr (d + delta), w).
Proof.
  intros [Hlo Hhi]. unfold datetime_add.
  apply Z.leb_le in Hlo, Hhi. now rewrite Hlo, Hhi.
Qed.

Lemma create_access_token_run data (c : dict) expires_delta w tok :
  let expire := clock w (reads w) + access_lifetime settings expires_delta in
  let iat := clock w (S (reads w)) in
  heap w !! data = Some c ->
  algorithm_supported lib (JWT_ALGORITHM settings) = true ->
  in_datetime_range expire ->
  signed lib settings (issued_payload c expire iat (py "access")) = Some tok ->
  exists w', create_access_token lib settings data expires_delta w = (inr tok, w').
Proof.
  intros expire iat Hd Halg Hrange Hs. unfold create_access_token.
  pose proof (dict_copy_run data w) as Hcopy. rewrite Hd in Hcopy.
  destruct Hcopy as [Hcopy _]. erewrite bind_ok by exact Hcopy.
  set (l := fresh (dom (heap w))). set (w1 := set_heap _ w).
  assert (Hexp : (if truthy expires_delta
                  then now <- utcnow ;; datetime_add now (default 0 expires_delta)
                  else now <- utcnow ;;
                       datetime_add now
                         (timedelta_minutes (ACCESS_TOKEN_EXPIRE_MINUTES settings))) w1
                 = (inr expire, tick w1)).
  { unfold expire, access_lifetime in *.
    destruct (truthy expires_delta);
      (erewrite bind_ok by (unfold utcnow; reflexivity));
      now apply datetime_add_run. }
  erewrite bind_ok by exact Hexp.
  erewrite bind_ok by (unfold utcnow; reflexivity).
  eapply stamp_and_encode_run; [|assumption|exact Hs].
  cbn. apply lookup_insert_eq.
Qed.

Lemma create_refresh_token_run data (c : dict) w tok :
  let expire := clock w (reads w)
                + timedelta_days (REFRESH_TOKEN_EXPIRE_DAYS settings) in
  let iat := clock w (S (reads w)) in
  heap w !! data = Some c ->
  algorithm_supported lib (JWT_ALGORITHM settings) = true ->
  in_datetime_range expire ->
  signed lib settings (issued_payload c expire iat (py "refresh")) = Some tok ->
  exists w', create_refresh_token lib settings data w = (inr tok, w').
Proof.
  intros expire iat Hd Halg Hrange Hs. unfold create_refresh_token.
  pose proof (dict_copy_run data w) as Hcopy. rewrite Hd in Hcopy.
  destruct Hcopy as [Hcopy _]. erewrite bind_ok by exact Hcopy.
  erewrite bind_ok by (unfold utcnow; reflexivity).
  erewrite bind_ok by (now apply datetime_add_run).
  erewrite bind_ok by (unfold utcnow; reflexivity).
  eapply stamp_and_encode_run; [|assumption|exact Hs].
  cbn. apply lookup_insert_eq.
Qed.

(** *** Running [decode_token] *)

(** A token signed under the shared secret passes the signature check. *)
Lemma jws_verify_signed (p : dict) tok :
  shared_secret lib settings ->
  signed lib settings p = Some tok ->
  exists json_payload,
    json_dumps lib false (VDict p) = inr json_payload
    /\ jws_verify lib tok (JWT_SECRET_KEY settings) [JWT_ALGORITHM settings]
       = inr json_payload.
Proof.
  intros (Hne & _ & (jh' & h & Hh' & Hload & Halg) & Hkey) Hs.
  apply signed_inv in Hs as (jh & jp & tag & Hh & Hp & Hk & ->).
  rewrite Hh in Hh'. injection Hh' as <-.
  exists jp. split; [exact Hp|].
  unfold jws_verify. rewrite (load_jws_text lib jh jp tag h Hload).
  unfold verify_signature. rewrite Halg.
  replace (truthy_value (VStr (JWT_ALGORITHM settings))) with true
    by (destruct (JWT_ALGORITHM settings); [congruence | reflexivity]).
  replace (member (JWT_ALGORITHM settings) [JWT_ALGORITHM settings]) with true
    by (symmetry; apply member_In; now left).
  cbn [negb].
  destruct (Hkey (base64url_encode jh ++ [dot] ++ base64url_encode jp))
    as (tag' & Hk' & Hcheck).
  rewrite Hk in Hk'. injection Hk' as <-.
  now rewrite Hcheck, bool_decide_eq_true_2.
Qed.

Lemma validate_claims_run (claims : dict) e i w :
  dict_get claims (py "exp") = Some (VInt e) ->
  dict_get claims (py "iat") = Some (VInt i) ->
  dict_get claims (py "nbf") = None ->
  dict_get claims (py "aud") = None ->
  dict_get claims (py "at_hash") = None ->
  absent_or_str claims (py "sub") = true ->
  absent_or_str claims (py "jti") = true ->
  validate_claims lib claims w
  = if e <? now_seconds w
    then (inl ExpiredSignatureError, tick w)
    else (inr tt, tick w).
Proof.
  intros Hexp Hiat Hnbf Haud Hath Hsub Hjti.
  unfold validate_claims.
  erewrite bind_ok by (unfold validate_iat; rewrite Hiat; reflexivity).
  erewrite bind_ok by (unfold validate_nbf; rewrite Hnbf; reflexivity).
  assert (Hv : validate_exp lib claims 0 w
               = if e <? now_seconds w
                 then (inl ExpiredSignatureError, tick w)
                 else (inr tt, tick w)).
  { unfold validate_exp. rewrite Hexp.
    erewrite bind_ok by reflexivity.
    erewrite bind_ok by (unfold utcnow; reflexivity).
    rewrite Z.sub_0_r. fold (now_seconds w).
    now destruct (e <? now_seconds w). }
  destruct (e <? now_seconds w).
  - now erewrite bind_raise by exact Hv.
  - erewrite bind_ok by exact Hv.
    erewrite bind_ok by (unfold validate_aud; rewrite Haud; reflexivity).
    erewrite bind_ok by reflexivity.
    erewrite bind_ok.
    2:{ unfold validate_sub. unfold absent_or_str in Hsub.
        destruct (dict_get claims (py "sub")) as [[]|]; try discriminate; reflexivity. }
    erewrite bind_ok.
    2:{ unfold validate_jti. unfold absent_or_str in Hjti.
        destruct (dict_get claims (py "jti")) as [[]|]; try discriminate; reflexivity. }
    unfold validate_at_hash. now rewrite Hath.
Qed.

Lemma decode_signed_validates (p : dict) tok (w : World) :
  shared_secret lib settings ->
  json_round_trip lib p ->
  signed lib settings p = Some tok ->
  decode_token lib settings tok w = (validate_claims lib p ;;; ret p) w.
Proof.
  intros Hkey (jp & Hp & Hl) Hs.
  destruct (jws_verify_signed p tok Hkey Hs) as (jp' & Hp' & Hv).
  rewrite Hp in Hp'. injection Hp' as <-.
  unfold decode_token, jwt_decode. rewrite Hv.
  erewrite bind_ok by reflexivity.
  unfold loads_claims. rewrite Hl.
  now erewrite bind_ok by reflexivity.
Qed.

Lemma decode_signed_run (claims : dict) tok e i w :
  shared_secret lib settings ->
  json_round_trip lib claims ->
  signed lib settings claims = Some tok ->
  dict_get claims (py "exp") = Some (VInt e) ->
  dict_get claims (py "iat") = Some (VInt i) ->
  dict_get claims (py "nbf") = None ->
  dict_get claims (py "aud") = None ->
  dict_get claims (py "at_hash") = None ->
  absent_or_str claims (py "sub") = true ->
  absent_or_str claims (py "jti") = true ->
  decode_token lib settings tok w
  = if e <? now_seconds w
    then (inl ExpiredSignatureError, tick w)
    else (inr claims, tick w).
Proof.
  intros Hkey Hrt Hs Hexp Hiat Hnbf Haud Hath Hsub Hjti.
  rewrite (decode_signed_validates claims tok w Hkey Hrt Hs).
  pose proof (validate_claims_run claims e i w Hexp Hiat Hnbf Haud Hath Hsub Hjti) as Hv.
  destruct (e <? now_seconds w).
  - now erewrite bind_raise by exact Hv.
  - now erewrite bind_ok by exact Hv.
Qed.

(** *** Claims that pass the registered-claim checks *)

Lemma plain_claims_inv c :
  plain_claims c = true ->
  dict_get c (py "nbf") = None
  /\ dict_get c (py "aud") = None
  /\ dict_get c (py "at_hash") = None
  /\ absent_or_str c (py "sub") = true
  /\ absent_or_str c (py "jti") = true.
Proof.
  unfold plain_claims, dict_has. intros H.
  repeat (apply andb_true_iff in H as [H ?]).
  repeat split; try assumption.
  - now destruct (dict_get c (py "nbf")).
  - now destruct (dict_get c (py "aud")).
  - now destruct (dict_get c (py "at_hash")).
Qed.

Lemma decode_issued (c : dict) expire iat ty tok later :
  shared_secret lib settings ->
  plain_claims c = true ->
  json_round_trip lib (issued_payload c expire iat ty) ->
  signed lib settings (issued_payload c expire iat ty) = Some tok ->
  decode_token lib settings tok later
  = if timegm expire <? now_seconds later
    then (inl ExpiredSignatureError, tick later)
    else (inr (issued_payload c expire iat ty), tick later).
Proof.
  intros Hkey Hplain Hrt Hs.
  apply plain_claims_inv in Hplain as (Hnbf & Haud & Hath & Hsub & Hjti).
  apply (decode_signed_run _ _ _ (timegm iat)); try assumption.
  - apply issued_exp.
  - apply issued_iat.
  - now rewrite issued_nbf, Hnbf.
  - rewrite issued_other; [assumption | reflexivity | py_neq].
  - rewrite issued_other; [assumption | reflexivity | py_neq].
  - unfold absent_or_str in *.
    rewrite issued_other; [assumption | reflexivity | py_neq].
  - unfold absent_or_str in *.
    rewrite issued_other; [assumption | reflexivity | py_neq].
Qed.

Lemma issued_claims_kept (c : dict) expire iat ty k :
  plain_claims c = true -> reserved k = false ->
  dict_get (issued_payload c expire iat ty) k = dict_get c k.
Proof.
  intros Hplain Hr.
  apply plain_claims_inv in Hplain as (Hnbf & _).
  destruct (str_eqb k (py "nbf")) eqn:Hn.
  - apply str_eqb_eq in Hn. subst k. now rewrite issued_nbf, Hnbf.
  - apply issued_other; [assumption|]. intros ->. now rewrite str_eqb_refl in Hn.
Qed.

(** C1, as amended.  Let [c] be claims without an [nbf], [aud] or [at_hash]
    claim and with strings for [sub] and [jti]; let the configured key be a
    shared secret the library signs and verifies with; and let the claims,
    stamped for issuance, be such that JSON writes them and reads them
    back unchanged.  Issuing an access token with a non-zero
    [expires_delta], or with none, returns a token.  The claims it was made
    of hold [type == "access"], an [exp] that is the issuance time plus
    [expires_delta], respectively plus the configured lifetime, in whole
    seconds, and the caller's other claims.  Decoding the token at a time
    whose whole seconds do not exceed [exp] returns exactly these claims;
    decoding it at a time whose whole seconds exceed [exp] raises
    [ExpiredSignatureError]. *)
Theorem fresh_access_token_decodes (w : World) (data : loc) (c : dict)
    (expires_delta : option Z) :
  let issued := clock w (reads w) in
  let lifetime := match expires_delta with
                  | Some delta => delta
                  | None => timedelta_minutes (ACCESS_TOKEN_EXPIRE_MINUTES settings)
                  end in
  let exp := timegm (issued + lifetime) in
  let claims :=
    issued_payload c (issued + lifetime) (clock w (S (reads w))) (py "access") in
  heap w !! data = Some c ->
  plain_claims c = true ->
  shared_secret lib settings ->
  json_round_trip lib claims ->
  expires_delta <> Some 0 ->
  in_datetime_range (issued + lifetime) ->
  exists tok w',
    create_access_token lib settings data expires_delta w = (inr tok, w')
    /\ dict_get claims (py "type") = Some (VStr (py "access"))
    /\ dict_get claims (py "exp") = Some (VInt exp)
    /\ (forall k, reserved k = false -> dict_get claims k = dict_get c k)
    /\ forall later : World,
         (now_seconds later <= exp ->
          decode_token lib settings tok later = (inr claims, tick later))
         /\ (exp < now_seconds later ->
             decode_token lib settings tok later
             = (inl ExpiredSignatureError, tick later)).
Proof.
  intros issued lifetime exp claims Hd Hplain Hkey Hrt Hnz Hrange.
  assert (Hlife : access_lifetime settings expires_delta = lifetime).
  { unfold access_lifetime, lifetime, truthy.
    destruct expires_delta as [delta|]; [|reflexivity].
    destruct (Z.eqb_spec delta 0) as [->|_]; [congruence | reflexivity]. }
  destruct (shared_secret_signs claims Hkey) as (tok & Hs).
  { destruct Hrt as (jp & Hp & _). now exists jp. }
  destruct (create_access_token_run data c expires_delta w tok Hd) as (w' & Hrun).
  { apply Hkey. }
  { now rewrite Hlife. }
  { rewrite Hlife. exact Hs. }
  exists tok, w'. split; [exact Hrun|].
  split; [apply issued_type|]. split; [apply issued_exp|].
  split; [intros k Hk; now apply issued_claims_kept|].
  intros later. unfold claims in *.
  rewrite (decode_issued c _ _ _ tok later Hkey Hplain Hrt Hs). fold exp.
  split.
  - intros Hle. apply Z.ltb_ge in Hle. now rewrite Hle.
  - intros Hlt. apply Z.ltb_lt in Hlt. now rewrite Hlt.
Qed.

(** C5, as amended.  The reserved claims take precedence silently, where a
    token can be issued at all.  Let the configured key be a shared secret
    the library signs with, the expiry a representable date, and the
    claims, with the subsystem's values in place, be such that JSON can
    write them.  Then whatever the caller stored under [exp], [iat] and
    [type] (values that could not even be serialised included), issuance
    raises nothing and returns a token, for access and for refresh alike,
    which carries a payload that holds the subsystem's values under these
    names: the expiry and the issuance time in whole seconds and the token
    type. *)
Theorem reserved_claims_take_precedence (w : World) (data : loc) (c : dict)
    (expires_delta : option Z) :
  let access_expire := clock w (reads w) + access_lifetime settings expires_delta in
  let refresh_expire :=
    clock w (reads w) + timedelta_days (REFRESH_TOKEN_EXPIRE_DAYS settings) in
  let iat := clock w (S (reads w)) in
  heap w !! data = Some c ->
  shared_secret lib settings ->
  in_datetime_range access_expire ->
  in_datetime_range refresh_expire ->
  writable lib (issued_payload c access_expire iat (py "access")) ->
  writable lib (issued_payload c refresh_expire iat (py "refresh")) ->
  (exists tok w' p,
      create_access_token lib settings data expires_delta w = (inr tok, w')
      /\ carries lib tok p
      /\ dict_get p (py "exp") = Some (VInt (timegm access_expire))
      /\ dict_get p (py "iat") = Some (VInt (timegm iat))
      /\ dict_get p (py "type") = Some (VStr (py "access")))
  /\ (exists tok w' p,
        create_refresh_token lib settings data w = (inr tok, w')
        /\ carries lib tok p
        /\ dict_get p (py "exp") = Some (VInt (timegm refresh_expire))
        /\ dict_get p (py "iat") = Some (VInt (timegm iat))
        /\ dict_get p (py "type") = Some (VStr (py "refresh"))).
Proof.
  intros access_expire refresh_expire iat Hd Hkey Hra Hrr Hwa Hwr. split.
  - destruct (shared_secret_signs _ Hkey Hwa) as (tok & Hs).
    destruct (create_access_token_run data c expires_delta w tok Hd) as (w' & Hrun);
      [apply Hkey | exact Hra | exact Hs |].
    exists tok, w', (issued_payload c access_expire iat (py "access")).
    split; [exact Hrun|]. split; [now apply signed_carries|].
    split; [apply issued_exp|]. split; [apply issued_iat | apply issued_type].
  - destruct (shared_secret_signs _ Hkey Hwr) as (tok & Hs).
    destruct (create_refresh_token_run data c w tok Hd) as (w' & Hrun);
      [apply Hkey | exact Hrr | exact Hs |].
    exists tok, w', (issued_payload c refresh_expire iat (py "refresh")).
    split; [exact Hrun|]. split; [now apply signed_carries|].
    split; [apply issued_exp|]. split; [apply issued_iat | apply issued_type].
Qed.

(** *** [decode] does not look at [type] *)

Lemma validate_claims_ext (p q : dict) :
  (forall k, k <> py "type" -> dict_get p k = dict_get q k) ->
  validate_claims lib p = validate_claims lib q.
Proof.
  intros Hext. unfold validate_claims, validate_iat, validate_nbf,
    validate_exp, validate_aud, validate_iss, validate_sub, validate_jti,
    validate_at_hash.
  now rewrite !Hext by py_neq.
Qed.

Lemma decode_ignores_type (p : dict) (v1 v2 : value) (t1 t2 : str) (w : World) :
  shared_secret lib settings ->
  json_round_trip lib (dict_set p (py "type") v1) ->
  json_round_trip lib (dict_set p (py "type") v2) ->
  signed lib settings (dict_set p (py "type") v1) = Some t1 ->
  signed lib settings (dict_set p (py "type") v2) = Some t2 ->
  verdict (fst (decode_token lib settings t1 w))
  = verdict (fst (decode_token lib settings t2 w)).
Proof.
  intros Hkey Hr1 Hr2 Hs1 Hs2.
  rewrite (decode_signed_validates _ t1 w Hkey Hr1 Hs1).
  rewrite (decode_signed_validates _ t2 w Hkey Hr2 Hs2).
  rewrite (validate_claims_ext (dict_set p (py "type") v1)
             (dict_set p (py "type") v2)).
  2:{ intros k Hk. now rewrite !dict_get_set_ne by congruence. }
  unfold bind.
  now destruct (validate_claims lib (dict_set p (py "type") v2) w)
    as [[e|[]] w'].
Qed.

(** C6, as amended.  Let [c] be claims without an [nbf], [aud] or [at_hash]
    claim and with strings for [sub] and [jti]; let the configured key be a
    shared secret the library signs and verifies with; and let the claims,
    stamped for issuance, be such that JSON writes them and reads them
    back unchanged.  Issuing a refresh token for [c] returns a token;
    decoding it at any time whose whole seconds do not exceed its expiry
    returns the claims it was made of, [type == "refresh"] among them, with
    the caller's other claims unchanged.  Moreover [decode] never enforces
    [type]: of two tokens signed for payloads that differ in the value of
    [type] only, it accepts both or rejects both with the same
    exception. *)
Theorem refresh_token_decodes (w : World) (data : loc) (c : dict) :
  let expire := clock w (reads w)
                + timedelta_days (REFRESH_TOKEN_EXPIRE_DAYS settings) in
  let claims := issued_payload c expire (clock w (S (reads w))) (py "refresh") in
  heap w !! data = Some c ->
  plain_claims c = true ->
  shared_secret lib settings ->
  json_round_trip lib claims ->
  in_datetime_range expire ->
  (exists tok w',
      create_refresh_token lib settings data w = (inr tok, w')
      /\ dict_get claims (py "type") = Some (VStr (py "refresh"))
      /\ (forall k, reserved k = false -> dict_get claims k = dict_get c k)
      /\ forall later : World,
           now_seconds later <= timegm expire ->
           decode_token lib settings tok later = (inr claims, tick later))
  /\ (forall (p : dict) (v1 v2 : value) (t1 t2 : str) (later : World),
        json_round_trip lib (dict_set p (py "type") v1) ->
        json_round_trip lib (dict_set p (py "type") v2) ->
        signed lib settings (dict_set p (py "type") v1) = Some t1 ->
        signed lib settings (dict_set p (py "type") v2) = Some t2 ->
        verdict (fst (decode_token lib settings t1 later))
        = verdict (fst (decode_token lib settings t2 later))).
Proof.
  intros expire claims Hd Hplain Hkey Hrt Hrange. split.
  - destruct (shared_secret_signs claims Hkey) as (tok & Hs).
    { destruct Hrt as (jp & Hp & _). now exists jp. }
    destruct (create_refresh_token_run data c w tok Hd) as (w' & Hrun);
      [apply Hkey | exact Hrange | exact Hs |].
    exists tok, w'. split; [exact Hrun|].
    split; [apply issued_type|].
    split; [intros k Hk; now apply issued_claims_kept|].
    intros later Hle. unfold claims in *.
    rewrite (decode_issued c _ _ _ tok later Hkey Hplain Hrt Hs).
    apply Z.ltb_ge in Hle. fold expire. now rewrite Hle.
  - intros p v1 v2 t1 t2 later. now apply decode_ignores_type.
Qed.

(** X1.  A zero [expires_delta] counts as none: [if expires_delta:] is
    false for [timedelta(0)], so the token gets the configured lifetime,
    exactly as when the argument is left out. *)
Theorem zero_expires_delta_is_default (data : loc) (w : World) :
  create_access_token lib settings data (Some 0) w
  = create_access_token lib settings data None w.
Proof. reflexivity. Qed.

End TokenRuns.

(** *** Worked examples *)

(** The stand-ins sign with HMAC-SHA256 under the key text and verify by
    signing again. *)
Lemma sample_shared_secret : shared_secret sample_lib sample_settings.
Proof.
  split; [discriminate|]. split; [reflexivity|]. split.
  - exists (match sample_json_text true (VDict (jose_header (py "HS256"))) with
            | inr text => text
            | inl _ => []
            end),
      [(py "alg", VStr (py "HS256")); (py "typ", VStr (py "JWT"))].
    repeat split; vm_compute; reflexivity.
  - intros signing_input.
    exists (hs256 (ascii_text "secret") signing_input). split; [reflexivity|].
    intros signature. cbn [key_check sample_lib]. unfold sample_key_check.
    change (sample_key_sign (JWT_ALGORITHM sample_settings)
              (JWT_SECRET_KEY sample_settings) signing_input)
      with (Some (hs256 (ascii_text "secret") signing_input)).
    reflexivity.
Qed.

(** A payload that the stand-in codec writes, and reads back. *)
Ltac by_writing :=
  match goal with
  | |- writable ?lib ?p =>
      exists (match json_dumps lib false (VDict p) with
              | inr text => text
              | inl _ => []
              end);
      vm_compute; reflexivity
  | |- json_round_trip ?lib ?p =>
      exists (match json_dumps lib false (VDict p) with
              | inr text => text
              | inl _ => []
              end);
      split; vm_compute; reflexivity
  end.

(** A fifteen-minute access token issued at 1700000000.25 s expires at
    1700000900 s: it is decoded during that second and refused from the
    next second on. *)
Lemma fresh_access_token_decodes_witness :
  let claims :=
    [(py "sub", VStr (py "user-17")); (py "role", VStr (py "admin"));
     (py "exp", VInt 1700000900); (py "iat", VInt 1700000000);
     (py "type", VStr (py "access"))] in
  exists tok w',
    create_access_token sample_lib sample_settings 1%positive (Some 900000000)
      (sample_world sample_claims) = (inr tok, w')
    /\ decode_token sample_lib sample_settings tok (world_at 1700000900999999)
       = (inr claims, tick (world_at 1700000900999999))
    /\ decode_token sample_lib sample_settings tok (world_at 1700000901000000)
       = (inl ExpiredSignatureError, tick (world_at 1700000901000000)).
Proof.
  intros claims.
  destruct (fresh_access_token_decodes sample_lib sample_settings
              (sample_world sample_claims) 1%positive sample_claims (Some 900000000))
    as (tok & w' & Hrun & _ & _ & _ & Hlater).
  - reflexivity.
  - reflexivity.
  - exact sample_shared_secret.
  - by_writing.
  - discriminate.
  - split; vm_compute; discriminate.
  - exists tok, w'. split; [exact Hrun|]. split.
    + apply (proj1 (Hlater (world_at 1700000900999999))).
      vm_compute. discriminate.
    + apply (proj2 (Hlater (world_at 1700000901000000))).
      vm_compute. reflexivity.
Defined.

(** C1 as stated fails in four ways.  Issued at 1700000000.25 s with the
    thirty-minute default configured:
    - a zero [expires_delta] is supplied, yet [exp] is 1700001800, the
      default lifetime, and not the issuance time plus zero;
    - with [expires_delta] of minus one minute, decoding the token right
      after issuance raises [ExpiredSignatureError];
    - a five-second token has [exp] 1700000005 and is still accepted at
      1700000005.9 s, past that instant;
    - for the claims [{"aud": "api"}] decoding the fresh token raises
      [JWTClaimsError]. *)
Lemma access_token_claim_counterexample :
  match create_access_token sample_lib sample_settings 1%positive (Some 0)
          (sample_world sample_claims) with
  | (inr tok, _) => token_claim sample_lib tok (py "exp")
  | (inl _, _) => None
  end = Some (VInt 1700001800)
  /\ match create_access_token sample_lib sample_settings 1%positive
            (Some (-60000000)) (sample_world sample_claims) with
     | (inr tok, w') => fst (decode_token sample_lib sample_settings tok w')
     | (inl e, _) => inl e
     end = inl ExpiredSignatureError
  /\ match create_access_token sample_lib sample_settings 1%positive
            (Some 5000000) (sample_world sample_claims) with
     | (inr tok, _) =>
         (token_claim sample_lib tok (py "exp"),
          verdict (fst (decode_token sample_lib sample_settings tok
                          (world_at 1700000005900000))))
     | (inl e, _) => (None, Some e)
     end = (Some (VInt 1700000005), None)
  /\ match create_access_token sample_lib sample_settings 1%positive None
            (sample_world [(py "aud", VStr (py "api"))]) with
     | (inr tok, w') => fst (decode_token sample_lib sample_settings tok w')
     | (inl e, _) => inl e
     end = inl JWTClaimsError.
Proof. by_evaluation. Qed.

(** The caller's [exp], [iat] and [type], one of them not even
    serialisable, are replaced. *)
Lemma reserved_claims_take_precedence_witness :
  let c := [(py "sub", VStr (py "user-17"));
            (py "exp", VStr (py "never"));
            (py "type", VList [VDatetime 0]);
            (py "iat", VInt 7)] in
  (exists tok w' p,
      create_access_token sample_lib sample_settings 1%positive None (sample_world c)
      = (inr tok, w')
      /\ carries sample_lib tok p
      /\ dict_get p (py "exp") = Some (VInt 1700001800)
      /\ dict_get p (py "iat") = Some (VInt 1700000000)
      /\ dict_get p (py "type") = Some (VStr (py "access")))
  /\ (exists tok w' p,
        create_refresh_token sample_lib sample_settings 1%positive (sample_world c)
        = (inr tok, w')
        /\ carries sample_lib tok p
        /\ dict_get p (py "exp") = Some (VInt 1700604800)
        /\ dict_get p (py "iat") = Some (VInt 1700000000)
        /\ dict_get p (py "type") = Some (VStr (py "refresh"))).
Proof.
  intros c.
  apply (reserved_claims_take_precedence sample_lib sample_settings
           (sample_world c) 1%positive c None).
  - reflexivity.
  - exact sample_shared_secret.
  - split; vm_compute; discriminate.
  - split; vm_compute; discriminate.
  - by_writing.
  - by_writing.
Defined.

(** C5 as stated fails: not every claim set with a reserved name gets a
    token.  With an [exp] of the caller's and a [datetime] under a name of
    the caller's own, issuance raises [TypeError], for access and for
    refresh. *)
Lemma reserved_claims_claim_counterexample :
  let c := [(py "exp", VInt 1); (py "seen", VDatetime 1699999000000000)] in
  fst (create_access_token sample_lib sample_settings 1%positive None (sample_world c))
  = inl TypeError
  /\ fst (create_refresh_token sample_lib sample_settings 1%positive (sample_world c))
     = inl TypeError.
Proof. cbv zeta. by_evaluation. Qed.

(** A refresh token for the sample claims, decoded a day later. *)
Lemma refresh_token_decodes_witness :
  let claims :=
    [(py "sub", VStr (py "user-17")); (py "role", VStr (py "admin"));
     (py "exp", VInt 1700604800); (py "iat", VInt 1700000000);
     (py "type", VStr (py "refresh"))] in
  exists tok w',
    create_refresh_token sample_lib sample_settings 1%positive
      (sample_world sample_claims) = (inr tok, w')
    /\ decode_token sample_lib sample_settings tok (world_at 1700086400000000)
       = (inr claims, tick (world_at 1700086400000000)).
Proof.
  intros claims.
  destruct (refresh_token_decodes sample_lib sample_settings
              (sample_world sample_claims) 1%positive sample_claims)
    as [(tok & w' & Hrun & _ & _ & Hlater) _].
  - reflexivity.
  - reflexivity.
  - exact sample_shared_secret.
  - by_writing.
  - split; vm_compute; discriminate.
  - exists tok, w'. split; [exact Hrun|].
    apply (Hlater (world_at 1700086400000000)).
    vm_compute. discriminate.
Defined.

(** C6 as stated fails for some claim sets.  A [datetime] under a name of
    the caller's own cannot be serialised: issuing the refresh token raises
    [TypeError].  With an [aud] claim, or a [sub] that is not a string, the
    token is issued but decoding it raises [JWTClaimsError]. *)
Lemma refresh_token_claim_counterexample :
  fst (create_refresh_token sample_lib sample_settings 1%positive
         (sample_world [(py "last_login", VDatetime 1699999000000000)]))
  = inl TypeError
  /\ match create_refresh_token sample_lib sample_settings 1%positive
            (sample_world [(py "aud", VStr (py "api"))]) with
     | (inr tok, w') => fst (decode_token sample_lib sample_settings tok w')
     | (inl e, _) => inl e
     end = inl JWTClaimsError
  /\ match create_refresh_token sample_lib sample_settings 1%positive
            (sample_world [(py "sub", VInt 17)]) with
     | (inr tok, w') => fst (decode_token sample_lib sample_settings tok w')
     | (inl e, _) => inl e
     end = inl JWTClaimsError.
Proof. by_evaluation. Qed.

(** Why the claims must survive JSON: two surrogate code points that make
    a pair are written as two escapes and read back as one character, so
    the decoded claim is not the caller's. *)
Lemma surrogate_pair_not_read_back :
  match create_access_token sample_lib sample_settings 1%positive None
          (sample_world [(py "name", VStr [55357; 56832]%N)]) with
  | (inr tok, w') =>
      option_map (fun claims => dict_get claims (py "name"))
        (match fst (decode_token sample_lib sample_settings tok w') with
         | inr claims => Some claims
         | inl _ => None
         end)
  | (inl _, _) => None
  end = Some (Some (VStr [128512%N])).
Proof. vm_compute. reflexivity. Qed.

(** ** What [decode_token] accepts and what it raises *)

Lemma pure_ret {A} (a : A) : pure (ret a).
Proof. now intros w. Qed.

Lemma pure_raise {A} e : pure (raise e : M A).
Proof. now intros w. Qed.

Lemma pure_bind {A B} (c : M A) (k : A -> M B) :
  pure c -> (forall a, pure (k a)) -> pure (bind c k).
Proof.
  intros Hc Hk w. unfold bind. specialize (Hc w).
  destruct (c w) as [[e|a] w1]; cbn in *; [exact Hc|].
  now rewrite Hk.
Qed.

Lemma pure_reraise {A} caught e (c : M A) : pure c -> pure (reraise caught e c).
Proof.
  intros Hc w. unfold reraise. specialize (Hc w).
  now destruct (c w) as [[e'|a] w1].
Qed.

Lemma pure_run {A} (c : M A) w r w' : pure c -> c w = (r, w') -> w' = w.
Proof. intros Hc E. specialize (Hc w). now rewrite E in Hc. Qed.






Lemma pure_lift {A} (r : exn + A) : pure (lift r).
Proof. destruct r; [apply pure_raise | apply pure_ret]. Qed.


Section Decoding.

Variable lib : Primitives.
Variable settings : Settings.

Local Abbreviation decode := (decode_token lib settings).
Local Abbreviation alg := (JWT_ALGORITHM settings).
Local Abbreviation key := (JWT_SECRET_KEY settings).

Lemma pure_py_int v : pure (py_int lib v).
Proof.
  destruct v; try apply pure_ret; try apply pure_raise.
  - apply pure_lift.
  - cbn. destruct (int_of_str lib s); [apply pure_ret | apply pure_raise].
Qed.

Lemma pure_validate_iat claims : pure (validate_iat lib claims).
Proof.
  unfold validate_iat. destruct (dict_get claims (py "iat")); [|apply pure_ret].
  apply pure_bind; [apply pure_reraise, pure_py_int | intros; apply pure_ret].
Qed.

Lemma pure_validate_aud claims : pure (validate_aud claims None).
Proof.
  unfold validate_aud. destruct (dict_get claims (py "aud")) as [v|]; [|apply pure_ret].
  destruct v; try apply pure_raise;
    (destruct (negb _); apply pure_raise).
Qed.

Lemma pure_validate_sub claims : pure (validate_sub claims None).
Proof.
  unfold validate_sub.
  destruct (dict_get claims (py "sub")) as [[]|];
    first [apply pure_ret | apply pure_raise].
Qed.

Lemma pure_validate_jti claims : pure (validate_jti claims).
Proof.
  unfold validate_jti.
  destruct (dict_get claims (py "jti")) as [[]|];
    first [apply pure_ret | apply pure_raise].
Qed.

Lemma pure_validate_at_hash claims : pure (validate_at_hash claims None).
Proof.
  unfold validate_at_hash.
  destruct (dict_get claims (py "at_hash")); [apply pure_raise | apply pure_ret].
Qed.

(** The checks that follow the one of [exp]. *)
Lemma pure_later_checks claims :
  pure (validate_aud claims None ;;;
        validate_iss claims None ;;;
        validate_sub claims None ;;;
        validate_jti claims ;;;
        validate_at_hash claims None).
Proof.
  apply pure_bind; [apply pure_validate_aud | intros _].
  apply pure_bind; [apply pure_ret | intros _].
  apply pure_bind; [apply pure_validate_sub | intros _].
  apply pure_bind; [apply pure_validate_jti | intros _].
  apply pure_validate_at_hash.
Qed.

(** *** Verification *)

Lemma verify_signature_ok_inv signing_input header signature :
  verify_signature lib signing_input header signature key [alg] = inr tt ->
  dict_get header (py "alg") = Some (VStr alg)
  /\ key_check lib alg key signing_input signature = None.
Proof.
  unfold verify_signature.
  destruct (dict_get header (py "alg")) as [v|]; [|discriminate].
  destruct (negb (truthy_value v)); [discriminate|].
  destruct v as [| | | |a| | |]; try discriminate.
  destruct (member a [alg]) eqn:Hm; [|discriminate].
  apply member_In in Hm. destruct Hm as [Hm|[]]. subst a. cbn [negb].
  destruct (key_check lib alg key signing_input signature); [discriminate|].
  now split.
Qed.

(** What [verify_signature] raises: [JWSError], or what the key check
    raises. *)
Lemma verify_signature_raises signing_input header signature e :
  verify_signature lib signing_input header signature key [alg] = inl e ->
  e = JWSError \/ key_check lib alg key signing_input signature = Some e.
Proof.
  unfold verify_signature.
  destruct (dict_get header (py "alg")) as [v|]; [|intros [= <-]; now left].
  destruct (negb (truthy_value v)); [intros [= <-]; now left|].
  destruct v as [| | | |a| | |]; try (intros [= <-]; now left).
  destruct (member a [alg]) eqn:Hm; [|intros [= <-]; now left].
  apply member_In in Hm. destruct Hm as [Hm|[]]. subst a. cbn [negb].
  destruct (key_check lib alg key signing_input signature);
    [intros [= <-]; now right | discriminate].
Qed.

Lemma verify_signature_other_alg signing_input header signature :
  dict_get header (py "alg") <> Some (VStr alg) ->
  verify_signature lib signing_input header signature key [alg] = inl JWSError.
Proof.
  intros Hne. unfold verify_signature.
  destruct (dict_get header (py "alg")) as [v|]; [|reflexivity].
  destruct (negb (truthy_value v)); [reflexivity|].
  destruct v as [| | | |a| | |]; try reflexivity.
  destruct (member a [alg]) eqn:Hm; [|reflexivity].
  apply member_In in Hm. destruct Hm as [Hm|[]]. now subst a.
Qed.

Lemma jws_verify_ok_inv tok payload :
  jws_verify lib tok key [alg] = inr payload ->
  exists header signing_input signature,
    load lib tok = inr (header, payload, signing_input, signature)
    /\ dict_get header (py "alg") = Some (VStr alg)
    /\ key_check lib alg key signing_input signature = None.
Proof.
  unfold jws_verify.
  destruct (load lib tok) as [e|[[[header p] signing_input] signature]];
    [discriminate|].
  destruct (verify_signature lib signing_input header signature key [alg])
    as [e|[]] eqn:Ev; [discriminate|].
  intros [= <-]. apply verify_signature_ok_inv in Ev.
  now exists header, signing_input, signature.
Qed.

(** X9.  [decode_token] raises [JWTError], before it looks at a claim or
    reads the clock, for every text that [jws._load] refuses (one that is
    not three segments of base64 with a JSON object for a header), for
    every token whose header does not name the configured algorithm, and,
    when the configured key is a shared secret, for every token whose
    signature is not the tag of its first two segments under that key. *)
Theorem decode_token_rejects_forgery (tok : str) (w : World) :
  load lib tok = inl JWSError
  \/ (exists header payload signing_input signature,
        load lib tok = inr (header, payload, signing_input, signature)
        /\ (dict_get header (py "alg") <> Some (VStr alg)
            \/ shared_secret lib settings
               /\ key_sign lib alg key signing_input <> Some signature)) ->
  decode tok w = (inl JWTError, w).
Proof.
  intros Hbad. unfold decode_token, jwt_decode.
  apply bind_raise. unfold reraise, jws_verify.
  destruct Hbad as [->|(header & payload & signing_input & signature & -> & Hbad)];
    [reflexivity|].
  destruct Hbad as [Hne|[Hkey Hsig]].
  - now rewrite verify_signature_other_alg.
  - destruct (verify_signature lib signing_input header signature key [alg])
      as [e|[]] eqn:Ev.
    + apply verify_signature_raises in Ev as [->|Hc]; [reflexivity|].
      destruct Hkey as (_ & _ & _ & Hkey).
      destruct (Hkey signing_input) as (tag & _ & Hcheck).
      rewrite Hcheck in Hc. destruct (bool_decide _); [discriminate|].
      now injection Hc as <-.
    + apply verify_signature_ok_inv in Ev as [_ Hc].
      destruct Hkey as (_ & _ & _ & Hkey).
      destruct (Hkey signing_input) as (tag & Hs & Hcheck).
      rewrite Hcheck in Hc.
      destruct (bool_decide_reflect (signature = tag)) as [->|_];
        [contradiction | discriminate].
Qed.

(** *** The claim checks *)

Lemma validate_nbf_ok_inv claims w u w' :
  validate_nbf lib claims 0 w = (inr u, w') ->
  w' = w /\ dict_get claims (py "nbf") = None
  \/ w' = tick w /\ dict_get claims (py "nbf") <> None.
Proof.
  unfold validate_nbf.
  destruct (dict_get claims (py "nbf")) as [v|]; [|intros [= <-]; now left].
  intros H. right. split; [|discriminate].
  apply bind_inv_ok in H as (nbf & w1 & H1 & H).
  pose proof (pure_run _ _ _ _ (pure_reraise _ _ _ (pure_py_int v)) H1) as ->.
  apply bind_inv_ok in H as (now & w2 & H2 & H).
  unfold utcnow in H2. injection H2 as <- <-.
  destruct (_ >? _); [discriminate|]. now injection H as <-.
Qed.

Lemma validate_exp_ok_inv claims w u w' e :
  validate_exp lib claims 0 w = (inr u, w') ->
  dict_get claims (py "exp") = Some (VInt e) ->
  now_seconds w <= e.
Proof.
  unfold validate_exp. intros H Hexp. rewrite Hexp in H.
  apply bind_inv_ok in H as (x & w1 & H1 & H).
  cbn in H1. injection H1 as <- <-.
  apply bind_inv_ok in H as (now & w2 & H2 & H).
  unfold utcnow in H2. injection H2 as <- <-.
  rewrite Z.sub_0_r in H. fold (now_seconds w) in H.
  destruct (e <? now_seconds w) eqn:E; [discriminate|].
  now apply Z.ltb_ge in E.
Qed.

Lemma validate_claims_ok_inv claims w u w' e :
  validate_claims lib claims w = (inr u, w') ->
  dict_get claims (py "exp") = Some (VInt e) ->
  exists n,
    (n = reads w /\ dict_get claims (py "nbf") = None
     \/ n = S (reads w) /\ dict_get claims (py "nbf") <> None)
    /\ timegm (clock w n) <= e.
Proof.
  unfold validate_claims. intros H Hexp.
  apply bind_inv_ok in H as (u1 & w1 & H1 & H).
  pose proof (pure_run _ _ _ _ (pure_validate_iat claims) H1) as ->.
  apply bind_inv_ok in H as (u2 & w2 & H2 & H).
  apply bind_inv_ok in H as (u3 & w3 & H3 & _).
  pose proof (validate_exp_ok_inv _ _ _ _ _ H3 Hexp) as Hnow.
  apply validate_nbf_ok_inv in H2 as [[-> Hnbf]|[-> Hnbf]].
  - exists (reads w). split; [now left | exact Hnow].
  - exists (S (reads w)). split; [now right | exact Hnow].
Qed.

Lemma loads_claims_ok_inv payload claims :
  loads_claims lib payload = inr claims ->
  json_loads lib payload = inr (VDict claims).
Proof.
  unfold loads_claims.
  destruct (json_loads lib payload) as [e|[]]; try discriminate.
  now intros [= <-].
Qed.

(** X10.  What [decode_token] returns are the claims of a token that
    [jws._load] could read, that names the configured algorithm in its
    header and whose signature the key check accepted under the configured
    key (so that, when the key is a shared secret, the signature is the
    tag of the first two segments); the claims are the payload as the JSON
    parser reads it; and if they hold an integer [exp], the clock reading
    taken for the check (the first one, or the second when an [nbf] claim
    is checked before) had not passed it, in whole seconds. *)
Theorem decode_token_sound (tok : str) (w : World) (claims : dict) :
  fst (decode tok w) = inr claims ->
  exists header payload signing_input signature,
    load lib tok = inr (header, payload, signing_input, signature)
    /\ dict_get header (py "alg") = Some (VStr alg)
    /\ key_check lib alg key signing_input signature = None
    /\ (shared_secret lib settings ->
        key_sign lib alg key signing_input = Some signature)
    /\ json_loads lib payload = inr (VDict claims)
    /\ forall e, dict_get claims (py "exp") = Some (VInt e) ->
         exists n,
           (n = reads w /\ dict_get claims (py "nbf") = None
            \/ n = S (reads w) /\ dict_get claims (py "nbf") <> None)
           /\ timegm (clock w n) <= e.
Proof.
  intros H.
  destruct (decode tok w) as [[e|c] w'] eqn:E; [discriminate|].
  cbn in H. injection H as ->.
  unfold decode_token, jwt_decode in E.
  apply bind_inv_ok in E as (payload & w1 & H1 & E).
  unfold reraise in H1.
  destruct (jws_verify lib tok key [alg]) as [e1|p] eqn:Ev; [discriminate|].
  cbn in H1. injection H1 as -> ->.
  apply jws_verify_ok_inv in Ev as (header & signing_input & signature & Hl & Ha & Hc).
  apply bind_inv_ok in E as (c & w2 & H2 & E).
  destruct (loads_claims lib payload) as [e2|c'] eqn:El; [discriminate|].
  cbn in H2. injection H2 as -> ->.
  apply loads_claims_ok_inv in El.
  apply bind_inv_ok in E as (u & w3 & Hv & E).
  injection E as <- _.
  exists header, payload, signing_input, signature.
  repeat split; try assumption.
  - intros (_ & _ & _ & Hkey).
    destruct (Hkey signing_input) as (tag & Hs & Hcheck).
    rewrite Hcheck in Hc.
    destruct (bool_decide_reflect (signature = tag)) as [->|_];
      [exact Hs | discriminate].
  - intros e He. exact (validate_claims_ok_inv _ _ _ _ _ Hv He).
Qed.

(** *** Exceptions *)






(** X12.  A [TypeError] does come out: a token signed under the shared
    secret whose [exp] claim is [null], a list or an object (and that has no
    [iat] and no [nbf] claim) makes [decode_token] raise [TypeError], which
    is no [JWTError], and the clock is not read. *)
Theorem decode_token_exp_type_error (claims : dict) (v : value) (tok : str)
    (w : World) :
  shared_secret lib settings ->
  json_round_trip lib claims ->
  signed lib settings claims = Some tok ->
  dict_get claims (py "iat") = None ->
  dict_get claims (py "nbf") = None ->
  dict_get claims (py "exp") = Some v ->
  not_a_number v = true ->
  decode tok w = (inl TypeError, w).
Proof.
  intros Hkey Hrt Hs Hiat Hnbf Hexp Hv.
  rewrite (decode_signed_validates lib settings claims tok w Hkey Hrt Hs).
  apply bind_raise. unfold validate_claims.
  erewrite bind_ok by (unfold validate_iat; rewrite Hiat; reflexivity).
  erewrite bind_ok by (unfold validate_nbf; rewrite Hnbf; reflexivity).
  apply bind_raise. unfold validate_exp. rewrite Hexp.
  apply bind_raise. destruct v; try discriminate; reflexivity.
Qed.

End Decoding.

(** A token that claims the algorithm ["none"]:
    [eyJhbGciOiJub25lIiwidHlwIjoiSldUIn0.eyJzdWIiOiJhZG1pbiJ9.] *)
Lemma decode_token_rejects_forgery_witness :
  decode_token sample_lib sample_settings unsigned_token (world_at 0)
  = (inl JWTError, world_at 0).
Proof.
  apply decode_token_rejects_forgery. right.
  exists [(py "alg", VStr (py "none")); (py "typ", VStr (py "JWT"))],
    (sample_json false (VDict [(py "sub", VStr (py "admin"))])),
    (base64url_encode (sample_json true (VDict (jose_header (py "none"))))
       ++ [dot]
       ++ base64url_encode (sample_json false (VDict [(py "sub", VStr (py "admin"))]))),
    [].
  split.
  - unfold unsigned_token. apply load_jws_text. vm_compute. reflexivity.
  - left. vm_compute. discriminate.
Defined.

(** A token with an [nbf] claim, decoded in the second before it expires. *)
Lemma decode_token_sound_witness :
  let claims := [(py "nbf", VInt 1600000000); (py "exp", VInt 1700000000)] in
  exists header payload signing_input signature,
    load sample_lib (sample_token claims)
    = inr (header, payload, signing_input, signature)
    /\ dict_get header (py "alg") = Some (VStr (py "HS256"))
    /\ sample_key_check (py "HS256") (py "secret") signing_input signature = None
    /\ (shared_secret sample_lib sample_settings ->
        sample_key_sign (py "HS256") (py "secret") signing_input = Some signature)
    /\ sample_json_loads payload = inr (VDict claims)
    /\ forall e, dict_get claims (py "exp") = Some (VInt e) ->
         exists n,
           (n = 0%nat /\ dict_get claims (py "nbf") = None
            \/ n = 1%nat /\ dict_get claims (py "nbf") <> None)
           /\ timegm (clock (world_at 1700000000999999) n) <= e.
Proof.
  intros claims.
  apply (decode_token_sound sample_lib sample_settings (sample_token claims)
           (world_at 1700000000999999) claims).
  vm_compute. reflexivity.
Defined.


Lemma decode_token_exp_type_error_witness :
  decode_token sample_lib sample_settings
    (sample_token [(py "sub", VStr (py "u")); (py "exp", VNone)]) (world_at 0)
  = (inl TypeError, world_at 0).
Proof.
  apply (decode_token_exp_type_error sample_lib sample_settings
           [(py "sub", VStr (py "u")); (py "exp", VNone)] VNone).
  - exact sample_shared_secret.
  - by_writing.
  - vm_compute. reflexivity.
  - reflexivity.
  - reflexivity.
  - reflexivity.
  - reflexivity.
Defined.

(** What the claim checks let through and what escapes them, on tokens
    signed under the sample settings: a fractional [exp] is truncated; an
    [exp] that is an infinite float, as the reader makes of [1e400], raises
    [OverflowError]. *)
Lemma float_exp_examples :
  fst (validate_claims sample_lib [(py "exp", VFloat (Finite 3400000001 (-1)))]
         (world_at 1700000000999999)) = inr tt
  /\ fst (validate_claims sample_lib [(py "exp", VFloat (Infinity false))]
            (world_at 0)) = inl OverflowError.
Proof. by_evaluation. Qed.
(** ** Issuance in full *)

Section Issuance.

Variable lib : Primitives.
Variable settings : Settings.

Lemma jws_sign_outcome l w (d : dict) :
  heap w !! l = Some d ->
  fst (jws_sign lib l (JWT_SECRET_KEY settings) (JWT_ALGORITHM settings) w)
  = sign_outcome lib settings d.
Proof.
  intros Hl. unfold jws_sign, sign_outcome.
  destruct (negb _); [reflexivity|].
  unfold encode_header.
  destruct (json_dumps lib true _) as [e|jh]; [reflexivity|].
  unfold lift at 1. erewrite bind_ok by reflexivity.
  erewrite bind_ok by (unfold deref; rewrite Hl; reflexivity).
  unfold encode_payload.
  destruct (json_dumps lib false _) as [e|jp]; [reflexivity|].
  unfold lift at 1. erewrite bind_ok by reflexivity.
  destruct (key_sign lib _ _ _) as [tag|] eqn:Hs.
  - now rewrite (sign_header_and_claims_run lib jh jp tag _ _ Hs).
  - unfold sign_header_and_claims. now rewrite Hs.
Qed.

Lemma jwt_encode_outcome l w (d : dict) :
  heap w !! l = Some d ->
  fst (jwt_encode lib l (JWT_SECRET_KEY settings) (JWT_ALGORITHM settings) w)
  = sign_outcome lib settings (encoded_claims d).
Proof.
  intros Hl. unfold jwt_encode.
  destruct (convert_time_claim_run l (py "exp") w d Hl) as (w1 & E1 & H1 & _).
  erewrite bind_ok by exact E1.
  destruct (convert_time_claim_run l (py "iat") w1 _ H1) as (w2 & E2 & H2 & _).
  erewrite bind_ok by exact E2.
  destruct (convert_time_claim_run l (py "nbf") w2 _ H2) as (w3 & E3 & H3 & _).
  erewrite bind_ok by exact E3.
  now apply jws_sign_outcome.
Qed.

Lemma stamp_and_encode_outcome l w (c : dict) expire iat type :
  heap w !! l = Some c ->
  fst ((dict_update_at l [(py "exp", VDatetime expire);
                          (py "iat", VDatetime iat);
                          (py "type", VStr type)] ;;;
        jwt_encode lib l (JWT_SECRET_KEY settings) (JWT_ALGORITHM settings)) w)
  = sign_outcome lib settings (issued_payload c expire iat type).
Proof.
  intros Hl.
  erewrite bind_ok.
  2:{ unfold dict_update_at. erewrite bind_ok by (unfold deref; rewrite Hl; reflexivity).
      reflexivity. }
  erewrite jwt_encode_outcome; [reflexivity|].
  cbn. now rewrite lookup_insert_eq.
Qed.

Lemma datetime_add_outcome d delta w :
  datetime_add d delta w
  = if (datetime_min <=? d + delta) && (d + delta <=? datetime_max)
    then (inr (d + delta), w) else (inl OverflowError, w).
Proof. unfold datetime_add. now destruct (_ && _). Qed.

Lemma create_access_token_outcome (data : loc) (c : dict)
    (expires_delta : option Z) (w : World) :
  heap w !! data = Some c ->
  fst (create_access_token lib settings data expires_delta w)
  = issuance_outcome lib settings c
      (clock w (reads w) + access_lifetime settings expires_delta)
      (clock w (S (reads w))) (py "access").
Proof.
  intros Hd.
  pose proof (dict_copy_run data w) as Hcopy. rewrite Hd in Hcopy.
  destruct Hcopy as [Hcopy _].
  set (l := fresh (dom (heap w))) in *. set (w1 := set_heap _ w) in *.
  assert (Hl : forall w2, heap w2 = heap w1 -> heap w2 !! l = Some c).
  { intros w2 ->. cbn. apply lookup_insert_eq. }
  unfold issuance_outcome, create_access_token.
  erewrite bind_ok by exact Hcopy.
  assert (Hexp : (if truthy expires_delta
                  then now <- utcnow ;; datetime_add now (default 0 expires_delta)
                  else now <- utcnow ;;
                       datetime_add now
                         (timedelta_minutes (ACCESS_TOKEN_EXPIRE_MINUTES settings))) w1
                 = datetime_add (clock w (reads w))
                     (access_lifetime settings expires_delta) (tick w1)).
  { unfold access_lifetime.
    destruct (truthy expires_delta);
      now erewrite bind_ok by (unfold utcnow; reflexivity). }
  rewrite datetime_add_outcome in Hexp.
  destruct (_ && _); cbn [negb].
  - erewrite bind_ok by exact Hexp.
    erewrite bind_ok by (unfold utcnow; reflexivity).
    now apply stamp_and_encode_outcome; apply Hl.
  - now erewrite bind_raise by exact Hexp.
Qed.

Lemma create_refresh_token_outcome (data : loc) (c : dict) (w : World) :
  heap w !! data = Some c ->
  fst (create_refresh_token lib settings data w)
  = issuance_outcome lib settings c
      (clock w (reads w) + timedelta_days (REFRESH_TOKEN_EXPIRE_DAYS settings))
      (clock w (S (reads w))) (py "refresh").
Proof.
  intros Hd.
  pose proof (dict_copy_run data w) as Hcopy. rewrite Hd in Hcopy.
  destruct Hcopy as [Hcopy _].
  set (l := fresh (dom (heap w))) in *. set (w1 := set_heap _ w) in *.
  assert (Hl : forall w2, heap w2 = heap w1 -> heap w2 !! l = Some c).
  { intros w2 ->. cbn. apply lookup_insert_eq. }
  unfold issuance_outcome, create_refresh_token.
  erewrite bind_ok by exact Hcopy.
  erewrite bind_ok by (unfold utcnow; reflexivity).
  cbv beta. change (clock w1 (reads w1)) with (clock w (reads w)).
  pose proof (datetime_add_outcome (clock w (reads w))
                (timedelta_days (REFRESH_TOKEN_EXPIRE_DAYS settings)) (tick w1))
    as Hexp.
  destruct (_ && _); cbn [negb].
  - erewrite bind_ok by exact Hexp.
    erewrite bind_ok by (unfold utcnow; reflexivity).
    now apply stamp_and_encode_outcome; apply Hl.
  - now erewrite bind_raise by exact Hexp.
Qed.

(** X13.  For a dictionary [c] that is alive, the outcome of issuance is
    settled by these tests, in this order.  If the clock plus the lifetime
    leaves the years 1 to 9999 the call raises [OverflowError]; if the
    configured algorithm is not one the library supports it raises
    [JWSError]; if the header cannot be written as JSON it raises what
    [json.dumps] raises; if the stamped payload cannot be written it raises
    [TypeError] where [json.dumps] raises a [ValueError], and what
    [json.dumps] raises otherwise; if the key is refused or does not sign
    it raises [JWSError]; otherwise it returns the text of the three
    segments.  The lifetime is [expires_delta] if that is given and not
    zero, else the configured minutes, for an access token, and the
    configured days for a refresh token; [iat] is a second reading of the
    clock. *)
Theorem issuance_outcome_spec (data : loc) (c : dict) (expires_delta : option Z)
    (w : World) :
  heap w !! data = Some c ->
  fst (create_access_token lib settings data expires_delta w)
  = issuance_outcome lib settings c
      (clock w (reads w) + access_lifetime settings expires_delta)
      (clock w (S (reads w))) (py "access")
  /\ fst (create_refresh_token lib settings data w)
     = issuance_outcome lib settings c
         (clock w (reads w) + timedelta_days (REFRESH_TOKEN_EXPIRE_DAYS settings))
         (clock w (S (reads w))) (py "refresh").
Proof.
  intros Hd. split.
  - now apply create_access_token_outcome.
  - now apply create_refresh_token_outcome.
Qed.

Lemma issuance_outcome_ok_inv (c : dict) expire iat type tok :
  issuance_outcome lib settings c expire iat type = inr tok ->
  carries lib tok (issued_payload c expire iat type).
Proof.
  unfold issuance_outcome, sign_outcome.
  destruct (negb _); [discriminate|].
  destruct (negb _); [discriminate|].
  destruct (json_dumps lib true _) as [e|jh]; [discriminate|].
  destruct (json_dumps lib false _) as [e|jp] eqn:Hp; [discriminate|].
  destruct (key_sign lib _ _ _) as [tag|]; [|discriminate].
  intros [= <-]. now exists jh, jp, tag.
Qed.

(** X14.  An issued token never claims more than its lifetime: if the
    clock does not run backwards between the two readings, the [exp] claim
    of the payload an access token carries exceeds its [iat] claim by at
    most the lifetime in seconds, rounded up, and that of a refresh token
    by at most 86400 seconds for each configured day. *)
Theorem issued_lifetime_bound (data : loc) (c : dict) (expires_delta : option Z)
    (w : World) :
  heap w !! data = Some c ->
  clock w (reads w) <= clock w (S (reads w)) ->
  (forall tok,
      fst (create_access_token lib settings data expires_delta w) = inr tok ->
      exists p e i,
        carries lib tok p
        /\ dict_get p (py "exp") = Some (VInt e)
        /\ dict_get p (py "iat") = Some (VInt i)
        /\ e - i <= (access_lifetime settings expires_delta + 999999) / 1000000)
  /\ (forall tok,
        fst (create_refresh_token lib settings data w) = inr tok ->
        exists p e i,
          carries lib tok p
          /\ dict_get p (py "exp") = Some (VInt e)
          /\ dict_get p (py "iat") = Some (VInt i)
          /\ e - i <= 86400 * REFRESH_TOKEN_EXPIRE_DAYS settings).
Proof.
  intros Hd Hclock.
  pose proof (create_access_token_outcome data c expires_delta w Hd) as Ha.
  pose proof (create_refresh_token_outcome data c w Hd) as Hr.
  split; intros tok Htok.
  - rewrite Ha in Htok. apply issuance_outcome_ok_inv in Htok.
    eexists _, _, _. split; [exact Htok|].
    split; [apply issued_exp|]. split; [apply issued_iat|].
    unfold timegm. dlia.
  - rewrite Hr in Htok. apply issuance_outcome_ok_inv in Htok.
    eexists _, _, _. split; [exact Htok|].
    split; [apply issued_exp|]. split; [apply issued_iat|].
    unfold timegm, timedelta_days. dlia.
Qed.

(** *** The heap *)

Lemma after_copy_leaves_alive {A} data l (d : dict) (k : loc -> M A) w :
  heap w !! l = Some d ->
  (forall l', l' <> l -> leaves l (k l')) ->
  heap (snd (bind (dict_copy data) k w)) !! l = Some d.
Proof.
  intros Hl Hk. pose proof (dict_copy_run data w) as Hc.
  destruct (heap w !! data) as [c|] eqn:E.
  - destruct Hc as [Hc _]. rewrite (bind_ok _ _ _ _ _ Hc).
    assert (Hne : fresh (dom (heap w)) <> l).
    { intros Heq. apply (is_fresh (dom (heap w))). rewrite Heq.
      apply elem_of_dom. now exists d. }
    rewrite (Hk _ Hne). cbn. now rewrite lookup_insert_ne.
  - now rewrite (bind_raise _ _ _ _ _ Hc).
Qed.

(** X15.  Issuance writes to its own copy only: every dictionary that is
    alive when [create_access_token] or [create_refresh_token] is called,
    the caller's or any other, holds afterwards what it held before,
    whatever the outcome. *)
Theorem issuance_leaves_heap (data l : loc) (d : dict) (expires_delta : option Z)
    (w : World) :
  heap w !! l = Some d ->
  heap (snd (create_access_token lib settings data expires_delta w)) !! l = Some d
  /\ heap (snd (create_refresh_token lib settings data w)) !! l = Some d.
Proof.
  intros Hl. split.
  - unfold create_access_token. apply after_copy_leaves_alive; [exact Hl|].
    intros l' Hne. apply leaves_bind.
    { destruct (truthy expires_delta);
        (apply leaves_bind; [auto with frame | intros; auto with frame]). }
    intros expire. apply leaves_bind; [auto with frame|]. intros iat.
    apply leaves_bind; [auto with frame|]. intros _.
    apply leaves_jwt_encode. congruence.
  - unfold create_refresh_token. apply after_copy_leaves_alive; [exact Hl|].
    intros l' Hne.
    apply leaves_bind; [auto with frame|]. intros now.
    apply leaves_bind; [auto with frame|]. intros expire.
    apply leaves_bind; [auto with frame|]. intros iat.
    apply leaves_bind; [auto with frame|]. intros _.
    apply leaves_jwt_encode. congruence.
Qed.

End Issuance.

(** A claim that holds a date cannot be written as JSON. *)
Lemma issuance_outcome_spec_witness :
  let c := [(py "sub", VStr (py "user-17")); (py "seen", VDatetime 1699999000000000)] in
  fst (create_access_token sample_lib sample_settings 1%positive None (sample_world c))
  = issuance_outcome sample_lib sample_settings c
      (1700000000250000 + 1800000000) 1700000000250001 (py "access")
  /\ fst (create_refresh_token sample_lib sample_settings 1%positive (sample_world c))
     = issuance_outcome sample_lib sample_settings c
         (1700000000250000 + 604800000000) 1700000000250001 (py "refresh").
Proof.
  intros c.
  apply (issuance_outcome_spec sample_lib sample_settings 1%positive c None
           (sample_world c)).
  reflexivity.
Defined.

Lemma issued_lifetime_bound_witness :
  (forall tok,
      fst (create_access_token sample_lib sample_settings 1%positive None
             (sample_world sample_claims)) = inr tok ->
      exists p e i,
        carries sample_lib tok p
        /\ dict_get p (py "exp") = Some (VInt e)
        /\ dict_get p (py "iat") = Some (VInt i)
        /\ e - i <= 1800)
  /\ (forall tok,
        fst (create_refresh_token sample_lib sample_settings 1%positive
               (sample_world sample_claims)) = inr tok ->
        exists p e i,
          carries sample_lib tok p
          /\ dict_get p (py "exp") = Some (VInt e)
          /\ dict_get p (py "iat") = Some (VInt i)
          /\ e - i <= 604800).
Proof.
  apply (issued_lifetime_bound sample_lib sample_settings 1%positive sample_claims
           None (sample_world sample_claims)).
  - reflexivity.
  - cbn. lia.
Defined.

Lemma issuance_leaves_heap_witness :
  heap (snd (create_access_token sample_lib sample_settings 1%positive None
               (sample_world sample_claims))) !! 1%positive = Some sample_claims
  /\ heap (snd (create_refresh_token sample_lib sample_settings 1%positive
                  (sample_world sample_claims))) !! 1%positive = Some sample_claims.
Proof.
  apply issuance_leaves_heap. reflexivity.
Defined.

(** ** The password policy under extension *)

Section PolicyExtension.

Variables ucd_isupper ucd_islower ucd_isdigit : codepoint -> bool.

Local Abbreviation validate :=
  (validate_password_strength ucd_isupper ucd_islower ucd_isdigit).

Lemma validate_accepts_iff password :
  validate password = (true, None)
  <-> 8 <= len password
      /\ existsb (isupper ucd_isupper) password = true
      /\ existsb (islower ucd_islower) password = true
      /\ existsb (isdigit ucd_isdigit) password = true
      /\ existsb (fun c => char_in c special_chars) password = true.
Proof.
  unfold validate_password_strength.
  destruct (len password <? 8) eqn:E1.
  { apply Z.ltb_lt in E1. split; [discriminate | lia]. }
  apply Z.ltb_ge in E1.
  destruct (existsb (isupper ucd_isupper) password);
    [|split; [discriminate | intros (_ & H & _); discriminate]].
  destruct (existsb (islower ucd_islower) password);
    [|split; [discriminate | intros (_ & _ & H & _); discriminate]].
  destruct (existsb (isdigit ucd_isdigit) password);
    [|split; [discriminate | intros (_ & _ & _ & H & _); discriminate]].
  destruct (existsb _ password);
    [|split; [discriminate | intros (_ & _ & _ & _ & H); discriminate]].
  cbn [negb]. tauto.
Qed.

Lemma existsb_extended {A} (f : A -> bool) (a p b : list A) :
  existsb f p = true -> existsb f (a ++ p ++ b) = true.
Proof.
  intros H. rewrite !existsb_app, H. now rewrite orb_true_r.
Qed.

(** X16.  The policy only asks for characters to be present: a password it
    accepts stays acceptable when characters of any kind are put before or
    after it.  No character is forbidden and no length is too great. *)
Theorem validate_password_strength_extends (a password b : str) :
  validate password = (true, None) ->
  validate (a ++ password ++ b) = (true, None).
Proof.
  rewrite !validate_accepts_iff. intros (Hlen & Hu & Hl & Hd & Hs).
  repeat split; try now apply existsb_extended.
  unfold len in *. rewrite !length_app. lia.
Qed.

End PolicyExtension.

Lemma validate_password_strength_extends_witness :
  validate_password_strength (fun _ => false) (fun _ => false) (fun _ => false)
    (py "  " ++ py "Tr0ub4dor&3" ++ [128512%N; 9%N])
  = (true, None).
Proof.
  apply validate_password_strength_extends. reflexivity.
Defined.

(** ** The initialisation vector shows in the blob *)

Lemma fernet_iv_position (version : Byte.byte) (ts iv rest : bytes) :
  List.length ts = 8%nat -> List.length iv = 16%nat ->
  firstn 16 (skipn 9 ([version] ++ ts ++ iv ++ rest)) = iv.
Proof.
  intros Hts Hiv.
  replace ([version] ++ ts ++ iv ++ rest) with (([version] ++ ts) ++ iv ++ rest)
    by now rewrite <- !app_assoc.
  rewrite drop_app_length' by (cbn; lia).
  now apply take_app_length'.
Qed.

Lemma bind_fst_ok_inv {A B} (c : M A) (k : A -> M B) w b :
  fst (bind c k w) = inr b ->
  exists a w', c w = (inr a, w') /\ fst (k a w') = inr b.
Proof.
  unfold bind. destruct (c w) as [[e|a] w']; [discriminate|].
  intros H. now exists a, w'.
Qed.

Section FreshVector.

Variable aes_cbc_encrypt : bytes -> bytes -> bytes -> bytes.
Variable hmac_sha256 : bytes -> bytes -> bytes.
Variables signing_key encryption_key : bytes.

Local Abbreviation encrypt_field' :=
  (encrypt_field aes_cbc_encrypt hmac_sha256 signing_key encryption_key).
Local Abbreviation token_of :=
  (fernet_token aes_cbc_encrypt hmac_sha256 signing_key encryption_key).

Lemma fernet_encrypt_eq (plain : bytes) (w : World) :
  fernet_encrypt aes_cbc_encrypt hmac_sha256 signing_key encryption_key plain w
  = bind (to_bytes8 (Z.quot (clock w (reads w)) 1000000))
      (fun ts => ret (token_of ts (drawn_bytes 16 w) plain))
      (after_draw 16 (tick w)).
Proof.
  unfold fernet_encrypt.
  rewrite (bind_ok time_time _ w (Z.quot (clock w (reads w)) 1000000) (tick w))
    by reflexivity.
  now rewrite (bind_ok (urandom 16) _ (tick w) _ _ (token_bytes_run 16 (tick w))).
Qed.

(** The blob [encrypt_field] returns is made with the next sixteen bytes
    of the generator. *)
Lemma encrypt_field_ok_blob (m : str) (w : World) (blob : str) :
  fst (encrypt_field' m w) = inr blob ->
  exists ts plain,
    List.length ts = 8%nat
    /\ blob = List.map Byte.to_N (token_of ts (drawn_bytes 16 w) plain).
Proof.
  unfold encrypt_field. intros H.
  apply bind_fst_ok_inv in H as (plain & w1 & H1 & H).
  apply bind_fst_ok_inv in H as (tok & w2 & H2 & H).
  assert (w1 = w) as ->.
  { unfold str_encode in H1. destruct (utf8_encode m); now inversion H1. }
  rewrite fernet_encrypt_eq in H2.
  apply bind_inv_ok in H2 as (ts & w3 & Hts & Hret).
  injection Hret as <- _.
  assert (Lts : List.length ts = 8%nat).
  { unfold to_bytes8 in Hts. destruct (_ || _); [discriminate|].
    injection Hts as <- _. apply be_bytes_length. }
  unfold bytes_decode in H.
  rewrite utf8_decode_ascii in H by apply urlsafe_b64encode_ascii.
  injection H as <-. now exists ts, plain.
Qed.

(** X17.  Encryption is not deterministic and the blob shows it: two
    blobs that [encrypt_field] returns, for the same value or for different
    ones, differ whenever the sixteen bytes drawn for their initialisation
    vectors differ.  (Stored blobs can therefore not be compared to find
    equal values.)  This holds for any cipher and any keyed hash. *)
Theorem encrypt_field_fresh_iv (m1 m2 : str) (w1 w2 : World) (blob1 blob2 : str) :
  fst (encrypt_field' m1 w1) = inr blob1 ->
  fst (encrypt_field' m2 w2) = inr blob2 ->
  drawn_bytes 16 w1 <> drawn_bytes 16 w2 ->
  blob1 <> blob2.
Proof.
  intros H1 H2 Hiv Heq. apply Hiv.
  apply encrypt_field_ok_blob in H1 as (ts1 & p1 & L1 & ->).
  apply encrypt_field_ok_blob in H2 as (ts2 & p2 & L2 & ->).
  apply map_to_N_inj, urlsafe_b64encode_inj in Heq.
  rewrite <- !app_assoc in Heq.
  apply (f_equal (fun data => firstn 16 (skipn 9 data))) in Heq.
  now rewrite !fernet_iv_position in Heq by (assumption || apply drawn_bytes_length).
Qed.

End FreshVector.

(** ["hello"] encrypted twice, the second time one byte further into the
    generator's stream. *)
Lemma encrypt_field_fresh_iv_witness :
  sample_blob
  <> py "gAAAAABlU_EA0PUaP2SJrtP4HUJnjLHW-4iFjIyPKysrKysrKysrKyvUzmAINBqmdP6e_v0_0Tc1vLFCr6WVJDoFhQkW4HFt1g==".
Proof.
  apply (encrypt_field_fresh_iv sample_cbc_encrypt sample_hmac256 sample_signing_key
           sample_encryption_key (py "hello") (py "hello")
           (sample_world []) (after_draw 1 (sample_world []))).
  - vm_compute. reflexivity.
  - vm_compute. reflexivity.
  - vm_compute. discriminate.
Defined.

(** ** The case of a secret *)

Lemma is_ascii_upper c : is_ascii (ascii_upper c) = is_ascii c.
Proof.
  unfold ascii_upper, is_ascii.
  destruct ((97 <=? c)%N && (c <=? 122)%N) eqn:E; [|reflexivity].
  bool_hyps. now ncmp.
Qed.

Lemma forallb_ascii_upper s :
  forallb is_ascii (List.map ascii_upper s) = forallb is_ascii s.
Proof.
  induction s as [|c s IH]; [reflexivity|].
  cbn [List.map forallb]. now rewrite is_ascii_upper, IH.
Qed.

Lemma b32decode_casefold_ext (s t : str) :
  List.map ascii_upper s = List.map ascii_upper t ->
  b32decode_casefold s = b32decode_casefold t.
Proof.
  intros H. unfold b32decode_casefold.
  assert (Ha : forallb is_ascii s = forallb is_ascii t).
  { rewrite <- (forallb_ascii_upper s), <- (forallb_ascii_upper t). now rewrite H. }
  assert (Hl : List.length s = List.length t).
  { apply (f_equal (@List.length _)) in H. now rewrite !length_map in H. }
  now rewrite Ha, Hl, H.
Qed.

Lemma byte_secret_ext (s t : str) :
  List.map ascii_upper s = List.map ascii_upper t ->
  byte_secret s = byte_secret t.
Proof.
  intros H. unfold byte_secret.
  assert (Hl : List.length s = List.length t).
  { apply (f_equal (@List.length _)) in H. now rewrite !length_map in H. }
  rewrite Hl. apply b32decode_casefold_ext.
  destruct (_ =? 0)%nat; [exact H|].
  now rewrite !map_app, H.
Qed.

Lemma generate_otp_ext (s t : str) input :
  byte_secret s = byte_secret t -> generate_otp s input = generate_otp t input.
Proof. intros H. unfold generate_otp. now rewrite H. Qed.

Section SecretCase.

Variable nfkc : str -> str.
Variable mktime : Z -> Z.

Lemma totp_verify_window_ext (s t otp : str) for_time offsets w :
  byte_secret s = byte_secret t ->
  totp_verify_window nfkc mktime s otp for_time offsets w
  = totp_verify_window nfkc mktime t otp for_time offsets w.
Proof.
  intros H. revert w. induction offsets as [|i rest IH]; intros w; [reflexivity|].
  cbn [totp_verify_window]. unfold totp_at.
  rewrite (generate_otp_ext s t _ H). unfold bind.
  destruct (generate_otp t (timecode mktime for_time + i) w) as [[e|code] w1];
    [reflexivity|].
  destruct (strings_equal nfkc otp code w1) as [[e|[]] w2]; try reflexivity.
  apply IH.
Qed.

(** X18.  [verify_totp] does not tell the case of the letters of a secret:
    two secrets that agree once their ASCII letters are put in upper case
    give the same answer, or the same exception, for every code at every
    time. *)
Theorem verify_totp_secret_case (secret1 secret2 code : str) (w : World) :
  List.map ascii_upper secret1 = List.map ascii_upper secret2 ->
  verify_totp nfkc mktime secret1 code w = verify_totp nfkc mktime secret2 code w.
Proof.
  intros H. apply byte_secret_ext in H.
  unfold verify_totp, totp_verify, bind.
  destruct (datetime_now w) as [[e|for_time] w1]; [reflexivity|].
  change (negb (1 =? 0)) with true. cbv iota.
  now apply totp_verify_window_ext.
Qed.

End SecretCase.

Lemma verify_totp_secret_case_witness :
  verify_totp (fun s => s) utc_mktime (py "jbswy3dpEHPK3pxp") (py "712301")
    (world_at 1700005500000000)
  = verify_totp (fun s => s) utc_mktime (py "JBSWY3DPEHPK3PXP") (py "712301")
      (world_at 1700005500000000).
Proof.
  apply verify_totp_secret_case. reflexivity.
Defined.

(** ** The provisioning URI *)

Lemma hex_digit_upper_safe n :
  (n < 16)%N -> always_safe (hex_digit_upper n) = true.
Proof.
  apply (N_forall_below 16 (fun n => always_safe (hex_digit_upper n))).
  vm_compute. reflexivity.
Qed.

Lemma quote_byte_chars safe b :
  forallb (fun c => is_uri_char c || char_in c safe) (quote_byte safe b) = true.
Proof.
  unfold quote_byte. pose proof (to_N_lt b) as Hb.
  destruct (always_safe (Byte.to_N b) || char_in (Byte.to_N b) safe) eqn:E.
  - cbn [forallb]. rewrite andb_true_r. unfold is_uri_char.
    apply orb_true_iff in E as [E|E]; rewrite E; [reflexivity|].
    apply orb_true_r.
  - cbn [forallb]. unfold is_uri_char.
    rewrite !hex_digit_upper_safe by dlia. reflexivity.
Qed.

Lemma quote_from_bytes_chars safe bs :
  forallb (fun c => is_uri_char c || char_in c safe) (quote_from_bytes bs safe) = true.
Proof.
  unfold quote_from_bytes. induction bs as [|b bs IH]; [reflexivity|].
  cbn [flat_map]. now rewrite forallb_app, quote_byte_chars, IH.
Qed.

Lemma quote_run s safe bs w :
  utf8_encode s = Some bs ->
  quote s safe w = (inr (quote_from_bytes bs safe), w).
Proof.
  intros E. unfold quote. destruct s as [|c s].
  - cbn in E. now injection E as <-.
  - unfold str_encode. rewrite E. reflexivity.
Qed.

Lemma forallb_impl {A} (f g : A -> bool) l :
  (forall x, f x = true -> g x = true) ->
  forallb f l = true -> forallb g l = true.
Proof.
  intros Hfg H. rewrite forallb_forall in *. auto.
Qed.

(** A path segment, quoted with [/] left as it is. *)
Lemma quote_path_run s bs w :
  utf8_encode s = Some bs ->
  exists q,
    quote s (py "/") w = (inr q, w) /\ forallb is_uri_char q = true.
Proof.
  intros E. exists (quote_from_bytes bs (py "/")).
  split; [now apply quote_run|].
  eapply forallb_impl; [|apply (quote_from_bytes_chars (py "/"))].
  intros c H. apply orb_true_iff in H as [H|H]; [exact H|].
  cbn in H. rewrite orb_false_r in H. apply N.eqb_eq in H. now subst c.
Qed.

Lemma replace_char_chars old new (f g : codepoint -> bool) s :
  forallb g new = true ->
  (forall c, f c = true -> c <> old -> g c = true) ->
  forallb f s = true ->
  forallb g (replace_char old new s) = true.
Proof.
  intros Hnew Hfg. unfold replace_char.
  induction s as [|c s IH]; [reflexivity|].
  cbn [forallb flat_map]. intros H. apply andb_true_iff in H as [Hc Hs].
  rewrite forallb_app, (IH Hs), andb_true_r.
  destruct (c =? old)%N eqn:E; [exact Hnew|].
  cbn [forallb]. rewrite andb_true_r. apply Hfg; [exact Hc|].
  now apply N.eqb_neq.
Qed.

Lemma quote_plus_run s bs w :
  utf8_encode s = Some bs ->
  exists q,
    quote_plus s w = (inr q, w) /\ forallb is_query_char q = true.
Proof.
  intros E. unfold quote_plus. destruct (negb (char_in 32%N s)).
  - exists (quote_from_bytes bs []). split; [now apply quote_run|].
    eapply forallb_impl; [|apply (quote_from_bytes_chars [])].
    intros c H. cbn in H. rewrite orb_false_r in H.
    unfold is_query_char. now rewrite H.
  - rewrite (bind_ok _ _ _ _ _ (quote_run s [32%N] bs w E)).
    eexists. split; [reflexivity|].
    apply (replace_char_chars 32%N [43%N]
             (fun c => is_uri_char c || char_in c [32%N])).
    + reflexivity.
    + intros c H Hne. unfold is_query_char.
      apply orb_true_iff in H as [H|H]; [now rewrite H|].
      cbn in H. rewrite orb_false_r in H. now apply N.eqb_eq in H.
    + apply quote_from_bytes_chars.
Qed.

Lemma join_chars (f : codepoint -> bool) sep l :
  forallb f sep = true ->
  Forall (fun s => forallb f s = true) l ->
  forallb f (join sep l) = true.
Proof.
  intros Hsep H. induction H as [|s l Hs Hl IH]; [reflexivity|].
  cbn [join]. destruct l as [|t l]; [exact Hs|].
  now rewrite !forallb_app, Hs, Hsep, IH.
Qed.

Lemma urlencode_run query w :
  Forall (fun kv => utf8_encode (fst kv) <> None /\ utf8_encode (snd kv) <> None)
    query ->
  exists args,
    urlencode query w = (inr args, w) /\ forallb is_query_char args = true.
Proof.
  intros H. unfold urlencode.
  assert (Hitems : exists l,
             urlencode_items query w = (inr l, w)
             /\ Forall (fun s => forallb is_query_char s = true) l).
  { induction H as [|[k v] query [Hk Hv] _ (l & El & Fl)].
    - exists []. split; [reflexivity | constructor].
    - cbn [fst snd] in Hk, Hv.
      destruct (utf8_encode k) as [kb|] eqn:Ek; [|congruence].
      destruct (utf8_encode v) as [vb|] eqn:Ev; [|congruence].
      destruct (quote_plus_run k kb w Ek) as (k' & Rk & Ck).
      destruct (quote_plus_run v vb w Ev) as (v' & Rv & Cv).
      cbn [urlencode_items].
      erewrite bind_ok by exact Rk. erewrite bind_ok by exact Rv.
      erewrite bind_ok by exact El.
      eexists. split; [reflexivity|]. constructor; [|exact Fl].
      rewrite forallb_app, Ck. cbn [app forallb]. now rewrite Cv. }
  destruct Hitems as (l & El & Fl).
  erewrite bind_ok by exact El.
  eexists. split; [reflexivity|]. now apply join_chars.
Qed.

Lemma startswith_app (p rest : str) : startswith (p ++ rest) p = true.
Proof.
  induction p as [|c p IH]; [now destruct rest|].
  cbn [app startswith]. now rewrite N.eqb_refl, IH.
Qed.

Lemma build_uri_run secret name issuer w :
  utf8_encode secret <> None ->
  utf8_encode name <> None ->
  match issuer with Some i => utf8_encode i <> None | None => True end ->
  exists uri,
    build_uri secret name issuer w = (inr uri, w)
    /\ startswith uri (py "otpauth://totp/") = true
    /\ forallb is_uri_char uri = true.
Proof.
  intros Hs Hn Hi. unfold build_uri.
  destruct (utf8_encode name) as [nb|] eqn:En; [|congruence].
  destruct (quote_path_run name nb w En) as (label & Rl & Cl).
  erewrite bind_ok by exact Rl.
  assert (Hlab : exists labelled,
             match issuer with
             | Some i =>
                 qi <- quote i (py "/") ;;
                 ret (qi ++ py ":" ++ label,
                      [(py "secret", secret); (py "issuer", i)])
             | None => ret (label, [(py "secret", secret)])
             end w = (inr labelled, w)
             /\ forallb is_uri_char (fst labelled) = true
             /\ Forall (fun kv => utf8_encode (fst kv) <> None
                                  /\ utf8_encode (snd kv) <> None) (snd labelled)).
  { destruct issuer as [i|].
    - destruct (utf8_encode i) as [ib|] eqn:Ei; [|congruence].
      destruct (quote_path_run i ib w Ei) as (qi & Ri & Ci).
      erewrite bind_ok by exact Ri.
      eexists. split; [reflexivity|]. cbn [fst snd]. split.
      + now rewrite !forallb_app, Ci, Cl.
      + repeat constructor; cbn [fst snd]; try discriminate; congruence.
    - eexists. split; [reflexivity|]. cbn [fst snd]. split; [exact Cl|].
      repeat constructor; cbn [fst snd]; try discriminate; congruence. }
  destruct Hlab as ([lab query] & Rq & Clab & Fq). cbn [fst snd] in *.
  erewrite bind_ok by exact Rq. cbn [fst snd].
  destruct (urlencode_run query w Fq) as (args & Ra & Ca).
  erewrite bind_ok by exact Ra.
  eexists. split; [reflexivity|]. split.
  { exact (startswith_app (py "otpauth://totp/")
             (lab ++ py "?" ++ replace_char 43%N (py "%20") args)). }
  rewrite !forallb_app, Clab.
  replace (forallb is_uri_char (replace_char 43%N (py "%20") args)) with true;
    [vm_compute; reflexivity|].
  symmetry. apply (replace_char_chars 43%N (py "%20") is_query_char).
  - reflexivity.
  - intros c H Hne. unfold is_query_char in H.
    apply orb_true_iff in H as [H|H]; [exact H|].
    now apply N.eqb_eq in H.
  - exact Ca.
Qed.

(** X19.  [generate_totp_uri] does not look into the secret: for every
    secret, e-mail address and issuer that UTF-8 can encode (valid base32
    or not) it returns, changing nothing, a URI that begins with
    [otpauth://totp/] and is written with unreserved characters,
    [%]-escapes and the delimiters [: / ? = &] only; no space, [+], [@]
    or character beyond ASCII is left in it. *)
Theorem generate_totp_uri_shape (secret email : str) (issuer : option str)
    (w : World) :
  utf8_encode secret <> None ->
  utf8_encode email <> None ->
  utf8_encode (default (py "Smart Strategies Builder") issuer) <> None ->
  exists uri,
    generate_totp_uri secret email issuer w = (inr uri, w)
    /\ startswith uri (py "otpauth://totp/") = true
    /\ forallb is_uri_char uri = true.
Proof.
  intros Hs He Hi. unfold generate_totp_uri, provisioning_uri.
  apply build_uri_run; [exact Hs| |].
  - destruct email; [discriminate | exact He].
  - destruct (default _ issuer); [exact I | exact Hi].
Qed.

Lemma generate_totp_uri_shape_witness :
  exists uri,
    generate_totp_uri (py "not base32!") (py "a b+c@example.com") None (world_at 0)
    = (inr uri, world_at 0)
    /\ startswith uri (py "otpauth://totp/") = true
    /\ forallb is_uri_char uri = true.
Proof.
  apply generate_totp_uri_shape; vm_compute; discriminate.
Defined.

(** ** Generated secrets *)

Lemma randbelow_ok_inv fuel n : forall w r w',
  randbelow fuel n w = (inr (Some r), w') -> (r < n)%N.
Proof.
  induction fuel as [|fuel IH]; intros w r w' H; [discriminate|].
  cbn [randbelow] in H. apply bind_inv_ok in H as (x & w1 & _ & H).
  destruct (x <? n)%N eqn:E.
  - injection H as <- _. now apply N.ltb_lt.
  - exact (IH _ _ _ H).
Qed.

Lemma alphabet_nth i :
  (i < 32)%N -> is_base32_char (nth (N.to_nat i) base32_alphabet 0%N) = true.
Proof.
  apply (N_forall_below 32
           (fun i => is_base32_char (nth (N.to_nat i) base32_alphabet 0%N))).
  vm_compute. reflexivity.
Qed.

Lemma choice_ok_inv fuel w c w' :
  choice fuel w = (inr (Some c), w') -> is_base32_char c = true.
Proof.
  unfold choice. intros H. apply bind_inv_ok in H as ([r|] & w1 & Hr & H);
    [|discriminate].
  injection H as <- _. apply alphabet_nth.
  exact (randbelow_ok_inv _ _ _ _ _ Hr).
Qed.

Lemma random_chars_ok_inv fuel length : forall w s w',
  random_chars fuel length w = (inr (Some s), w') ->
  List.length s = length /\ forallb is_base32_char s = true.
Proof.
  induction length as [|length IH]; intros w s w' H.
  - injection H as <- _. now split.
  - cbn [random_chars] in H.
    apply bind_inv_ok in H as ([c|] & w1 & Hc & H); [|discriminate].
    apply bind_inv_ok in H as ([rest|] & w2 & Hrest & H); [|discriminate].
    injection H as <- _. apply choice_ok_inv in Hc.
    destruct (IH _ _ _ Hrest) as [L F].
    cbn [List.length forallb]. now rewrite L, Hc, F.
Qed.

(** *** What the decoder makes of such a secret *)

Lemma base32_char_facts c :
  is_base32_char c = true ->
  is_ascii c = true /\ ascii_upper c = c /\ (c =? 61)%N = false
  /\ b32_digit c <> None.
Proof.
  unfold is_base32_char, char_in. intros H.
  apply existsb_exists in H as (x & Hin & Hx). apply N.eqb_eq in Hx. subst x.
  cbn in Hin.
  repeat (destruct Hin as [<-|Hin]; [repeat split; discriminate|]).
  destruct Hin.
Qed.

Lemma lstrip_pad_none (s : str) :
  match s with c :: _ => (c =? 61)%N = false | [] => True end ->
  lstrip_pad s = s.
Proof. destruct s as [|c s]; [reflexivity|]. cbn. now intros ->. Qed.

Lemma b32_acc_ok (q : str) : forall acc,
  forallb is_base32_char q = true -> exists v, b32_acc q acc = Some v.
Proof.
  induction q as [|c q IH]; intros acc H; [now exists acc|].
  cbn [forallb] in H. apply andb_true_iff in H as [Hc Hq].
  apply base32_char_facts in Hc as (_ & _ & _ & Hd).
  cbn [b32_acc]. destruct (b32_digit c) as [v|]; [|congruence].
  now apply IH.
Qed.

Lemma b32_quanta_ok (quanta : list str) :
  Forall (fun q => forallb is_base32_char q = true) quanta ->
  exists decoded acc,
    b32_quanta quanta = Some (decoded, acc)
    /\ List.length decoded = (5 * List.length quanta)%nat.
Proof.
  induction 1 as [|q quanta Hq _ (decoded & acc & E & L)].
  - now exists [], 0%N.
  - destruct (b32_acc_ok q 0%N Hq) as (v & Ev).
    cbn [b32_quanta]. rewrite Ev, E.
    do 2 eexists. split; [reflexivity|].
    rewrite length_app, be_bytes_length, L. cbn [List.length]. lia.
Qed.

Lemma byte_secret_generated (s : str) :
  List.length s = 32%nat ->
  forallb is_base32_char s = true ->
  exists key, byte_secret s = inr key /\ List.length key = 20%nat.
Proof.
  intros L F.
  assert (Hall : forall c, In c s -> is_base32_char c = true)
    by now apply forallb_forall.
  assert (Hascii : forallb is_ascii s = true).
  { apply forallb_forall. intros c Hc. now apply base32_char_facts, Hall. }
  assert (Hupper : List.map ascii_upper s = s).
  { rewrite <- (map_id s) at 2. apply map_ext_in. intros c Hc.
    now apply base32_char_facts, Hall. }
  assert (Hstrip : rstrip_pad s = s).
  { unfold rstrip_pad. rewrite lstrip_pad_none; [apply rev_involutive|].
    destruct (rev s) as [|c r] eqn:E; [exact I|].
    apply base32_char_facts, Hall, in_rev. rewrite E. now left. }
  unfold byte_secret. rewrite L. cbn [Nat.modulo Nat.eqb Nat.divmod fst snd Nat.sub].
  unfold b32decode_casefold.
  rewrite Hascii, Hupper, Hstrip, L. cbn [negb Nat.modulo Nat.eqb Nat.divmod snd Nat.sub].
  assert (Hq : Forall (fun q => forallb is_base32_char q = true) (chunks 32 8 s)
               /\ List.length (chunks 32 8 s) = 4%nat).
  { do 32 (destruct s as [|? s]; [discriminate L|]).
    destruct s as [|? s]; [|discriminate L].
    clear L Hall Hascii Hupper Hstrip. cbn [forallb] in F.
    repeat (apply andb_true_iff in F as [? F]).
    cbn [chunks firstn skipn]. split; [|reflexivity].
    repeat constructor; cbn [forallb];
      repeat (apply andb_true_iff; split); assumption || reflexivity. }
  destruct Hq as [Hq Hn].
  destruct (b32_quanta_ok _ Hq) as (decoded & acc & E & Ld).
  rewrite E. cbn [existsb Nat.eqb orb negb andb].
  exists decoded. split; [reflexivity|].
  rewrite Ld. change 20%nat with (5 * 4)%nat. f_equal. exact Hn.
Qed.

Section GeneratedSecret.

Variable nfkc : str -> str.
Variable mktime : Z -> Z.
Hypothesis nfkc_ascii : forall s, forallb is_ascii s = true -> nfkc s = s.

(** X20.  A secret that [generate_totp_secret] returns has 32 characters
    of the base32 alphabet [A-Z2-7]; the decoder makes a key of 20 bytes of
    it, so [verify_totp] never raises for such a secret: it answers every
    code whose normal form can be encoded, at any time that [mktime] puts
    at thirty seconds after the epoch or later, with a truth value. *)
Theorem generated_secret_verifies (fuel : nat) (w : World) (secret : str) :
  fst (generate_totp_secret fuel w) = inr (Some secret) ->
  len secret = 32
  /\ forallb is_base32_char secret = true
  /\ exists key,
       byte_secret secret = inr key
       /\ len key = 20
       /\ forall (code : str) (later : World),
            30 <= local_seconds mktime later ->
            utf8_encode (nfkc code) <> None ->
            exists accepted,
              verify_totp nfkc mktime secret code later
              = (inr accepted, tick later).
Proof.
  intros H. unfold generate_totp_secret, random_base32 in H.
  change (32 <? 32) with false in H. cbv iota in H.
  destruct (random_chars fuel (Z.to_nat 32) w) as [[e|[s|]] w'] eqn:E;
    try discriminate.
  cbn in H. injection H as ->.
  apply random_chars_ok_inv in E as [L F].
  split; [unfold len; now rewrite L|]. split; [exact F|].
  destruct (byte_secret_generated secret L F) as (key & Hk & Lk).
  exists key. split; [exact Hk|]. split; [unfold len; now rewrite Lk|].
  intros code later Hclock Hcode. apply timecode_positive in Hclock.
  eexists. unfold verify_totp, totp_verify.
  erewrite bind_ok by (unfold datetime_now, utcnow; reflexivity).
  change (negb (1 =? 0)) with true. cbv iota.
  change (range (- (1)) (1 + 1)) with [-1; 0; 1].
  apply (totp_verify_window_run nfkc mktime nfkc_ascii secret key); try assumption.
  repeat constructor; lia.
Qed.

End GeneratedSecret.

(** *** Enough fuel *)

Lemma getrandbits_6 w :
  getrandbits 6 w
  = (inr (N.shiftr (Byte.to_N (entropy w (drawn w))) 2), after_draw 1 w).
Proof.
  unfold getrandbits. change (N.to_nat ((6 + 7) / 8)) with 1%nat.
  rewrite (bind_ok _ _ _ _ _ (token_bytes_run 1 w)).
  unfold drawn_bytes. cbn [seq List.map be_value]. now rewrite Nat.add_0_r.
Qed.

(** The bytes from which six bits below 32 are taken: those below 128. *)
Lemma high_bits_below b : (Byte.to_N b < 128)%N -> (N.shiftr (Byte.to_N b) 2 <? 32)%N = true.
Proof.
  intros H. apply N.ltb_lt. rewrite N.shiftr_div_pow2.
  change (2 ^ 2)%N with 4%N. dlia.
Qed.

Lemma randbelow_returns fuel : forall w k,
  (k < fuel)%nat ->
  (Byte.to_N (entropy w (drawn w + k)) < 128)%N ->
  exists r j,
    randbelow fuel 32 w = (inr (Some r), after_draw (S j) w).
Proof.
  induction fuel as [|fuel IH]; intros w k Hk Hb; [lia|].
  cbn [randbelow]. change (N.size 32) with 6%N.
  rewrite (bind_ok _ _ _ _ _ (getrandbits_6 w)).
  destruct (N.shiftr (Byte.to_N (entropy w (drawn w))) 2 <? 32)%N eqn:E.
  - now exists (N.shiftr (Byte.to_N (entropy w (drawn w))) 2), 0%nat.
  - destruct k as [|k].
    { rewrite Nat.add_0_r in Hb. rewrite (high_bits_below _ Hb) in E. discriminate. }
    destruct (IH (after_draw 1 w) k ltac:(lia)) as (r & j & R).
    { cbn [after_draw entropy drawn].
      now replace (drawn w + 1 + k)%nat with (drawn w + S k)%nat by lia. }
    exists r, (S j). rewrite R, after_draw_add. reflexivity.
Qed.

Lemma choice_returns fuel w k :
  (k < fuel)%nat ->
  (Byte.to_N (entropy w (drawn w + k)) < 128)%N ->
  exists c j, choice fuel w = (inr (Some c), after_draw (S j) w).
Proof.
  intros Hk Hb. destruct (randbelow_returns fuel w k Hk Hb) as (r & j & R).
  unfold choice. change (N.of_nat (List.length base32_alphabet)) with 32%N.
  rewrite (bind_ok _ _ _ _ _ R). now do 2 eexists.
Qed.

(** X21.  [generate_totp_secret] returns a secret as soon as the generator
    does not withhold the bytes it needs: if among any [fuel] consecutive
    bytes of its stream there is one below 128, the rejection loop never
    runs [fuel] times and the call returns 32 characters. *)
Theorem generate_totp_secret_returns (fuel : nat) (w : World) :
  (forall n, exists k, (k < fuel)%nat /\ (Byte.to_N (entropy w (n + k)) < 128)%N) ->
  exists secret w',
    generate_totp_secret fuel w = (inr (Some secret), w')
    /\ len secret = 32.
Proof.
  intros Hstream. unfold generate_totp_secret, random_base32.
  change (32 <? 32) with false. cbv iota.
  assert (Hchars : forall length j,
             exists s j',
               random_chars fuel length (after_draw j w)
               = (inr (Some s), after_draw j' w)
               /\ List.length s = length).
  { induction length as [|length IH]; intros j.
    - now exists [], j.
    - cbn [random_chars].
      destruct (Hstream (drawn w + j)%nat) as (k & Hk & Hb).
      destruct (choice_returns fuel (after_draw j w) k Hk Hb) as (c & j1 & R).
      rewrite after_draw_add in R.
      rewrite (bind_ok _ _ _ _ _ R).
      destruct (IH (j + S j1)%nat) as (s & j' & E & L).
      rewrite (bind_ok _ _ _ _ _ E).
      do 2 eexists. split; [reflexivity|]. cbn [List.length]. now rewrite L. }
  destruct (Hchars (Z.to_nat 32) 0%nat) as (s & j' & E & L).
  rewrite after_draw_0 in E.
  exists s, (after_draw j' w). split; [exact E|].
  unfold len. now rewrite L.
Qed.

(** The secret of the sample generator, which needs 62 bytes for it. *)
Lemma generated_secret_verifies_witness :
  let secret := py "GPZHQZIR2IS3AJS4BKT4BLU5CLV6DMV7" in
  len secret = 32
  /\ forallb is_base32_char secret = true
  /\ exists key,
       byte_secret secret = inr key
       /\ len key = 20
       /\ forall (code : str) (later : World),
            30 <= local_seconds utc_mktime later ->
            utf8_encode code <> None ->
            exists accepted,
              verify_totp (fun s => s) utc_mktime secret code later
              = (inr accepted, tick later).
Proof.
  apply (generated_secret_verifies (fun s => s) utc_mktime (fun s _ => eq_refl) 5
           (sample_world [])).
  vm_compute. reflexivity.
Defined.

(** A generator that yields zero bytes only. *)
Lemma generate_totp_secret_returns_witness :
  exists secret w',
    generate_totp_secret 1 (world_at 0) = (inr (Some secret), w')
    /\ len secret = 32.
Proof.
  apply generate_totp_secret_returns.
  intros n. exists 0%nat. split; [lia|]. cbn. lia.
Defined.

(** ** Hashing and verifying a password *)

Section HashThenVerify.

Context {phc : Type}.
Variable argon2_decode : str -> exn + phc.
Variable argon2_matches : phc -> bytes -> bool.
Variable argon2_hash_secret : bytes -> bytes -> str.
Variable salt_of_random : bytes -> bytes.

(** What Argon2 and its hash strings are assumed to do: a hash string
    names its scheme, can be decoded, and matches the secret it was made
    of. *)
Hypothesis hash_identified :
  forall salt secret, identify (argon2_hash_secret salt secret) = true.
Hypothesis hash_matches :
  forall salt secret,
    exists h,
      argon2_decode (argon2_hash_secret salt secret) = inr h
      /\ argon2_matches h secret = true.

(** X22.  A password of at most 4096 characters that UTF-8 can encode is
    hashed, with sixteen bytes drawn from the system generator for the
    salt and nothing else changed, and [verify_password] then accepts it
    against that hash at any later time: both functions apply the same
    size limit and the same encoding. *)
Theorem verify_password_hash_password (password : str) (w : World) :
  len password <= MAX_PASSWORD_SIZE ->
  utf8_encode password <> None ->
  exists hash,
    hash_password argon2_hash_secret salt_of_random password w
    = (inr hash, after_draw 16 w)
    /\ forall later : World,
         verify_password argon2_decode argon2_matches password hash later
         = (inr true, later).
Proof.
  intros Hlen Henc.
  destruct (utf8_encode password) as [bs|] eqn:E; [|congruence].
  apply Z.ltb_ge in Hlen.
  exists (argon2_hash_secret (salt_of_random (drawn_bytes 16 w)) bs). split.
  - unfold hash_password, pwd_context_hash, str_encode. rewrite Hlen, E.
    unfold bind at 1 2. unfold ret at 1 2. cbv iota beta.
    now rewrite (bind_ok _ _ _ _ _ (token_bytes_run 16 w)).
  - intros later. unfold verify_password, pwd_context_verify, str_encode.
    destruct (hash_matches (salt_of_random (drawn_bytes 16 w)) bs) as (h & Hd & Hm).
    rewrite hash_identified, Hlen, E, Hd. cbn [negb]. unfold bind, ret.
    now rewrite Hm.
Qed.

End HashThenVerify.

Lemma sample_argon2_identified salt secret :
  identify (sample_argon2 salt secret) = true.
Proof. reflexivity. Qed.

Lemma sample_argon2_decodes salt secret :
  sample_argon2_matches (sample_argon2 salt secret) secret = true.
Proof.
  unfold sample_argon2_matches, sample_argon2. apply str_eqb_eq.
  rewrite !app_assoc. apply drop_app_length'.
  rewrite length_app. destruct (hexlify_shape secret) as [-> _]. lia.
Qed.

Lemma verify_password_hash_password_witness :
  exists hash,
    hash_password sample_argon2 (fun r => r) (py "Tr0ub4dor&3") (sample_world [])
    = (inr hash, after_draw 16 (sample_world []))
    /\ forall later : World,
         verify_password (fun h => inr h) sample_argon2_matches
           (py "Tr0ub4dor&3") hash later
         = (inr true, later).
Proof.
  apply (verify_password_hash_password (fun h => inr h) sample_argon2_matches
           sample_argon2 (fun r => r)).
  - apply sample_argon2_identified.
  - intros salt secret. eexists. split; [reflexivity | apply sample_argon2_decodes].
  - vm_compute. discriminate.
  - vm_compute. discriminate.
Defined.

(** ** The codes [verify_totp] accepts *)



Section AcceptedCodes.

Variable nfkc : str -> str.
Variable mktime : Z -> Z.
Hypothesis nfkc_ascii : forall s, forallb is_ascii s = true -> nfkc s = s.




End AcceptedCodes.

